(** * Storage cleaner: scan, classify, deduplicate, clean, history

    A shallow embedding of the storage-cleaner engine.  The server side
    (the Express handlers around [scanRoot]) and the client side (the
    React Native [scanSafTree] / [buildCategories] / [runDeviceClean])
    are embedded separately, in the modules [Server] and [Client], on
    top of a common layer of strings, paths, file records and history
    entries.

    Conventions.
    - JavaScript strings are [string]s of 8-bit characters; [toLowerCase]
      is the ASCII lowering, so the embedding covers ASCII paths.
    - Paths are POSIX paths ([path.sep] is "/").
    - The history store is a file of its own, outside the tree under
      the root, that can be read and written (see [Server.World]).
    - Byte counts are naturals of unbounded size ([N]); JavaScript adds
      them as doubles, exact below 2^53.  Quantities the code passes
      through [Math.round] / [Math.max] are integers ([Z]). *)

From Stdlib Require Import ZArith NArith Lia Ascii String List Bool.
From Stdlib Require Import DecimalString DecimalN DecimalZ.
From stdpp Require Import base list strings.

Set Warnings "-register-all".

Open Scope string_scope.
Open Scope list_scope.
Open Scope Z_scope.

(** ** JavaScript strings *)

Module Js.

Definition lower_ascii (c : ascii) : ascii :=
  let n := N_of_ascii c in
  if ((65 <=? n) && (n <=? 90))%N then ascii_of_N (n + 32) else c.

(** [String.prototype.toLowerCase] on strings of ASCII characters: the
    letters A to Z are lowered and the length is kept.  On other
    characters the JavaScript function may change letters and even the
    length; statements that depend on this are made for strings that
    satisfy [isAscii] below. *)
Fixpoint toLowerCase (s : string) : string :=
  match s with
  | EmptyString => EmptyString
  | String c r => String (lower_ascii c) (toLowerCase r)
  end.

(** [hay.startsWith(needle)]. *)
Definition startsWith (hay needle : string) : bool := String.prefix needle hay.

(** [hay.includes(needle)]. *)
Fixpoint includes (hay needle : string) : bool :=
  startsWith hay needle ||
  match hay with
  | EmptyString => false
  | String _ r => includes r needle
  end.

(** [s.lastIndexOf(".")]: position of the last occurrence of [c], [-1]
    when there is none. *)
Fixpoint lastIndexOf_from (c : ascii) (s : string) (i : Z) (found : Z) : Z :=
  match s with
  | EmptyString => found
  | String d r =>
      lastIndexOf_from c r (i + 1) (if Ascii.eqb d c then i else found)
  end.

Definition lastIndexOf (s : string) (c : ascii) : Z := lastIndexOf_from c s 0 (-1).

Definition chars (s : string) : list ascii := list_ascii_of_string s.

(** A string of ASCII characters (codes below 128). *)
Definition isAscii (s : string) : bool :=
  forallb (fun c => (N_of_ascii c <? 128)%N) (chars s).
Definition str (l : list ascii) : string := string_of_list_ascii l.

(** Clamp of a relative index, as [slice] does: a negative index counts
    from the end. *)
Definition rel_index (len i : Z) : Z :=
  if i <? 0 then Z.max (len + i) 0 else Z.min i len.

(** [s.slice(a, b)]. *)
Definition slice (s : string) (a b : Z) : string :=
  let len := Z.of_nat (String.length s) in
  let from := rel_index len a in
  let to := rel_index len b in
  String.substring (Z.to_nat from) (Z.to_nat (to - from)) s.

(** [s.slice(a)]. *)
Definition slice_from (s : string) (a : Z) : string :=
  slice s a (Z.of_nat (String.length s)).

(** [s.split(sep)] for a one-character separator. *)
Fixpoint split_acc (sep : ascii) (s : string) (cur : list ascii) : list string :=
  match s with
  | EmptyString => [str (rev cur)]
  | String c r =>
      if Ascii.eqb c sep then str (rev cur) :: split_acc sep r []
      else split_acc sep r (c :: cur)
  end.

Definition split (s : string) (sep : ascii) : list string := split_acc sep s [].

(** [parts.join(sep)]. *)
Definition join (parts : list string) (sep : string) : string := String.concat sep parts.

(** [Math.round(n / d)] for an integer [n] and a positive integer [d]:
    the nearest integer, a half rounding up. *)
Definition round_div (n d : Z) : Z := (2 * n + d) / (2 * d).

(** The decimal rendering of a non-negative integer in a template
    string. *)
Definition num_to_string (n : N) : string := NilEmpty.string_of_uint (N.to_uint n).

End Js.

(** ** POSIX paths, as Node's [path] module treats them *)

Module Path.

Definition sep : string := "/".
Definition slash : ascii := "/"%char.
Definition dot : ascii := "."%char.

(** State of the backwards scan of [path.extname]. *)
Record ExtScan := {
  startDot : Z;
  startPart : Z;
  endPos : Z;
  matchedSlash : bool;
  preDotState : Z
}.

Definition ext_init : ExtScan :=
  {| startDot := -1; startPart := 0; endPos := -1; matchedSlash := true; preDotState := 0 |}.

(** The loop of [extname]: [rcs] holds the characters still to visit,
    last character first; [i] is the index of its head. *)
Fixpoint ext_scan (rcs : list ascii) (i : Z) (st : ExtScan) : ExtScan :=
  match rcs with
  | [] => st
  | c :: rest =>
      if Ascii.eqb c slash then
        if negb (matchedSlash st) then
          {| startDot := startDot st; startPart := i + 1; endPos := endPos st;
             matchedSlash := matchedSlash st; preDotState := preDotState st |}
        else ext_scan rest (i - 1) st
      else
        let st1 :=
          if endPos st =? -1 then
            {| startDot := startDot st; startPart := startPart st; endPos := i + 1;
               matchedSlash := false; preDotState := preDotState st |}
          else st in
        let st2 :=
          if Ascii.eqb c dot then
            if startDot st1 =? -1 then
              {| startDot := i; startPart := startPart st1; endPos := endPos st1;
                 matchedSlash := matchedSlash st1; preDotState := preDotState st1 |}
            else if negb (preDotState st1 =? 1) then
              {| startDot := startDot st1; startPart := startPart st1; endPos := endPos st1;
                 matchedSlash := matchedSlash st1; preDotState := 1 |}
            else st1
          else if negb (startDot st1 =? -1) then
            {| startDot := startDot st1; startPart := startPart st1; endPos := endPos st1;
               matchedSlash := matchedSlash st1; preDotState := -1 |}
          else st1 in
        ext_scan rest (i - 1) st2
  end.

(** [path.extname(p)]. *)
Definition extname (p : string) : string :=
  let st := ext_scan (rev (Js.chars p)) (Z.of_nat (String.length p) - 1) ext_init in
  if (startDot st =? -1) || (endPos st =? -1) || (preDotState st =? 0) ||
     ((preDotState st =? 1) && (startDot st =? endPos st - 1) &&
      (startDot st =? startPart st + 1))
  then ""
  else Js.slice p (startDot st) (endPos st).

End Path.

(** ** Categories and the two categorizers *)

Inductive CategoryId := cache | downloads | duplicates | media | logs.

#[global] Instance CategoryId_eq_dec : EqDecision CategoryId.
Proof. solve_decision. Defined.

Definition MEDIA_EXTS : list string :=
  [".mp4"; ".mov"; ".mkv"; ".avi"; ".zip"; ".rar"; ".7z"; ".tar"; ".gz"; ".iso"].
Definition LOG_EXTS : list string := [".log"].

(** [set.has(x)] for a set of strings. *)
Definition has (set : list string) (x : string) : bool :=
  existsb (String.eqb x) set.

(** Server: [categorizeFile(filePath)]. *)
Definition categorizeFile (filePath : string) : option CategoryId :=
  let lower := Js.toLowerCase filePath in
  if Js.includes lower (Path.sep +:+ "cache" +:+ Path.sep) ||
     Js.includes lower (Path.sep +:+ "tmp" +:+ Path.sep) then Some cache
  else if Js.includes lower (Path.sep +:+ "downloads" +:+ Path.sep) then Some downloads
  else
    let ext := Path.extname lower in
    if has MEDIA_EXTS ext then Some media
    else if has LOG_EXTS ext then Some logs
    else None.

(** Client: [categorizeName(name, uri)]. *)
Definition categorizeName (name uri : string) : option CategoryId :=
  let lower := Js.toLowerCase (name +:+ " " +:+ uri) in
  if Js.includes lower "/cache/" || Js.includes lower "/tmp/" then Some cache
  else if Js.includes lower "downloads" || Js.includes lower "download" then Some downloads
  else
    let ext := Js.slice_from (Js.toLowerCase name) (Js.lastIndexOf name Path.dot) in
    if has MEDIA_EXTS ext then Some media
    else if has LOG_EXTS ext then Some logs
    else None.


(** ** Paths: [normalize], [join], [resolve] *)

Module PathOps.

Definition is_empty (s : string) : bool := String.eqb s "".

(** [normalizeString]: the segments of the path are visited left to
    right; empty segments and "." are dropped, ".." removes the last
    kept segment (or is kept itself, above the start of a relative
    path).  [res] holds the kept segments, last one first. *)
Fixpoint normalizeSegs (allowAboveRoot : bool) (segs res : list string) : list string :=
  match segs with
  | [] => rev res
  | s :: rest =>
      if String.eqb s "" || String.eqb s "." then normalizeSegs allowAboveRoot rest res
      else if String.eqb s ".." then
        match res with
        | r :: res' =>
            if String.eqb r ".." then
              normalizeSegs allowAboveRoot rest (if allowAboveRoot then ".." :: res else res)
            else normalizeSegs allowAboveRoot rest res'
        | [] => normalizeSegs allowAboveRoot rest (if allowAboveRoot then [".."] else [])
        end
      else normalizeSegs allowAboveRoot rest (s :: res)
  end.

Definition normalizeString (p : string) (allowAboveRoot : bool) : string :=
  Js.join (normalizeSegs allowAboveRoot (Js.split p Path.slash) []) "/".

Definition isAbsolute (p : string) : bool := Js.startsWith p "/".

Definition endsWithSlash (p : string) : bool :=
  match rev (Js.chars p) with
  | c :: _ => Ascii.eqb c Path.slash
  | [] => false
  end.

(** [path.normalize(p)]. *)
Definition normalize (p : string) : string :=
  if is_empty p then "."
  else
    let abs := isAbsolute p in
    let trailing := endsWithSlash p in
    let q := normalizeString p (negb abs) in
    if is_empty q then
      if abs then "/" else if trailing then "./" else "."
    else
      let q' := if trailing then q +:+ "/" else q in
      if abs then "/" +:+ q' else q'.

(** [path.join(a, b)]. *)
Definition join (a b : string) : string :=
  match is_empty a, is_empty b with
  | true, true => "."
  | false, true => normalize a
  | true, false => normalize b
  | false, false => normalize (a +:+ "/" +:+ b)
  end.

(** [path.resolve(p)] in a process whose working directory is [cwd]. *)
Definition resolve (cwd p : string) : string :=
  let step (acc : string * bool) (arg : string) : string * bool :=
    let '(resolvedPath, resolvedAbsolute) := acc in
    if resolvedAbsolute then acc
    else if is_empty arg then acc
    else (arg +:+ "/" +:+ resolvedPath, isAbsolute arg) in
  let '(resolvedPath, resolvedAbsolute) := step (step ("", false) p) cwd in
  let q := normalizeString resolvedPath (negb resolvedAbsolute) in
  if resolvedAbsolute then "/" +:+ q
  else if is_empty q then "." else q.

End PathOps.

(** ** File records, snapshots, history *)

Record FileRecord := {
  path : string;
  name : string;
  size : N;
  category : option CategoryId
}.

Definition setCategory (c : CategoryId) (f : FileRecord) : FileRecord :=
  {| path := path f; name := name f; size := size f; category := Some c |}.

Record CategorySummary := {
  id : CategoryId;
  sname : string;
  description : string;
  sizeMB : Z
}.

(** The object with one array per category id. *)
Record CategoryFiles := {
  cf_cache : list FileRecord;
  cf_downloads : list FileRecord;
  cf_duplicates : list FileRecord;
  cf_media : list FileRecord;
  cf_logs : list FileRecord
}.

Definition cf_get (cf : CategoryFiles) (c : CategoryId) : list FileRecord :=
  match c with
  | cache => cf_cache cf
  | downloads => cf_downloads cf
  | duplicates => cf_duplicates cf
  | media => cf_media cf
  | logs => cf_logs cf
  end.

(** JSON values, as [express.json()] and [JSON.parse] deliver them.
    Numbers are restricted to integers that print in plain decimal
    (magnitude below 10^21). *)
Inductive Json :=
| JNull
| JBool (b : bool)
| JNum (n : Z)
| JStr (s : string)
| JArr (items : list Json)
| JObj (fields : list (string * Json)).

Record HistoryEntry := {
  hid : string;
  htime : string;
  cleanedMB : Z;
  hcleanedFiles : N;
  hcategories : list Json;
  hsimulated : bool
}.

Definition MB : Z := 1024 * 1024.

(** [files.reduce((s, f) => s + f.size, 0)]. *)
Definition sumSizes (files : list FileRecord) : N :=
  foldl (fun s f => (s + size f)%N) 0%N files.

(** ** Duplicate detection, shared by [scanRoot] and [buildCategories] *)

(** The template string [`${file.name}:${file.size}`]. *)
Definition keyOf (f : FileRecord) : string :=
  name f +:+ ":" +:+ Js.num_to_string (size f).

(** The [Map] from key to group, in insertion order.  A group holds
    references to file objects: positions in the [files] array. *)
Definition DuplicateMap := list (string * list nat).

(** [if (!map.has(key)) map.set(key, []); map.get(key).push(file)]. *)
Fixpoint mapPush (key : string) (i : nat) (m : DuplicateMap) : DuplicateMap :=
  match m with
  | [] => [(key, [i])]
  | (k, g) :: rest =>
      if String.eqb k key then (k, g ++ [i]) :: rest
      else (k, g) :: mapPush key i rest
  end.

Fixpoint buildDuplicateMap (files : list FileRecord) (i : nat) (m : DuplicateMap)
  : DuplicateMap :=
  match files with
  | [] => m
  | f :: rest => buildDuplicateMap rest (S i) (mapPush (keyOf f) i m)
  end.

(** [for (const file of group.slice(1)) file.category = "duplicates"]:
    the assignment goes through the reference, so it is seen in
    [files]. *)
Definition markGroup (files : list FileRecord) (group : list nat) : list FileRecord :=
  if (1 <? length group)%nat then
    foldl (fun fs i => alter (setCategory duplicates) i fs) files (tail group)
  else files.

Definition markDuplicates (files : list FileRecord) : list FileRecord :=
  foldl (fun fs kg => markGroup fs (snd kg)) files (buildDuplicateMap files 0 []).

Definition hasCategory (c : CategoryId) (f : FileRecord) : bool :=
  match category f with
  | Some c' => bool_decide (c' = c)
  | None => false
  end.

(** [if (file.category && categoryFiles[file.category]) ...push(file)]. *)
Definition collectCategories (files : list FileRecord) : CategoryFiles :=
  {| cf_cache := filter (fun f => hasCategory cache f = true) files;
     cf_downloads := filter (fun f => hasCategory downloads f = true) files;
     cf_duplicates := filter (fun f => hasCategory duplicates f = true) files;
     cf_media := filter (fun f => hasCategory media f = true) files;
     cf_logs := filter (fun f => hasCategory logs f = true) files |}.

Definition categoryMeta (c : CategoryId) : string * string :=
  match c with
  | cache => ("App Cache", "Temporary app data")
  | downloads => ("Downloads", "Unsorted files")
  | duplicates => ("Duplicates", "Exact file copies")
  | media => ("Large Media", "Videos and archives")
  | logs => ("Old Logs", "System logs")
  end.

Definition allCategories : list CategoryId := [cache; downloads; duplicates; media; logs].

(** The outcome of a handler: it answers, or a [TypeError] is thrown
    out of its straight-line code. *)
Inductive Outcome (A : Type) :=
| Answer (a : A)
| TypeError.
Arguments Answer {A} a.
Arguments TypeError {A}.

(** ** The server *)

Module Server.

(** The process environment: [STORAGE_ROOT], [CLEANER_ALLOW_DELETE ===
    "true"], and the working directory that [path.resolve] consults. *)
Record Config := {
  STORAGE_ROOT : string;
  ALLOW_DELETE : bool;
  cwd : string
}.

Definition IGNORED_DIRS : list string := ["node_modules"; ".git"; ".expo"].

(** The file system below the root, as [readdir], [stat] and [unlink]
    see it.  A regular file carries its size and whether [stat] and
    [unlink] succeed on it; a directory whether it can be listed, and
    its entries in listing order; [Other] is an entry that is neither a
    regular file nor a directory (a symbolic link, a socket). *)
Inductive Node :=
| File (fsize : N) (statOk : bool) (unlinkOk : bool)
| Dir (readable : bool) (entries : list (string * Node))
| Other.

Fixpoint nodeCount (n : Node) : nat :=
  match n with
  | Dir _ es => S (list_sum (map (fun e => nodeCount (snd e)) es))
  | _ => 1%nat
  end.

(** [fs.promises.readdir(current, { withFileTypes: true })]; [None] when
    it throws. *)
Definition readdir (n : Node) : option (list (string * Node)) :=
  match n with
  | Dir true es => Some es
  | _ => None
  end.

(** The work stack holds the paths still to list, each with the node
    it names; the top of the stack is the head of the list. *)
Definition Stack := list (string * Node).

(** The [for (const entry of entries)] loop of [scanRoot]. *)
Fixpoint scanEntries (current : string) (entries : list (string * Node))
    (files : list FileRecord) (stack : Stack) : list FileRecord * Stack :=
  match entries with
  | [] => (files, stack)
  | (ename, node) :: rest =>
      match node with
      | Dir _ _ =>
          if has IGNORED_DIRS ename then scanEntries current rest files stack
          else scanEntries current rest files ((PathOps.join current ename, node) :: stack)
      | File fsize statOk _ =>
          let fullPath := PathOps.join current ename in
          if statOk then
            scanEntries current rest
              (files ++ [{| path := fullPath; name := ename; size := fsize;
                            category := categorizeFile fullPath |}]) stack
          else scanEntries current rest files stack
      | Other => scanEntries current rest files stack
      end
  end.

(** The [while (stack.length)] loop; [None] when [fuel] iterations do
    not empty the stack. *)
Fixpoint walk (fuel : nat) (stack : Stack) (files : list FileRecord)
  : option (list FileRecord) :=
  match stack with
  | [] => Some files
  | (current, node) :: stack' =>
      match fuel with
      | O => None
      | S fuel' =>
          match readdir node with
          | None => walk fuel' stack' files
          | Some entries =>
              let '(files', stack'') := scanEntries current entries files stack' in
              walk fuel' stack'' files'
          end
      end
  end.

(** The files the walk of [scanRoot] collects.  The loop is run for as
    many iterations as the tree has nodes, which empties the stack
    ([walk_root_total] below). *)
Definition walkRoot (cfg : Config) (fs : Node) : list FileRecord :=
  default [] (walk (nodeCount fs) [(STORAGE_ROOT cfg, fs)] []).

Definition toMB (bytes : Z) : Z := Z.max 0 (Js.round_div bytes MB).

Record ScanResult := {
  lastScan : string;
  totalUsedMB : Z;
  totalReclaimableMB : Z;
  categories : list CategorySummary;
  categoryFiles : CategoryFiles
}.

Definition summaries (cf : CategoryFiles) : list CategorySummary :=
  [ {| id := cache; sname := "App Cache"; description := "Temporary app data";
       sizeMB := toMB (Z.of_N (sumSizes (cf_cache cf))) |};
    {| id := downloads; sname := "Downloads"; description := "Unsorted files";
       sizeMB := toMB (Z.of_N (sumSizes (cf_downloads cf))) |};
    {| id := duplicates; sname := "Duplicates"; description := "Exact file copies";
       sizeMB := toMB (Z.of_N (sumSizes (cf_duplicates cf))) |};
    {| id := media; sname := "Large Media"; description := "Videos and archives";
       sizeMB := toMB (Z.of_N (sumSizes (cf_media cf))) |};
    {| id := logs; sname := "Old Logs"; description := "System logs";
       sizeMB := toMB (Z.of_N (sumSizes (cf_logs cf))) |} ].

(** Everything in [scanRoot] after the walk. *)
Definition summarize (now : string) (walked : list FileRecord) : ScanResult :=
  let files := markDuplicates walked in
  let cf := collectCategories files in
  let cats := summaries cf in
  {| lastScan := now;
     totalUsedMB := toMB (Z.of_N (sumSizes files));
     totalReclaimableMB := foldl (fun s c => s + sizeMB c) 0 cats;
     categories := cats;
     categoryFiles := cf |}.

(** [scanRoot()], at a moment when [new Date().toISOString()] is [now]. *)
Definition scanRoot (cfg : Config) (now : string) (fs : Node) : ScanResult :=
  summarize now (walkRoot cfg fs).

(** [withinRoot(filePath)]. *)
Definition withinRoot (cfg : Config) (filePath : string) : bool :=
  let resolvedRoot := PathOps.resolve (cwd cfg) (STORAGE_ROOT cfg) +:+ Path.sep in
  let resolvedPath := PathOps.resolve (cwd cfg) filePath in
  Js.startsWith resolvedPath resolvedRoot.

(** *** [unlink] *)

(** Whether the directory [n], reached by the walk as [current], holds
    at the path [target] a regular file that can be unlinked. *)
Fixpoint canUnlink (target current : string) (n : Node) : bool :=
  match n with
  | Dir _ es =>
      (fix among (es : list (string * Node)) : bool :=
         match es with
         | [] => false
         | (ename, File _ _ ok) :: rest =>
             (ok && String.eqb (PathOps.join current ename) target) || among rest
         | (ename, child) :: rest =>
             canUnlink target (PathOps.join current ename) child || among rest
         end) es
  | _ => false
  end.

(** The directory [n] without that file. *)
Fixpoint removeFile (target current : string) (n : Node) : Node :=
  match n with
  | Dir r es =>
      Dir r ((fix among (es : list (string * Node)) : list (string * Node) :=
         match es with
         | [] => []
         | (ename, File sz st ok) :: rest =>
             if ok && String.eqb (PathOps.join current ename) target then among rest
             else (ename, File sz st ok) :: among rest
         | (ename, child) :: rest =>
             (ename, removeFile target (PathOps.join current ename) child) :: among rest
         end) es)
  | _ => n
  end.

(** [fs.promises.unlink(p)] on a tree whose top directory has the path
    [mount]: the tree afterwards, [None] when the call throws.  The
    tree may be the one under the root or a larger part of the disk. *)
Definition unlinkAt (mount : string) (p : string) (fs : Node) : option Node :=
  if canUnlink p mount fs then Some (removeFile p mount fs) else None.

(** The same on the tree under the root. *)
Definition unlink (cfg : Config) (p : string) (fs : Node) : option Node :=
  unlinkAt (STORAGE_ROOT cfg) p fs.

(** *** The persisted store *)

(** The content of [storage.json]: no file, text that [JSON.parse]
    rejects (or that has no readable [history] property), or a value
    whose [history] is an array ([Some]) or something else ([None]).
    The file, when it exists, can be read and written: a store on which
    [readFileSync] or [writeFileSync] throws is not among the states
    modelled (the handler would throw after its deletion loop). *)
Inductive StoreFile :=
| Absent
| Corrupt
| Stored (history : option (list HistoryEntry)).

(** [loadStore().history]. *)
Definition loadStore (sf : StoreFile) : list HistoryEntry :=
  match sf with
  | Absent => []
  | Corrupt => []
  | Stored (Some h) => h
  | Stored None => []
  end.

(** [saveStore(store)]. *)
Definition saveStore (history : list HistoryEntry) : StoreFile := Stored (Some history).

(** *** The request body *)

Definition truthy (v : Json) : bool :=
  match v with
  | JNull => false
  | JBool b => b
  | JNum n => negb (n =? 0)
  | JStr s => negb (String.eqb s "")
  | JArr _ => true
  | JObj _ => true
  end.

(** The property [key] of a parsed object; for duplicate keys the last
    one is the value. *)
Fixpoint getField (key : string) (fields : list (string * Json)) : option Json :=
  match fields with
  | [] => None
  | (k, v) :: rest =>
      match getField key rest with
      | Some v' => Some v'
      | None => if String.eqb k key then Some v else None
      end
  end.

(** [const { categories } = req.body || {}]; [None] is [undefined].  A
    falsy body is replaced by the empty object; of the truthy values
    only an object can have a [categories] property. *)
Definition bodyCategories (body : option Json) : option Json :=
  match body with
  | Some v =>
      if truthy v then
        match v with
        | JObj fields => getField "categories" fields
        | _ => None
        end
      else None
  | None => None
  end.

(** Equality of [Set] elements: primitives by value, arrays and objects
    by identity, and every parsed array or object is a fresh one. *)
Definition sameValueZero (a b : Json) : bool :=
  match a, b with
  | JNull, JNull => true
  | JBool x, JBool y => Bool.eqb x y
  | JNum x, JNum y => x =? y
  | JStr x, JStr y => String.eqb x y
  | _, _ => false
  end.

(** [new Set(items)], as the sequence its iteration yields. *)
Fixpoint newSet (items seen : list Json) : list Json :=
  match items with
  | [] => rev seen
  | v :: rest =>
      if existsb (sameValueZero v) seen then newSet rest seen
      else newSet rest (v :: seen)
  end.

(** [Array.isArray(categories) ? new Set(categories) : new Set()]. *)
Definition targetIds (body : option Json) : list Json :=
  match bodyCategories body with
  | Some (JArr items) => newSet items []
  | _ => []
  end.

Definition int_to_string (n : Z) : string := NilZero.string_of_int (Z.to_int n).

(** The property key an id is converted to in [categoryFiles[id]];
    [None] when the conversion throws a [TypeError].  An array is
    joined with commas, [null] elements giving empty strings; an object
    is "[object Object]" unless it has a [toString] property of its
    own, which a parsed value cannot call. *)
Fixpoint propertyKey (v : Json) : option string :=
  match v with
  | JNull => Some "null"
  | JBool true => Some "true"
  | JBool false => Some "false"
  | JNum n => Some (int_to_string n)
  | JStr s => Some s
  | JArr items =>
      match
        (fix each (items : list Json) : option (list string) :=
           match items with
           | [] => Some []
           | e :: rest =>
               match (match e with JNull => Some "" | _ => propertyKey e end), each rest with
               | Some part, Some parts => Some (part :: parts)
               | _, _ => None
               end
           end) items
      with
      | Some parts => Some (Js.join parts ",")
      | None => None
      end
  | JObj fields =>
      match getField "toString" fields with
      | Some _ => None
      | None => Some "[object Object]"
      end
  end.

Definition categoryOfKey (k : string) : option CategoryId :=
  if String.eqb k "cache" then Some cache
  else if String.eqb k "downloads" then Some downloads
  else if String.eqb k "duplicates" then Some duplicates
  else if String.eqb k "media" then Some media
  else if String.eqb k "logs" then Some logs
  else None.

(** The properties every object inherits from [Object.prototype]; none
    of their values is iterable. *)
Definition OBJECT_PROTOTYPE_KEYS : list string :=
  ["constructor"; "__defineGetter__"; "__defineSetter__"; "hasOwnProperty";
   "__lookupGetter__"; "__lookupSetter__"; "isPrototypeOf"; "propertyIsEnumerable";
   "toString"; "valueOf"; "__proto__"; "toLocaleString"].

(** The loop that fills [filesToClean].  Spreading an inherited
    property throws. *)
Fixpoint collectTargets (cf : CategoryFiles) (ids : list Json) (filesToClean : list FileRecord)
  : Outcome (list FileRecord) :=
  match ids with
  | [] => Answer filesToClean
  | v :: rest =>
      match propertyKey v with
      | None => TypeError
      | Some key =>
          match categoryOfKey key with
          | Some c => collectTargets cf rest (filesToClean ++ cf_get cf c)
          | None =>
              if has OBJECT_PROTOTYPE_KEYS key then TypeError
              else collectTargets cf rest filesToClean
          end
      end
  end.

(** *** [POST /api/clean] *)

Record Deleted := {
  fsAfter : Node;
  cleanedBytes : N;
  cleanedFiles : N;
  simulated : bool
}.

(** The [for (const file of filesToClean)] loop of the apply branch,
    over any file system: [unlinkOn p fs] is what [fs.promises.unlink(p)]
    does to it. *)
Section DeleteLoop.
Context {FS : Type} (unlinkOn : string -> FS -> option FS).

Fixpoint deleteLoopOn (cfg : Config) (filesToClean : list FileRecord)
    (fs : FS) (bytes count : N) : FS * N * N :=
  match filesToClean with
  | [] => (fs, bytes, count)
  | file :: rest =>
      if negb (withinRoot cfg (path file)) then deleteLoopOn cfg rest fs bytes count
      else
        match unlinkOn (path file) fs with
        | Some fs' => deleteLoopOn cfg rest fs' (bytes + size file)%N (count + 1)%N
        | None => deleteLoopOn cfg rest fs bytes count
        end
  end.

End DeleteLoop.

(** The loop on the tree under the root. *)
Definition deleteLoop (cfg : Config) (filesToClean : list FileRecord)
    (fs : Node) (bytes count : N) : Node * N * N :=
  deleteLoopOn (unlink cfg) cfg filesToClean fs bytes count.

(** The [if (ALLOW_DELETE) ... else ...] statement. *)
Definition deletePhase (cfg : Config) (filesToClean : list FileRecord) (fs : Node) : Deleted :=
  if ALLOW_DELETE cfg then
    let '(fs', bytes, count) := deleteLoop cfg filesToClean fs 0%N 0%N in
    {| fsAfter := fs'; cleanedBytes := bytes; cleanedFiles := count; simulated := false |}
  else
    {| fsAfter := fs;
       cleanedBytes := sumSizes filesToClean;
       cleanedFiles := N.of_nat (length filesToClean);
       simulated := true |}.

(** What the handler reads from the clock: [toISOString()] in the two
    scans and in the history entry, and [Date.now()]. *)
Record Times := {
  scanTime : string;
  rescanTime : string;
  nowMs : Z;
  entryTime : string
}.

(** The state the handler works on: the tree under the root and the
    store file.  The store file is kept apart from the tree: the model
    is of deployments in which [DATA_PATH] does not lie under
    [STORAGE_ROOT], as with the default root, the directory
    [sample_storage] next to the store.  With a root that contains the
    server directory (the root "/" always does) the store is one of the
    walked files and a clean changes it; of such a deployment only
    what is said about the scan, the deletion loop and the figures of
    the response applies. *)
Record World := {
  fs : Node;
  storeFile : StoreFile
}.

Record CleanResponse := {
  updatedScan : ScanResult;
  r_cleanedMB : Z;
  r_cleanedFiles : N;
  r_simulated : bool;
  r_history : list HistoryEntry
}.

Definition historyEntry (t : Times) (d : Deleted) (ids : list Json) : HistoryEntry :=
  {| hid := "clean_" +:+ int_to_string (nowMs t);
     htime := entryTime t;
     cleanedMB := toMB (Z.of_N (cleanedBytes d));
     hcleanedFiles := cleanedFiles d;
     hcategories := ids;
     hsimulated := simulated d |}.

(** The handler of [POST /api/clean] for the request body [body]
    ([None]: no body). *)
Definition clean (cfg : Config) (t : Times) (body : option Json) (w : World)
  : Outcome CleanResponse * World :=
  let ids := targetIds body in
  let scan := scanRoot cfg (scanTime t) (fs w) in
  match collectTargets (categoryFiles scan) ids [] with
  | TypeError => (TypeError, w)
  | Answer filesToClean =>
      let d := deletePhase cfg filesToClean (fs w) in
      let updated := scanRoot cfg (rescanTime t) (fsAfter d) in
      let history := take 10 (historyEntry t d ids :: loadStore (storeFile w)) in
      (Answer {| updatedScan := updated;
                 r_cleanedMB := toMB (Z.of_N (cleanedBytes d));
                 r_cleanedFiles := cleanedFiles d;
                 r_simulated := simulated d;
                 r_history := history |},
       {| fs := fsAfter d; storeFile := saveStore history |})
  end.

(** [GET /api/history]. *)
Definition getHistory (w : World) : list HistoryEntry := loadStore (storeFile w).

End Server.

(** ** The client *)

Module Client.

Definition MAX_SCAN_FILES : nat := 1500.

(** What [expo-file-system] reports below the granted folder.
    [Unavailable]: [getInfoAsync] throws or reports that nothing exists;
    a file carries [info.size] when it is present and whether
    [deleteAsync] succeeds on it; a directory carries the child URIs
    that [readDirectoryAsync] returns, [None] when it throws. *)
Inductive SafNode :=
| Unavailable
| SafFile (fsize : option N) (deletable : bool)
| SafDir (children : option (list (string * SafNode))).

Section WithDecoder.

(** [decodeURIComponent]; [None] when it throws. *)
Variable decodeURIComponent : string -> option string.

(** [guessNameFromUri(uri)]. *)
Definition guessNameFromUri (uri : string) : string :=
  let popped := default "" (last (Js.split uri Path.slash)) in
  let last := if negb (String.eqb popped "") then popped else uri in
  match decodeURIComponent last with
  | Some decoded => decoded
  | None => last
  end.

(** [scanSafTree(uri, files)]; the array [files] is threaded through. *)
Fixpoint scanSafTree (uri : string) (node : SafNode) (files : list FileRecord)
  : list FileRecord :=
  if (MAX_SCAN_FILES <=? length files)%nat then files
  else
    match node with
    | Unavailable => files
    | SafDir None => files
    | SafDir (Some children) =>
        (fix each (cs : list (string * SafNode)) (files : list FileRecord)
           : list FileRecord :=
           match cs with
           | [] => files
           | (child, cnode) :: rest =>
               if (MAX_SCAN_FILES <=? length files)%nat then files
               else each rest (scanSafTree child cnode files)
           end) children files
    | SafFile fsize _ =>
        let fname := guessNameFromUri uri in
        files ++ [{| path := uri; name := fname; size := default 0%N fsize;
                     category := categorizeName fname uri |}]
    end.

Record Summary := {
  list_ : list CategorySummary;
  categories : CategoryFiles;
  totalUsedMB : Z;
  totalReclaimableMB : Z
}.

(** [Math.round(bytes / (1024 * 1024))]. *)
Definition roundMB (bytes : Z) : Z := Js.round_div bytes (1024 * 1024).

(** The inner [summarize(id, name, description)]. *)
Definition summarize (cf : CategoryFiles) (c : CategoryId) (nm descr : string)
  : CategorySummary :=
  {| id := c; sname := nm; description := descr;
     sizeMB := roundMB (Z.of_N (sumSizes (cf_get cf c))) |}.

(** [buildCategories(files)]. *)
Definition buildCategories (walked : list FileRecord) : Summary :=
  let files := markDuplicates walked in
  let cf := collectCategories files in
  let l :=
    [ summarize cf cache "App Cache" "Temporary app data";
      summarize cf downloads "Downloads" "Unsorted files";
      summarize cf duplicates "Duplicates" "Exact file copies";
      summarize cf media "Large Media" "Videos and archives";
      summarize cf logs "Old Logs" "System logs" ] in
  {| list_ := l;
     categories := cf;
     totalUsedMB := roundMB (Z.of_N (sumSizes files));
     totalReclaimableMB := foldl (fun s c => s + sizeMB c) 0 l |}.

(** What [scanDeviceStorage] puts on the screen: the summary and the
    [scanLimitReached] flag. *)
Definition scanDeviceStorage (uri : string) (root : SafNode) : Summary * bool :=
  let files := scanSafTree uri root [] in
  let limitReached := (MAX_SCAN_FILES <=? length files)%nat in
  (buildCategories files, limitReached).

(** *** [runDeviceClean] *)

(** The item under [HISTORY_KEY] in [AsyncStorage]. *)
Inductive LocalItem :=
| NoItem
| Unreadable
| Item (history : option (list HistoryEntry)).

(** [loadLocalHistory()]. *)
Definition loadLocalHistory (it : LocalItem) : list HistoryEntry :=
  match it with
  | Item (Some h) => h
  | _ => []
  end.

(** [saveLocalHistory(history)]; [writable] tells whether [setItem]
    succeeds. *)
Definition saveLocalHistory (writable : bool) (history : list HistoryEntry) (it : LocalItem)
  : LocalItem :=
  if writable then Item (Some history) else it.

(** Whether the tree holds at [target] a file that can be deleted, and
    the tree without it. *)
Fixpoint canDelete (target uri : string) (n : SafNode) : bool :=
  match n with
  | SafFile _ ok => ok && String.eqb uri target
  | SafDir (Some cs) =>
      (fix among (cs : list (string * SafNode)) : bool :=
         match cs with
         | [] => false
         | (child, cnode) :: rest => canDelete target child cnode || among rest
         end) cs
  | _ => false
  end.

Fixpoint present (target uri : string) (n : SafNode) : bool :=
  match n with
  | SafFile _ _ => String.eqb uri target
  | SafDir (Some cs) =>
      (fix among (cs : list (string * SafNode)) : bool :=
         match cs with
         | [] => false
         | (child, cnode) :: rest => present target child cnode || among rest
         end) cs
  | _ => false
  end.

Fixpoint removeUri (target uri : string) (n : SafNode) : SafNode :=
  match n with
  | SafFile sz ok => if ok && String.eqb uri target then Unavailable else n
  | SafDir (Some cs) =>
      SafDir (Some ((fix among (cs : list (string * SafNode)) : list (string * SafNode) :=
         match cs with
         | [] => []
         | (child, cnode) :: rest => (child, removeUri target child cnode) :: among rest
         end) cs))
  | _ => n
  end.

(** [FileSystem.deleteAsync(uri, { idempotent: true })]: it succeeds on
    a file that can be deleted and on a URI that names nothing. *)
Definition deleteAsync (rootUri target : string) (root : SafNode) : option SafNode :=
  if canDelete target rootUri root then Some (removeUri target rootUri root)
  else if present target rootUri root then None
  else Some root.

Fixpoint deleteLoop (rootUri : string) (targetFiles : list FileRecord)
    (root : SafNode) (bytes count : N) : SafNode * N * N :=
  match targetFiles with
  | [] => (root, bytes, count)
  | file :: rest =>
      match deleteAsync rootUri (path file) root with
      | Some root' => deleteLoop rootUri rest root' (bytes + size file)%N (count + 1)%N
      | None => deleteLoop rootUri rest root bytes count
      end
  end.

(** [summary.categories[id]] for each selected id, spread into
    [targetFiles]; an id that is not one of the five keys yields
    something that cannot be spread. *)
Fixpoint collectTargets (cf : CategoryFiles) (selectedIds : list string)
    (targetFiles : list FileRecord) : Outcome (list FileRecord) :=
  match selectedIds with
  | [] => Answer targetFiles
  | k :: rest =>
      match Server.categoryOfKey k with
      | Some c => collectTargets cf rest (targetFiles ++ cf_get cf c)
      | None => TypeError
      end
  end.

Record Device := {
  root : SafNode;
  item : LocalItem
}.

(** The value passed to [setData]. *)
Record Data := {
  d_totalUsedMB : Z;
  d_totalReclaimableMB : Z;
  d_categories : list CategorySummary;
  d_history : list HistoryEntry
}.

(** [runDeviceClean()] for a connected folder [directoryUri], at
    [Date.now() = nowMs] and [toISOString() = time].  An exception
    inside the [try] block is caught: nothing was deleted yet and
    nothing is recorded. *)
Definition runDeviceClean (directoryUri : string) (selectedIds : list string)
    (nowMs : Z) (time : string) (writable : bool) (dev : Device)
  : Outcome Data * Device :=
  let summary := buildCategories (scanSafTree directoryUri (root dev) []) in
  match collectTargets (categories summary) selectedIds [] with
  | TypeError => (TypeError, dev)
  | Answer targetFiles =>
      let '(root', cleanedBytes, cleanedFiles) :=
        deleteLoop directoryUri targetFiles (root dev) 0%N 0%N in
      let updatedSummary := buildCategories (scanSafTree directoryUri root' []) in
      let history := loadLocalHistory (item dev) in
      let entry :=
        {| hid := "clean_" +:+ Server.int_to_string nowMs;
           htime := time;
           cleanedMB := roundMB (Z.of_N cleanedBytes);
           hcleanedFiles := cleanedFiles;
           hcategories := map JStr selectedIds;
           hsimulated := false |} in
      let nextHistory := take 10 (entry :: history) in
      (Answer {| d_totalUsedMB := totalUsedMB updatedSummary;
                        d_totalReclaimableMB := totalReclaimableMB updatedSummary;
                        d_categories := list_ updatedSummary;
                        d_history := nextHistory |},
       {| root := root'; item := saveLocalHistory writable nextHistory (item dev) |})
  end.

End WithDecoder.

End Client.

(** ** Runs of clean requests *)

Module Runs.
Import Server.





(** The entry a request records: the head of the history it answers
    with. *)
Definition recorded (cfg : Config) (t : Times) (body : option Json) (w : World)
  : list HistoryEntry :=
  match fst (clean cfg t body w) with
  | Answer r => take 1 (r_history r)
  | TypeError => []
  end.


End Runs.

(** ** Reference notions used in the statements *)

Definition isDir (n : Server.Node) : bool :=
  match n with
  | Server.Dir _ _ => true
  | _ => false
  end.

(** The ignored directories removed from a tree, at every depth. *)
Fixpoint strip (n : Server.Node) : Server.Node :=
  match n with
  | Server.Dir r es =>
      Server.Dir r ((fix among (es : list (string * Server.Node)) :=
         match es with
         | [] => []
         | (ename, child) :: rest =>
             if isDir child && has Server.IGNORED_DIRS ename then among rest
             else (ename, strip child) :: among rest
         end) es)
  | _ => n
  end.

(** Whether the tree walked from [current] holds a regular file at the
    path [target]. *)
Fixpoint hasFile (target current : string) (n : Server.Node) : bool :=
  match n with
  | Server.Dir _ es =>
      (fix among (es : list (string * Server.Node)) : bool :=
         match es with
         | [] => false
         | (ename, Server.File _ _ _) :: rest =>
             String.eqb (PathOps.join current ename) target || among rest
         | (ename, child) :: rest =>
             hasFile target (PathOps.join current ename) child || among rest
         end) es
  | _ => false
  end.

(** The client walk without its cap. *)
Fixpoint walkAll (decode : string -> option string) (uri : string) (node : Client.SafNode)
  : list FileRecord :=
  match node with
  | Client.Unavailable => []
  | Client.SafDir None => []
  | Client.SafDir (Some children) =>
      (fix each (cs : list (string * Client.SafNode)) : list FileRecord :=
         match cs with
         | [] => []
         | (child, cnode) :: rest => walkAll decode child cnode ++ each rest
         end) children
  | Client.SafFile fsize _ =>
      let fname := Client.guessNameFromUri decode uri in
      [{| path := uri; name := fname; size := default 0%N fsize;
          category := categorizeName fname uri |}]
  end.

(** The categorizer as the rules are worded: the extension is the text
    after the last "." of the path. *)
Definition textAfterLastDot (p : string) : option string :=
  let i := Js.lastIndexOf p Path.dot in
  if i <? 0 then None else Some (Js.slice_from p (i + 1)).

Definition MEDIA_WORDS : list string :=
  ["mp4"; "mov"; "mkv"; "avi"; "zip"; "rar"; "7z"; "tar"; "gz"; "iso"].

Definition categorize_as_worded (p : string) : option CategoryId :=
  let lower := Js.toLowerCase p in
  if Js.includes lower "/cache/" || Js.includes lower "/tmp/" then Some cache
  else if Js.includes lower "/downloads/" then Some downloads
  else
    match textAfterLastDot lower with
    | Some ext =>
        if has MEDIA_WORDS ext then Some media
        else if String.eqb ext "log" then Some logs
        else None
    | None => None
    end.

(** The files of the end-to-end scenario. *)
Definition tenMB : N := 10485760.
Definition fiftyMB : N := 52428800.

Definition scenarioEntries : list (string * Server.Node) :=
  [ ("logs", Server.Dir true [("a.log", Server.File tenMB true true)]);
    ("b.mp4", Server.File fiftyMB true true);
    ("c.mp4", Server.File fiftyMB true true);
    ("d", Server.Dir true [("c.mp4", Server.File fiftyMB true true)]) ].

Definition scenarioFlatEntries : list (string * Server.Node) :=
  [ ("a.log", Server.File tenMB true true);
    ("b.mp4", Server.File fiftyMB true true);
    ("c.mp4", Server.File fiftyMB true true);
    ("d", Server.Dir true [("c.mp4", Server.File fiftyMB true true)]) ].

Definition scenarioConfig : Server.Config :=
  {| Server.STORAGE_ROOT := "/srv/storage"; Server.ALLOW_DELETE := false;
     Server.cwd := "/srv" |}.

Definition sizeOf (snap : Server.ScanResult) (c : CategoryId) : list Z :=
  map sizeMB (filter (fun s => id s = c) (Server.categories snap)).

(** Bookkeeping for the walk: the number of nodes on the stack, and
    [strip] on the entries of a directory and on a stack. *)
Definition stackCount (stack : Server.Stack) : nat :=
  list_sum (map (fun e => Server.nodeCount e.2) stack).

Definition stripEntries (es : list (string * Server.Node)) : list (string * Server.Node) :=
  match strip (Server.Dir true es) with
  | Server.Dir _ es' => es'
  | _ => []
  end.

Definition stripStack (stack : Server.Stack) : Server.Stack :=
  map (fun e => (e.1, strip e.2)) stack.

(** A directory of [n] regular files of one byte. *)
Definition flatDir (n : nat) : Server.Node :=
  Server.Dir true
    (map (fun i => (Js.num_to_string (N.of_nat i), Server.File 1 true true)) (seq 0 n)).

(** [decodeURIComponent] on strings without escapes. *)
Definition decodeId (s : string) : option string := Some s.

(** A granted folder that holds a [node_modules] directory with one
    file in it. *)
Definition safIgnoredTree : Client.SafNode :=
  Client.SafDir (Some
    [("content://documents/tree/proj/document/proj%2Fnode_modules",
      Client.SafDir (Some
        [("content://documents/tree/proj/document/proj%2Fnode_modules%2Fx.log",
          Client.SafFile (Some 5%N) true)]))]).

(** The separator of the duplicate key. *)
Definition colon : ascii := ":"%char.

(** Reading the duplicate map: the group stored under a key, the
    positions of the files with a given key, and the positions whose
    category the marking loops overwrite. *)
Fixpoint lookupGroup (k : string) (m : DuplicateMap) : list nat :=
  match m with
  | [] => []
  | (k', g) :: rest => if String.eqb k' k then g else lookupGroup k rest
  end.

Fixpoint positionsOf (k : string) (i : nat) (files : list FileRecord) : list nat :=
  match files with
  | [] => []
  | f :: rest =>
      (if String.eqb (keyOf f) k then [i] else []) ++ positionsOf k (S i) rest
  end.

Definition markedPositions (m : DuplicateMap) : list nat :=
  flat_map (fun kg => tail kg.2) m.

Definition markAll (files : list FileRecord) (positions : list nat) : list FileRecord :=
  foldl (fun fs i => alter (setCategory duplicates) i fs) files positions.

(** Whether a file with the name and size of [f] occurs in [before]. *)
Definition sameNameSize (f g : FileRecord) : bool :=
  String.eqb (name g) (name f) && N.eqb (size g) (size f).

Definition hasEarlierCopy (before : list FileRecord) (f : FileRecord) : bool :=
  existsb (sameNameSize f) before.

(** [hasFile] and [removeFile] on the entries of a directory. *)
Definition hasFileIn (target current : string) (es : list (string * Server.Node)) : bool :=
  hasFile target current (Server.Dir true es).

Definition removeEntries (target current : string) (es : list (string * Server.Node))
  : list (string * Server.Node) :=
  match Server.removeFile target current (Server.Dir true es) with
  | Server.Dir _ es' => es'
  | _ => []
  end.

(** The candidates that pass the containment check. *)
Definition insideRoot (cfg : Server.Config) (files : list FileRecord) : list FileRecord :=
  filter (fun f => Server.withinRoot cfg (path f) = true) files.

(** What the scenario comes to when scanned. *)
Definition scenarioAsScanned (snap : Server.ScanResult) : Prop :=
  sizeOf snap logs = [10] /\
  sizeOf snap media = [100] /\
  sizeOf snap duplicates = [50] /\
  sizeOf snap cache = [0] /\
  sizeOf snap downloads = [0] /\
  Server.totalUsedMB snap = 160 /\
  Server.totalReclaimableMB snap = 160.

#[global] Instance scenarioAsScanned_dec snap : Decision (scenarioAsScanned snap).
Proof. unfold scenarioAsScanned. apply _. Defined.

Definition scansAs (es : list (string * Server.Node)) : bool :=
  bool_decide (scenarioAsScanned (Server.scanRoot scenarioConfig "" (Server.Dir true es))).

(** Shapes of path strings used to state what [extname] returns. *)
Definition noSlash (s : string) : Prop :=
  Forall (fun c => c <> Path.slash) (Js.chars s).

Definition plain (s : string) : Prop :=
  Forall (fun c => c <> Path.slash /\ c <> Path.dot) (Js.chars s).

(** [pre] is empty or ends with a separator: what follows it starts a
    path segment. *)
Definition segmentStart (pre : string) : Prop :=
  pre = "" \/ exists dir, pre = dir +:+ "/".

(** [preDotState] after the scan has passed the characters [l] to the
    left of the last dot. *)
Fixpoint preDotAfter (l : list ascii) (pd : Z) : Z :=
  match l with
  | [] => pd
  | c :: l' => preDotAfter l' (if Ascii.eqb c Path.dot then 1 else -1)
  end.

(** The files of the scenario as (name, path) pairs. *)
Definition scenarioCorpus : list (string * string) :=
  [ ("a.log", "/srv/storage/logs/a.log");
    ("a.log", "/srv/storage/a.log");
    ("b.mp4", "/srv/storage/b.mp4");
    ("c.mp4", "/srv/storage/c.mp4");
    ("c.mp4", "/srv/storage/d/c.mp4") ].

(** ** The walk of [scanRoot] in closed form *)

(** The record [scanRoot] pushes for a regular file. *)
Definition recordOf (current ename : string) (fsize : N) : FileRecord :=
  {| path := PathOps.join current ename; name := ename; size := fsize;
     category := categorizeFile (PathOps.join current ename) |}.

(** The records of the regular files listed in a directory, in listing
    order. *)
Fixpoint directFiles (current : string) (es : list (string * Server.Node))
  : list FileRecord :=
  match es with
  | [] => []
  | (ename, Server.File fsize true _) :: rest =>
      recordOf current ename fsize :: directFiles current rest
  | _ :: rest => directFiles current rest
  end.

(** The directories a listing pushes on the stack, in listing order. *)
Fixpoint subdirs (current : string) (es : list (string * Server.Node)) : Server.Stack :=
  match es with
  | [] => []
  | (ename, Server.Dir r es') :: rest =>
      if has Server.IGNORED_DIRS ename then subdirs current rest
      else (PathOps.join current ename, Server.Dir r es') :: subdirs current rest
  | _ :: rest => subdirs current rest
  end.

(** The records a directory contributes: those of its own files, then
    those of its subdirectories, the last listed first. *)
Fixpoint emittedBy (current : string) (n : Server.Node) : list FileRecord :=
  match n with
  | Server.Dir true es =>
      directFiles current es ++
      (fix below (es : list (string * Server.Node)) : list FileRecord :=
         match es with
         | [] => []
         | (ename, child) :: rest =>
             below rest ++
             (if isDir child && negb (has Server.IGNORED_DIRS ename)
              then emittedBy (PathOps.join current ename) child else [])
         end) es
  | _ => []
  end.

Fixpoint emittedBelow (current : string) (es : list (string * Server.Node))
  : list FileRecord :=
  match es with
  | [] => []
  | (ename, child) :: rest =>
      emittedBelow current rest ++
      (if isDir child && negb (has Server.IGNORED_DIRS ename)
       then emittedBy (PathOps.join current ename) child else [])
  end.

Definition emittedByStack (stack : Server.Stack) : list FileRecord :=
  flat_map (fun e => emittedBy e.1 e.2) stack.

(** The bytes of the files in the five lists of a snapshot. *)
Definition reclaimableBytes (cf : CategoryFiles) : N :=
  (sumSizes (cf_cache cf) + sumSizes (cf_downloads cf) + sumSizes (cf_duplicates cf) +
   sumSizes (cf_media cf) + sumSizes (cf_logs cf))%N.

(** ** Reading a selection *)

(** Whether looking an id up in [categoryFiles] and spreading the result
    throws, and the files the id contributes when it does not. *)
Definition throwsOn (v : Json) : bool :=
  match Server.propertyKey v with
  | None => true
  | Some k =>
      match Server.categoryOfKey k with
      | Some _ => false
      | None => has Server.OBJECT_PROTOTYPE_KEYS k
      end
  end.

Definition contribution (cf : CategoryFiles) (v : Json) : list FileRecord :=
  match Server.propertyKey v with
  | Some k =>
      match Server.categoryOfKey k with
      | Some c => cf_get cf c
      | None => []
      end
  | None => []
  end.

(** The id of a category as the snapshot spells it. *)
Definition keyName (c : CategoryId) : string :=
  match c with
  | cache => "cache"
  | downloads => "downloads"
  | duplicates => "duplicates"
  | media => "media"
  | logs => "logs"
  end.

(** A request body [{ categories: items }]. *)
Definition selecting (items : list Json) : option Json :=
  Some (JObj [("categories", JArr items)]).

(** ** Reference notions for deletion *)

(** The tree without its regular files: directories, with what they
    hold besides files, and the entries of other kinds. *)
Fixpoint withoutFiles (n : Server.Node) : Server.Node :=
  match n with
  | Server.Dir r es =>
      Server.Dir r ((fix among (es : list (string * Server.Node)) :=
         match es with
         | [] => []
         | (ename, Server.File _ _ _) :: rest => among rest
         | (ename, child) :: rest => (ename, withoutFiles child) :: among rest
         end) es)
  | _ => n
  end.

Definition withoutFilesIn (es : list (string * Server.Node)) : list (string * Server.Node) :=
  match withoutFiles (Server.Dir true es) with
  | Server.Dir _ es' => es'
  | _ => []
  end.

(** Every regular file of the tree can be unlinked. *)
Fixpoint allDeletable (n : Server.Node) : bool :=
  match n with
  | Server.File _ _ ok => ok
  | Server.Dir _ es =>
      (fix among (es : list (string * Server.Node)) : bool :=
         match es with
         | [] => true
         | (_, child) :: rest => allDeletable child && among rest
         end) es
  | Server.Other => true
  end.

Definition allDeletableIn (es : list (string * Server.Node)) : bool :=
  allDeletable (Server.Dir true es).

Definition canUnlinkIn (target current : string) (es : list (string * Server.Node)) : bool :=
  Server.canUnlink target current (Server.Dir true es).

(** The tree after unlinking the paths of [files] one after the other. *)
Definition removeAll (cfg : Server.Config) (files : list FileRecord) (fs : Server.Node)
  : Server.Node :=
  foldl (fun fs f => Server.removeFile (path f) (Server.STORAGE_ROOT cfg) fs) fs files.

(** ** The screen state of [App] *)

Module App.

(** The [selected] object: its own keys in insertion order (the order
    [Object.keys] gives for keys that are not array indices).  The keys
    are the ids of the categories shown; the model is of data whose
    ids are the five category names, which is what [scanRoot],
    [buildCategories] and [fallbackData] put there.  A response with
    other ids would give other keys. *)
Abbreviation Selected := (list (CategoryId * bool)).

(** [selected[id]] read as a condition; a missing key is [undefined]. *)
Fixpoint get (sel : Selected) (c : CategoryId) : bool :=
  match sel with
  | [] => false
  | (k, v) :: rest => if bool_decide (k = c) then v else get rest c
  end.

(** [obj[id] = v]: an existing key keeps its place, a new one is added
    last. *)
Fixpoint setKey (c : CategoryId) (v : bool) (sel : Selected) : Selected :=
  match sel with
  | [] => [(c, v)]
  | (k, w) :: rest =>
      if bool_decide (k = c) then (k, v) :: rest else (k, w) :: setKey c v rest
  end.

(** [const next = {}; categories.forEach((c) => { next[c.id] = v })]. *)
Definition setEach (cats : list CategorySummary) (v : bool) : Selected :=
  foldl (fun next c => setKey (id c) v next) [] cats.

(** The keys that [Object.keys(selected).filter((id) => selected[id])]
    keeps, and [selectedIds], their spelling. *)
Definition selectedKeys (sel : Selected) : list CategoryId :=
  map fst (filter (fun kv => snd kv = true) sel).

Definition selectedIds (sel : Selected) : list string := map keyName (selectedKeys sel).

Definition sumMB (cats : list CategorySummary) : Z :=
  foldl (fun sum c => sum + sizeMB c) 0 cats.

(** [selectedMB]. *)
Definition selectedMB (data : option Client.Data) (sel : Selected) : Z :=
  match data with
  | None => 0
  | Some d => sumMB (filter (fun c => get sel (id c) = true) (Client.d_categories d))
  end.

(** [toggleAll()], as the next [selected]. *)
Definition toggleAll (data : option Client.Data) (sel : Selected) : Selected :=
  match data with
  | None => sel
  | Some d =>
      let allSelected := forallb (fun c => get sel (id c)) (Client.d_categories d) in
      setEach (Client.d_categories d) (negb allSelected)
  end.

(** The [catch] branch of [runClean]: the update passed to [setData]. *)
Definition simulateLocally (sel : Selected) (prev : option Client.Data) : option Client.Data :=
  match prev with
  | None => None
  | Some d =>
      let cats :=
        map (fun c =>
               if get sel (id c)
               then {| id := id c; sname := sname c; description := description c;
                       sizeMB := 0 |}
               else c) (Client.d_categories d) in
      Some {| Client.d_totalUsedMB := Client.d_totalUsedMB d;
              Client.d_totalReclaimableMB := sumMB cats;
              Client.d_categories := cats;
              Client.d_history := Client.d_history d |}
  end.

(** [historyItems]. *)
Definition historyItems (data : option Client.Data) : list HistoryEntry :=
  match data with
  | Some d => take 5 (Client.d_history d)
  | None => []
  end.

Record State := {
  data : option Client.Data;
  selected : Selected
}.

(** What changes [data] and [selected]: a finished load or device scan
    (which selects every category shown), a [setData] that leaves the
    selection alone (the answer of a clean, the history load of device
    mode), a server clean that failed, the select-all button, and the
    switch of the [row]-th category on screen. *)
Inductive Event :=
| Loaded (d : Client.Data)
| Cleaned (d : Client.Data)
| CleanFailed
| ToggleAll
| Switched (row : nat) (value : bool).

Definition step (st : State) (e : Event) : State :=
  match e with
  | Loaded d => {| data := Some d; selected := setEach (Client.d_categories d) true |}
  | Cleaned d => {| data := Some d; selected := selected st |}
  | CleanFailed =>
      {| data := simulateLocally (selected st) (data st); selected := selected st |}
  | ToggleAll => {| data := data st; selected := toggleAll (data st) (selected st) |}
  | Switched row value =>
      match data st with
      | Some d =>
          match Client.d_categories d !! row with
          | Some cat => {| data := data st; selected := setKey (id cat) value (selected st) |}
          | None => st
          end
      | None => st
      end
  end.

(** The state after a sequence of events, from the initial
    [useState(null)] and [useState({})]. *)
Definition run (events : list Event) : State :=
  foldl step {| data := None; selected := [] |} events.

End App.

(** [fallbackData], without its [lastScan] stamp. *)
Definition fallbackData : Client.Data :=
  {| Client.d_totalUsedMB := 11600;
     Client.d_totalReclaimableMB := 4460;
     Client.d_categories :=
       [ {| id := cache; sname := "App Cache"; description := "Temporary app data";
            sizeMB := 1240 |};
         {| id := downloads; sname := "Downloads"; description := "Unsorted files";
            sizeMB := 860 |};
         {| id := duplicates; sname := "Duplicates"; description := "Exact file copies";
            sizeMB := 430 |};
         {| id := media; sname := "Large Media"; description := "Videos and archives";
            sizeMB := 1720 |};
         {| id := logs; sname := "Old Logs"; description := "System logs";
            sizeMB := 210 |} ];
     Client.d_history := [] |}.

(** ** Reference notions for paths *)

(** A name as [readdir] gives it: not empty, not "." or "..", without
    a separator. *)
Definition entryName (s : string) : bool :=
  negb (String.eqb s "") && negb (String.eqb s ".") && negb (String.eqb s "..") &&
  forallb (fun c => negb (Ascii.eqb c Path.slash)) (Js.chars s).

(** The absolute path with the segments [segs], each after a
    separator. *)
Definition absPath (segs : list string) : string :=
  foldr (fun s rest => "/" +:+ s +:+ rest) "" segs.

(** Every entry of the tree has such a name. *)
Fixpoint properNames (n : Server.Node) : bool :=
  match n with
  | Server.Dir _ es =>
      (fix each (es : list (string * Server.Node)) : bool :=
         match es with
         | [] => true
         | (ename, child) :: rest => entryName ename && properNames child && each rest
         end) es
  | _ => true
  end.

Definition properNamesIn (es : list (string * Server.Node)) : bool :=
  forallb (fun e => entryName e.1 && properNames e.2) es.

(** The path of the directory reached from "/" through [segs]. *)
Definition dirPath (segs : list string) : string :=
  match segs with
  | [] => "/"
  | _ => absPath segs
  end.

(** A path that lies [names] below that directory. *)
Definition liesBelow (segs : list string) (p : string) : Prop :=
  exists names, names <> [] /\ forallb entryName names = true /\ p = absPath (segs ++ names).

(** ** Reference notions for the device tree *)

(** Whether a listing holds a file at the URI [target], and the listing
    after that URI was deleted. *)
Definition presentIn (target : string) (cs : list (string * Client.SafNode)) : bool :=
  existsb (fun c => Client.present target c.1 c.2) cs.

Definition removeUriIn (target : string) (cs : list (string * Client.SafNode))
  : list (string * Client.SafNode) :=
  map (fun c => (c.1, Client.removeUri target c.1 c.2)) cs.

(** * Properties *)

(** ** Strings *)

Lemma startsWith_iff hay needle :
  Js.startsWith hay needle = true <-> exists rest, hay = needle +:+ rest.
Proof.
  unfold Js.startsWith. revert hay.
  induction needle as [|c needle IH]; intros hay; simpl.
  - destruct hay; split; eauto.
  - destruct hay as [|d hay]; simpl.
    + split; [discriminate | intros [rest H]; discriminate].
    + destruct (ascii_dec c d) as [->|Hne].
      * rewrite IH. split; intros [rest H]; exists rest.
        -- by rewrite H.
        -- by injection H.
      * split; [discriminate | intros [rest H]; injection H; congruence].
Qed.

Lemma round_div_nonneg n d : 0 <= n -> 0 < d -> 0 <= Js.round_div n d.
Proof. intros Hn Hd. unfold Js.round_div. apply Z.div_pos; lia. Qed.

(** ** Marking duplicates leaves everything but the category alone *)

Section MarkPreserves.
Context {B : Type} (proj : FileRecord -> B).
Hypothesis proj_setCategory : forall c f, proj (setCategory c f) = proj f.

Lemma alter_setCategory_proj (files : list FileRecord) i :
  map proj (alter (setCategory duplicates) i files) = map proj files.
Proof.
  revert i. induction files as [|f files IH]; intros [|i]; simpl; try done.
  - by rewrite proj_setCategory.
  - f_equal. apply IH.
Qed.

Lemma markGroup_proj (files : list FileRecord) g :
  map proj (markGroup files g) = map proj files.
Proof.
  unfold markGroup. destruct (1 <? length g)%nat; [|done].
  generalize (tail g). intros l. revert files.
  induction l as [|i l IH]; intros files; simpl; [done|].
  rewrite IH. apply alter_setCategory_proj.
Qed.

Lemma markGroups_proj (m : DuplicateMap) (files : list FileRecord) :
  map proj (foldl (fun fs kg => markGroup fs (snd kg)) files m) = map proj files.
Proof.
  revert files. induction m as [|kg m IH]; intros files; simpl; [done|].
  rewrite IH. apply markGroup_proj.
Qed.

Lemma markDuplicates_proj (files : list FileRecord) :
  map proj (markDuplicates files) = map proj files.
Proof. apply markGroups_proj. Qed.

End MarkPreserves.

Lemma sumSizes_from (files : list FileRecord) (acc : N) :
  foldl (fun s f => (s + size f)%N) acc files = (acc + sumSizes files)%N.
Proof.
  unfold sumSizes. revert acc.
  induction files as [|f files IH]; intros acc; simpl; [lia|].
  rewrite IH, (IH (0 + size f)%N). lia.
Qed.

Lemma sumSizes_map (files : list FileRecord) :
  sumSizes files = foldr N.add 0%N (map size files).
Proof.
  induction files as [|f files IH]; [done|].
  unfold sumSizes in *. simpl. rewrite sumSizes_from. unfold sumSizes. rewrite IH. lia.
Qed.

Lemma sumSizes_markDuplicates (files : list FileRecord) :
  sumSizes (markDuplicates files) = sumSizes files.
Proof. rewrite !sumSizes_map. by rewrite (markDuplicates_proj size). Qed.

Lemma length_markDuplicates (files : list FileRecord) :
  length (markDuplicates files) = length files.
Proof.
  rewrite <- (length_map size (markDuplicates files)), <- (length_map size files).
  by rewrite (markDuplicates_proj size).
Qed.

(** ** The summarizer *)

Lemma toMB_of_N (n : N) : Server.toMB (Z.of_N n) = Js.round_div (Z.of_N n) 1048576.
Proof.
  unfold Server.toMB, MB. change (1024 * 1024) with 1048576.
  pose proof (round_div_nonneg (Z.of_N n) 1048576). lia.
Qed.

Lemma rounding_drift_example :
  let walked :=
    [ {| path := "/r/a.log"; name := "a.log"; size := 524288; category := Some logs |};
      {| path := "/r/b.mp4"; name := "b.mp4"; size := 524288; category := Some media |} ] in
  Server.totalReclaimableMB (Server.summarize "" walked) = 2 /\
  Server.toMB (Z.of_N (sumSizes walked)) = 1.
Proof. split; reflexivity. Qed.

Lemma round_div_MB (b : Z) : Js.round_div b 1048576 = (2 * b + 1048576) / 2097152.
Proof. reflexivity. Qed.

Lemma cf_get_collect (files : list FileRecord) (c : CategoryId) :
  cf_get (collectCategories files) c = filter (fun f => category f = Some c) files.
Proof.
  assert (H : forall c', filter (fun f => hasCategory c' f = true) files =
                         filter (fun f => category f = Some c') files).
  { intros c'. apply list_filter_iff. intros f. unfold hasCategory.
    destruct (category f) as [k|]; [|done].
    rewrite bool_decide_eq_true. split; congruence. }
  destruct c; cbn [cf_get collectCategories cf_cache cf_downloads cf_duplicates
                   cf_media cf_logs]; apply H.
Qed.

(** C5. In every snapshot, of the server and of the client, the
    categories are the five fixed ones in order, the list of a category
    holds the deduplicated walked files of that category, each [sizeMB]
    is the rounded byte sum of that list, [totalReclaimableMB] is the
    sum of the five [sizeMB] values, and [totalUsedMB] is
    [max 0 (round (bytes / 1048576))] of the sizes of all walked files.
    The byte sum is written out as a sum over the sizes, and
    [Math.round (b / 2^20)] as the floor of [(2 b + 2^20) / 2^21]. *)
Theorem totals_sum_rounded_categories
    (cfg : Server.Config) (now : string) (fs : Server.Node) (walked : list FileRecord) :
  let bytes (files : list FileRecord) := Z.of_N (foldr N.add 0%N (map size files)) in
  let round (b : Z) := (2 * b + 1048576) / 2097152 in
  let snap := Server.scanRoot cfg now fs in
  let summ := Client.buildCategories walked in
  (map id (Server.categories snap) = allCategories /\
   (forall c, cf_get (Server.categoryFiles snap) c =
      filter (fun f => category f = Some c) (markDuplicates (Server.walkRoot cfg fs))) /\
   Forall (fun s => sizeMB s =
      Z.max 0 (round (bytes (cf_get (Server.categoryFiles snap) (id s)))))
     (Server.categories snap) /\
   Server.totalReclaimableMB snap = foldr Z.add 0 (map sizeMB (Server.categories snap)) /\
   Server.totalUsedMB snap = Z.max 0 (round (bytes (Server.walkRoot cfg fs)))) /\
  (map id (Client.list_ summ) = allCategories /\
   (forall c, cf_get (Client.categories summ) c =
      filter (fun f => category f = Some c) (markDuplicates walked)) /\
   Forall (fun s => sizeMB s =
      Z.max 0 (round (bytes (cf_get (Client.categories summ) (id s)))))
     (Client.list_ summ) /\
   Client.totalReclaimableMB summ = foldr Z.add 0 (map sizeMB (Client.list_ summ)) /\
   Client.totalUsedMB summ = Z.max 0 (round (bytes walked))).
Proof.
  intros bytes round snap summ.
  assert (Hb : forall files, Z.of_N (sumSizes files) = bytes files).
  { intros files. subst bytes. cbv beta. by rewrite sumSizes_map. }
  assert (Hs : forall files, Server.toMB (Z.of_N (sumSizes files)) =
                             Z.max 0 (round (bytes files))).
  { intros files. unfold Server.toMB, MB. change (1024 * 1024) with 1048576.
    by rewrite round_div_MB, Hb. }
  assert (Hc : forall files, Client.roundMB (Z.of_N (sumSizes files)) =
                             Z.max 0 (round (bytes files))).
  { intros files. unfold Client.roundMB. rewrite <- toMB_of_N. apply Hs. }
  split.
  - subst snap. unfold Server.scanRoot, Server.summarize.
    cbn [Server.categories Server.categoryFiles Server.totalReclaimableMB
         Server.totalUsedMB].
    split; [done|]. split; [intros c; apply cf_get_collect|]. split.
    { unfold Server.summaries. repeat constructor; cbn [sizeMB id cf_get]; apply Hs. }
    split; [unfold Server.summaries; cbn [foldl foldr map sizeMB]; lia|].
    by rewrite sumSizes_markDuplicates.
  - subst summ. unfold Client.buildCategories.
    cbn [Client.list_ Client.categories Client.totalReclaimableMB Client.totalUsedMB].
    split; [done|]. split; [intros c; apply cf_get_collect|]. split.
    { unfold Client.summarize. repeat constructor; cbn [sizeMB id cf_get]; apply Hc. }
    split; [unfold Client.summarize; cbn [foldl foldr map sizeMB]; lia|].
    by rewrite sumSizes_markDuplicates.
Qed.

(** ** The clean handler *)


Lemma clean_of_targets cfg t body w filesToClean :
  Server.collectTargets
    (Server.categoryFiles (Server.scanRoot cfg (Server.scanTime t) (Server.fs w)))
    (Server.targetIds body) [] = Answer filesToClean ->
  let d := Server.deletePhase cfg filesToClean (Server.fs w) in
  let h := take 10 (Server.historyEntry t d (Server.targetIds body)
                      :: Server.loadStore (Server.storeFile w)) in
  Server.clean cfg t body w =
    (Answer {| Server.updatedScan := Server.scanRoot cfg (Server.rescanTime t) (Server.fsAfter d);
               Server.r_cleanedMB := Server.toMB (Z.of_N (Server.cleanedBytes d));
               Server.r_cleanedFiles := Server.cleanedFiles d;
               Server.r_simulated := Server.simulated d;
               Server.r_history := h |},
     {| Server.fs := Server.fsAfter d; Server.storeFile := Server.saveStore h |}).
Proof. intros E. unfold Server.clean. rewrite E. done. Qed.





(** C10. A request without a body, or whose [categories] is not an
    array, selects nothing: the handler answers, the tree is unchanged,
    [cleanedMB] and [cleanedFiles] are 0, and the entry put at the head
    of the ledger has an empty [categories] list. *)
Theorem non_array_selection_is_noop
    (cfg : Server.Config) (t : Server.Times) (body : option Json) (w : Server.World)
    (Hbody : forall items, Server.bodyCategories body <> Some (JArr items)) :
  Server.targetIds body = [] /\
  exists r w',
    Server.clean cfg t body w = (Answer r, w') /\
    Server.fs w' = Server.fs w /\
    Server.r_cleanedMB r = 0 /\
    Server.r_cleanedFiles r = 0%N /\
    Server.r_simulated r = negb (Server.ALLOW_DELETE cfg) /\
    Server.getHistory w' = Server.r_history r /\
    Server.r_history r =
      take 10 ({| hid := "clean_" +:+ Server.int_to_string (Server.nowMs t);
                  htime := Server.entryTime t;
                  cleanedMB := 0;
                  hcleanedFiles := 0;
                  hcategories := [];
                  hsimulated := negb (Server.ALLOW_DELETE cfg) |}
               :: Server.getHistory w).
Proof.
  assert (Hids : Server.targetIds body = []).
  { unfold Server.targetIds.
    destruct (Server.bodyCategories body) as [[| | | |items|]|] eqn:E; try done.
    by destruct (Hbody items). }
  split; [exact Hids|].
  unfold Server.clean. rewrite Hids. simpl.
  eexists _, _. split; [reflexivity|].
  unfold Server.deletePhase, Server.historyEntry, Server.getHistory.
  destruct (Server.ALLOW_DELETE cfg); simpl; done.
Qed.

Lemma non_array_selection_is_noop_witness :
  let cfg := {| Server.STORAGE_ROOT := "/srv/storage"; Server.ALLOW_DELETE := true;
                Server.cwd := "/srv" |} in
  let t := {| Server.scanTime := "t0"; Server.rescanTime := "t1"; Server.nowMs := 1700000000000;
              Server.entryTime := "t2" |} in
  let w := {| Server.fs := Server.Dir true scenarioEntries; Server.storeFile := Server.Corrupt |} in
  Server.targetIds (Some (JObj [("categories", JStr "logs")])) = [] /\
  exists r w',
    Server.clean cfg t (Some (JObj [("categories", JStr "logs")])) w = (Answer r, w') /\
    Server.fs w' = Server.fs w /\ Server.r_cleanedMB r = 0 /\ Server.r_cleanedFiles r = 0%N /\
    length (Server.getHistory w') = 1%nat.
Proof.
  intros cfg t w.
  destruct (non_array_selection_is_noop cfg t (Some (JObj [("categories", JStr "logs")])) w)
    as (Hids & r & w' & Hc & Hfs & Hmb & Hn & _ & Hh & Hr).
  { intros items. simpl. discriminate. }
  split; [exact Hids|].
  exists r, w'. split; [exact Hc|]. split; [exact Hfs|]. split; [exact Hmb|].
  split; [exact Hn|]. rewrite Hh, Hr. reflexivity.
Defined.

(** ** The history ledger *)








(** ** The client walk and its cap *)

Lemma SafNode_nested_ind (P : Client.SafNode -> Prop)
    (HU : P Client.Unavailable)
    (HF : forall sz ok, P (Client.SafFile sz ok))
    (HN : P (Client.SafDir None))
    (HD : forall cs, Forall (fun c => P c.2) cs -> P (Client.SafDir (Some cs))) :
  forall n, P n.
Proof.
  fix go 1. intros [| sz ok | [cs|]].
  - exact HU.
  - apply HF.
  - apply HD. induction cs as [|[u c] cs IH]; constructor; [apply go | exact IH].
  - exact HN.
Qed.

Lemma take_take_app {A} (n : nat) (a b : list A) :
  take n (take n a ++ b) = take n (a ++ b).
Proof.
  destruct (decide (n <= length a)%nat) as [Hle|Hgt].
  - rewrite (take_app_le a b n Hle).
    rewrite take_app_le by (rewrite length_take; lia).
    rewrite take_take. f_equal. lia.
  - by rewrite (take_ge a n) by lia.
Qed.

#[local] Opaque Client.MAX_SCAN_FILES.

Lemma scanSafTree_full decode uri node files :
  (length files <= Client.MAX_SCAN_FILES)%nat ->
  Client.scanSafTree decode uri node files =
    take Client.MAX_SCAN_FILES (files ++ walkAll decode uri node).
Proof.
  revert uri files. induction node as [| sz ok | | cs IH] using SafNode_nested_ind;
    intros uri files Hlen; simpl.
  - destruct (Nat.leb_spec Client.MAX_SCAN_FILES (length files)).
    + symmetry. apply take_app_length'. lia.
    + rewrite app_nil_r. symmetry. apply take_ge. lia.
  - destruct (Nat.leb_spec Client.MAX_SCAN_FILES (length files)).
    + symmetry. apply take_app_length'. lia.
    + symmetry. apply take_ge. rewrite length_app. simpl. lia.
  - destruct (Nat.leb_spec Client.MAX_SCAN_FILES (length files)).
    + symmetry. apply take_app_length'. lia.
    + rewrite app_nil_r. symmetry. apply take_ge. lia.
  - destruct (Nat.leb_spec Client.MAX_SCAN_FILES (length files)) as [Hge|Hlt].
    + symmetry. apply take_app_length'. lia.
    + clear Hlt. revert files Hlen.
      induction IH as [|[child cnode] cs Hc _ IHcs]; intros files Hlen.
      * rewrite app_nil_r. symmetry. apply take_ge. lia.
      * destruct (Nat.leb_spec Client.MAX_SCAN_FILES (length files)) as [Hge|Hlt].
        -- symmetry. apply take_app_length'. lia.
        -- simpl in Hc. rewrite (Hc child files Hlen).
           rewrite IHcs by (rewrite length_take; lia).
           rewrite take_take_app, <- app_assoc. done.
Qed.

Lemma scanSafTree_stops decode uri node files :
  (Client.MAX_SCAN_FILES <= length files)%nat ->
  Client.scanSafTree decode uri node files = files.
Proof.
  intros H. destruct node; simpl;
    destruct (Nat.leb_spec Client.MAX_SCAN_FILES (length files)); try done; lia.
Qed.

#[local] Transparent Client.MAX_SCAN_FILES.

(** ** The server walk *)

Lemma strip_Dir r es : strip (Server.Dir r es) = Server.Dir r (stripEntries es).
Proof. reflexivity. Qed.

Lemma stripEntries_cons ename child rest :
  stripEntries ((ename, child) :: rest) =
    if isDir child && has Server.IGNORED_DIRS ename then stripEntries rest
    else (ename, strip child) :: stripEntries rest.
Proof.
  unfold stripEntries. simpl.
  destruct (isDir child && has Server.IGNORED_DIRS ename); reflexivity.
Qed.

Lemma nodeCount_pos n : (1 <= Server.nodeCount n)%nat.
Proof. destruct n; simpl; lia. Qed.

Lemma scanEntries_count current es files stack :
  (stackCount (Server.scanEntries current es files stack).2 <=
   stackCount stack + list_sum (map (fun e => Server.nodeCount e.2) es))%nat.
Proof.
  revert files stack. induction es as [|[ename child] es IH]; intros files stack.
  - simpl. lia.
  - cbn [Server.scanEntries map list_sum snd].
    destruct child as [sz st ok | r es' |];
      [destruct st | destruct (has Server.IGNORED_DIRS ename) |];
      (etransitivity; [apply IH|]); unfold stackCount; simpl; lia.
Qed.

(** The loop empties the stack when it may run for as many iterations
    as the stack holds nodes. *)
Lemma walk_total fuel stack files :
  (stackCount stack <= fuel)%nat -> is_Some (Server.walk fuel stack files).
Proof.
  revert stack files. induction fuel as [|fuel IH]; intros stack files Hc.
  - destruct stack as [|[c n] s]; [by eexists|].
    unfold stackCount in Hc. cbn [map list_sum fold_right snd] in Hc. fold (list_sum (map (fun e : string * Server.Node => Server.nodeCount e.2) s)) in Hc.
    pose proof (nodeCount_pos n). lia.
  - destruct stack as [|[c n] s]; [by eexists|].
    unfold stackCount in Hc. cbn [map list_sum fold_right snd] in Hc. fold (list_sum (map (fun e : string * Server.Node => Server.nodeCount e.2) s)) in Hc. fold (stackCount s) in Hc.
    pose proof (nodeCount_pos n) as Hn.
    cbn [Server.walk]. destruct (Server.readdir n) as [es|] eqn:Er.
    + destruct n as [| [|] es' |]; try discriminate. injection Er as ->.
      pose proof (scanEntries_count c es files s) as Hs.
      destruct (Server.scanEntries c es files s) as [files' stack'].
      apply IH. cbn [snd] in Hs. cbn [Server.nodeCount] in Hc. lia.
    + apply IH. lia.
Qed.

Lemma walk_more_fuel fuel fuel' stack files r :
  Server.walk fuel stack files = Some r -> (fuel <= fuel')%nat ->
  Server.walk fuel' stack files = Some r.
Proof.
  revert fuel' stack files. induction fuel as [|fuel IH]; intros fuel' stack files Hw Hle.
  - destruct stack as [|[c n] s]; [|discriminate]. by destruct fuel'.
  - destruct fuel' as [|fuel']; [lia|].
    destruct stack as [|[c n] s]; [done|].
    cbn [Server.walk] in *. destruct (Server.readdir n) as [es|].
    + destruct (Server.scanEntries c es files s) as [files' stack'].
      apply IH; [done|lia].
    + apply IH; [done|lia].
Qed.

Lemma walkRoot_eq cfg fs fuel r :
  Server.walk fuel [(Server.STORAGE_ROOT cfg, fs)] [] = Some r ->
  Server.walkRoot cfg fs = r.
Proof.
  intros Hw. unfold Server.walkRoot.
  destruct (walk_total (Server.nodeCount fs) [(Server.STORAGE_ROOT cfg, fs)] []) as [r' Hr'].
  { unfold stackCount. simpl. lia. }
  rewrite Hr'. simpl.
  pose proof (walk_more_fuel _ (max fuel (Server.nodeCount fs)) _ _ _ Hw (Nat.le_max_l _ _)) as H1.
  pose proof (walk_more_fuel _ (max fuel (Server.nodeCount fs)) _ _ _ Hr' (Nat.le_max_r _ _)) as H2.
  congruence.
Qed.

(** The walk of [scanRoot] runs to an empty stack. *)
Lemma walk_root_total cfg fs :
  Server.walk (Server.nodeCount fs) [(Server.STORAGE_ROOT cfg, fs)] [] =
    Some (Server.walkRoot cfg fs).
Proof.
  destruct (walk_total (Server.nodeCount fs) [(Server.STORAGE_ROOT cfg, fs)] []) as [r Hr].
  { unfold stackCount. simpl. lia. }
  rewrite Hr. f_equal. symmetry. by eapply walkRoot_eq.
Qed.

Lemma scanEntries_strip current es files stack :
  Server.scanEntries current (stripEntries es) files (stripStack stack) =
    ((Server.scanEntries current es files stack).1,
     stripStack (Server.scanEntries current es files stack).2).
Proof.
  revert files stack. induction es as [|[ename child] es IH]; intros files stack.
  - reflexivity.
  - rewrite stripEntries_cons.
    destruct child as [sz st ok | r es' |]; cbn [isDir andb].
    + cbn [Server.scanEntries strip]. destruct st; apply IH.
    + destruct (has Server.IGNORED_DIRS ename) eqn:Eign.
      * cbn [Server.scanEntries]. rewrite Eign. apply IH.
      * rewrite strip_Dir. cbn [Server.scanEntries]. rewrite Eign.
        rewrite <- strip_Dir.
        apply (IH files ((PathOps.join current ename, Server.Dir r es') :: stack)).
    + cbn [Server.scanEntries strip]. apply IH.
Qed.

Lemma walk_strip fuel stack files :
  Server.walk fuel (stripStack stack) files = Server.walk fuel stack files.
Proof.
  revert stack files. induction fuel as [|fuel IH]; intros stack files.
  - by destruct stack as [|[c n] s].
  - destruct stack as [|[c n] s]; [done|].
    cbn [stripStack map fst snd Server.walk]. fold (stripStack s).
    destruct n as [sz st ok | [|] es |]; rewrite ?strip_Dir;
      cbn [strip Server.readdir]; try apply IH.
    rewrite scanEntries_strip.
    destruct (Server.scanEntries c es files s) as [files' stack']. apply IH.
Qed.

Lemma walkRoot_strip cfg fs : Server.walkRoot cfg (strip fs) = Server.walkRoot cfg fs.
Proof.
  apply (walkRoot_eq cfg (strip fs) (Server.nodeCount fs)).
  change [(Server.STORAGE_ROOT cfg, strip fs)]
    with (stripStack [(Server.STORAGE_ROOT cfg, fs)]).
  rewrite walk_strip. apply walk_root_total.
Qed.

Lemma scanEntries_only_ignored current es files stack :
  Forall (fun e => isDir e.2 = true /\ has Server.IGNORED_DIRS e.1 = true) es ->
  Server.scanEntries current es files stack = (files, stack).
Proof.
  induction 1 as [|[ename child] es [Hd Hi] _ IH]; [done|].
  cbn [fst snd] in Hd, Hi. destruct child; try discriminate.
  cbn [Server.scanEntries]. by rewrite Hi.
Qed.

Lemma scanEntries_flat current (l : list nat) files stack :
  Server.scanEntries current
    (map (fun i => (Js.num_to_string (N.of_nat i), Server.File 1 true true)) l) files stack =
  (files ++ map (fun i =>
      let fullPath := PathOps.join current (Js.num_to_string (N.of_nat i)) in
      {| path := fullPath; name := Js.num_to_string (N.of_nat i); size := 1%N;
         category := categorizeFile fullPath |}) l, stack).
Proof.
  revert files. induction l as [|i l IH]; intros files.
  - simpl. by rewrite app_nil_r.
  - cbn [map Server.scanEntries]. rewrite IH, <- app_assoc. done.
Qed.

Lemma walkRoot_flatDir cfg n : length (Server.walkRoot cfg (flatDir n)) = n.
Proof.
  erewrite (walkRoot_eq cfg (flatDir n) 1).
  2:{ unfold flatDir. cbn [Server.walk Server.readdir].
      rewrite scanEntries_flat. reflexivity. }
  rewrite length_app, length_map, length_seq. done.
Qed.

(** C9. The client walk returns the first 1500 records of the walk
    without cap, so at most 1500; a call that finds 1500 records
    returns at once; the flag is set exactly when the uncapped walk has
    1500 records or more.  The server walk returns as many records as
    the tree has files: for every [n] some tree yields [n] of them. *)
Theorem client_walk_capped
    (decode : string -> option string) (uri : string) (root : Client.SafNode) :
  let files := Client.scanSafTree decode uri root [] in
  (length files <= 1500)%nat /\
  files = take 1500 (walkAll decode uri root) /\
  (forall node u fs, (1500 <= length fs)%nat -> Client.scanSafTree decode u node fs = fs) /\
  ((Client.scanDeviceStorage decode uri root).2 = true <->
   (1500 <= length (walkAll decode uri root))%nat) /\
  (forall cfg n, exists fs, length (Server.walkRoot cfg fs) = n).
Proof.
  intros files.
  assert (Hfiles : files = take 1500 (walkAll decode uri root)).
  { subst files. rewrite scanSafTree_full by (simpl; lia). done. }
  split; [|split; [exact Hfiles|split; [|split]]].
  - rewrite Hfiles, length_take. lia.
  - intros node u fs Hfs. by apply scanSafTree_stops.
  - unfold Client.scanDeviceStorage. cbn [snd]. fold files.
    rewrite Hfiles, length_take. unfold Client.MAX_SCAN_FILES.
    destruct (Nat.leb_spec 1500 (1500 `min` length (walkAll decode uri root))); split;
      intros; try done; lia.
  - intros cfg n. exists (flatDir n). apply walkRoot_flatDir.
Qed.

Lemma client_walk_capped_witness :
  let file := {| path := "content://documents/tree/proj/document/proj%2Fa.log";
                 name := "proj%2Fa.log"; size := 1; category := Some logs |} in
  (length (Client.scanSafTree decodeId "content://documents/tree/proj" safIgnoredTree [])
     <= 1500)%nat /\
  Client.scanSafTree decodeId "content://documents/tree/proj" safIgnoredTree
    (replicate 1500 file) = replicate 1500 file.
Proof.
  intros file.
  destruct (client_walk_capped decodeId "content://documents/tree/proj" safIgnoredTree)
    as (Hle & _ & Hstop & _).
  split; [exact Hle|].
  apply Hstop. rewrite length_replicate. lia.
Defined.

Lemma server_walk_beyond_cap :
  length (Server.walkRoot scenarioConfig (flatDir 1501)) = 1501%nat.
Proof. apply walkRoot_flatDir. Qed.

(** C8, as the code has it.  The server walk gives the same records on
    a tree and on that tree without its ignored directories, hence the
    same records on two trees that differ only below ignored
    directories; its loop ends with an empty stack; and a root whose
    entries are all ignored directories gives no record.  The client
    walk consults no directory name: it returns the first 1500 files of
    the whole tree. *)
Theorem server_walk_skips_ignored (cfg : Server.Config) (fs : Server.Node) :
  Server.walkRoot cfg (strip fs) = Server.walkRoot cfg fs /\
  (forall fs', strip fs' = strip fs -> Server.walkRoot cfg fs' = Server.walkRoot cfg fs) /\
  Server.walk (Server.nodeCount fs) [(Server.STORAGE_ROOT cfg, fs)] [] =
    Some (Server.walkRoot cfg fs) /\
  (forall r es,
     fs = Server.Dir r es ->
     Forall (fun e => isDir e.2 = true /\ has Server.IGNORED_DIRS e.1 = true) es ->
     Server.walkRoot cfg fs = []) /\
  (forall decode uri root,
     Client.scanSafTree decode uri root [] =
       take Client.MAX_SCAN_FILES (walkAll decode uri root)).
Proof.
  split; [apply walkRoot_strip|]. split; [|split; [apply walk_root_total|split]].
  - intros fs' Heq. rewrite <- (walkRoot_strip cfg fs'), Heq. apply walkRoot_strip.
  - intros r es -> Hes. apply (walkRoot_eq cfg _ 1).
    cbn [Server.walk]. destruct r; cbn [Server.readdir]; [|done].
    by rewrite scanEntries_only_ignored.
  - intros decode uri root. apply scanSafTree_full. simpl. lia.
Qed.

Lemma server_walk_skips_ignored_witness :
  Server.walkRoot scenarioConfig
    (Server.Dir true
       [("node_modules", Server.Dir true [("x.log", Server.File 5 true true)]);
        (".git", Server.Dir true [("y.mp4", Server.File 7 true true)])]) = [].
Proof.
  destruct (server_walk_skips_ignored scenarioConfig
    (Server.Dir true
       [("node_modules", Server.Dir true [("x.log", Server.File 5 true true)]);
        (".git", Server.Dir true [("y.mp4", Server.File 7 true true)])]))
    as (_ & _ & _ & H & _).
  apply (H true _ eq_refl). repeat constructor.
Defined.

(** C8 fails on the client: its walk has no ignored set, and returns
    the file that lies in a [node_modules] directory. *)
Lemma client_walk_enters_ignored :
  map path (Client.scanSafTree decodeId "content://documents/tree/proj" safIgnoredTree []) =
    ["content://documents/tree/proj/document/proj%2Fnode_modules%2Fx.log"].
Proof. vm_compute. reflexivity. Qed.

(** ** The duplicate key *)

Lemma uint_no_colon (d : Decimal.uint) :
  ~ In colon (Js.chars (NilEmpty.string_of_uint d)).
Proof.
  induction d; simpl; intros H; try done;
    destruct H as [H|H]; try discriminate; auto.
Qed.

Lemma string_of_uint_inj (d d' : Decimal.uint) :
  NilEmpty.string_of_uint d = NilEmpty.string_of_uint d' -> d = d'.
Proof.
  intros H. pose proof (NilEmpty.usu d) as Hd. rewrite H, NilEmpty.usu in Hd. congruence.
Qed.

Lemma num_to_string_inj (a b : N) : Js.num_to_string a = Js.num_to_string b -> a = b.
Proof.
  unfold Js.num_to_string. intros H. apply string_of_uint_inj in H.
  by apply DecimalN.Unsigned.to_uint_inj.
Qed.

Lemma append_cons c a x : String c a +:+ x = String c (a +:+ x).
Proof. reflexivity. Qed.

Lemma append_nil x : "" +:+ x = x.
Proof. reflexivity. Qed.

Lemma app_colon_inj (a b da db : string) :
  ~ In colon (Js.chars da) -> ~ In colon (Js.chars db) ->
  a +:+ ":" +:+ da = b +:+ ":" +:+ db -> a = b /\ da = db.
Proof.
  intros Ha Hb. revert b. induction a as [|c a IH]; intros [|c' b] H; rewrite ?append_cons, ?append_nil in H.
  - injection H as ->. done.
  - injection H as <- ->. exfalso. apply Ha. clear.
    induction b as [|x b IHb]; rewrite ?append_cons, ?append_nil; simpl; [by left | by right].
  - injection H as -> <-. exfalso. apply Hb. clear.
    induction a as [|x a IHa]; rewrite ?append_cons, ?append_nil; simpl; [by left | by right].
  - injection H as -> H. destruct (IH _ H) as [-> ->]. done.
Qed.

(** Two files have the same key exactly when they have the same name
    and the same size. *)
Lemma keyOf_inj (f g : FileRecord) :
  keyOf f = keyOf g <-> name f = name g /\ size f = size g.
Proof.
  unfold keyOf. split.
  - intros H. apply app_colon_inj in H as [Hn Hs].
    + split; [done|]. by apply num_to_string_inj.
    + apply uint_no_colon.
    + apply uint_no_colon.
  - intros [-> ->]. done.
Qed.

(** ** The duplicate map *)

Lemma lookupGroup_mapPush k k' i m :
  lookupGroup k' (mapPush k i m) =
    if String.eqb k k' then lookupGroup k' m ++ [i] else lookupGroup k' m.
Proof.
  induction m as [|[k0 g] m IH]; simpl.
  - destruct (String.eqb_spec k k'); done.
  - destruct (String.eqb_spec k0 k) as [->|Hne]; simpl.
    + destruct (String.eqb_spec k k'); done.
    + destruct (String.eqb_spec k0 k') as [->|Hne'].
      * destruct (String.eqb_spec k k'); [congruence|done].
      * apply IH.
Qed.

Lemma keys_mapPush k i m :
  map fst (mapPush k i m) =
    if bool_decide (k ∈ map fst m) then map fst m else map fst m ++ [k].
Proof.
  induction m as [|[k0 g] m IH]; simpl; [done|].
  destruct (String.eqb_spec k0 k) as [->|Hne]; simpl.
  - rewrite bool_decide_true; [done|]. by left.
  - rewrite IH. destruct (decide (k ∈ map fst m)) as [Hin|Hnin].
    + rewrite !bool_decide_true; [done| by right |done].
    + rewrite !bool_decide_false; [done| |done].
      intros [->|?]%elem_of_cons; done.
Qed.

Lemma keys_mapPush_NoDup k i m : NoDup (map fst m) -> NoDup (map fst (mapPush k i m)).
Proof.
  intros Hnd. rewrite keys_mapPush. case_bool_decide; [done|].
  apply NoDup_app. split; [done|]. split; [|apply NoDup_singleton].
  intros x Hx ->%list_elem_of_singleton. done.
Qed.

Lemma lookupGroup_positions files k i m :
  lookupGroup k (buildDuplicateMap files i m) = lookupGroup k m ++ positionsOf k i files.
Proof.
  revert i m. induction files as [|f files IH]; intros i m; simpl.
  - by rewrite app_nil_r.
  - rewrite IH, lookupGroup_mapPush.
    destruct (String.eqb (keyOf f) k); by rewrite <- ?app_assoc.
Qed.

Lemma keys_build_NoDup files i m :
  NoDup (map fst m) -> NoDup (map fst (buildDuplicateMap files i m)).
Proof.
  revert i m. induction files as [|f files IH]; intros i m Hnd; simpl; [done|].
  apply IH. by apply keys_mapPush_NoDup.
Qed.

Lemma lookupGroup_elem k g m :
  NoDup (map fst m) -> (k, g) ∈ m -> lookupGroup k m = g.
Proof.
  induction m as [|[k0 g0] m IH]; intros Hnd Hin; [by apply elem_of_nil in Hin|].
  simpl in *. apply NoDup_cons in Hnd as [Hk0 Hnd].
  apply elem_of_cons in Hin as [[= -> ->]|Hin].
  - by rewrite String.eqb_refl.
  - destruct (String.eqb_spec k0 k) as [->|Hne]; [|by apply IH].
    exfalso. apply Hk0. apply (list_elem_of_fmap_2 fst) in Hin. done.
Qed.

Lemma lookupGroup_missing k m : k ∉ map fst m -> lookupGroup k m = [].
Proof.
  induction m as [|[k0 g0] m IH]; intros Hk; [done|]. simpl in *.
  apply not_elem_of_cons in Hk as [Hne Hk].
  destruct (String.eqb_spec k0 k); [congruence|]. by apply IH.
Qed.

Lemma lookupGroup_present k m :
  k ∈ map fst m -> (k, lookupGroup k m) ∈ m.
Proof.
  induction m as [|[k0 g0] m IH]; intros Hk; [by apply elem_of_nil in Hk|]. simpl in *.
  destruct (String.eqb_spec k0 k) as [->|Hne]; [by left|].
  apply elem_of_cons in Hk as [?|Hk]; [congruence|]. right. by apply IH.
Qed.

(** The positions the marking loops overwrite are the non-first
    members of the groups. *)
Lemma elem_markedPositions m i :
  NoDup (map fst m) ->
  i ∈ markedPositions m <-> exists k, i ∈ tail (lookupGroup k m).
Proof.
  intros Hnd. unfold markedPositions. rewrite list_elem_of_In, in_flat_map. split.
  - intros [[k g] [Hin Hi]]. exists k. apply list_elem_of_In in Hin, Hi.
    by rewrite (lookupGroup_elem k g m Hnd Hin).
  - intros [k Hi]. destruct (decide (k ∈ map fst m)) as [Hk|Hk].
    + exists (k, lookupGroup k m). split; apply list_elem_of_In; [|done].
      by apply lookupGroup_present.
    + rewrite (lookupGroup_missing k m Hk) in Hi. by apply elem_of_nil in Hi.
Qed.

Lemma elem_positionsOf k o files i :
  i ∈ positionsOf k o files <->
  exists f, (o <= i)%nat /\ files !! (i - o)%nat = Some f /\ keyOf f = k.
Proof.
  revert o. induction files as [|f files IH]; intros o; simpl.
  - split; [intros H; by apply elem_of_nil in H | intros (f & _ & H & _); done].
  - rewrite elem_of_app, IH. split.
    + intros [Hhd | (g & Hle & Hg & Hk)].
      * destruct (String.eqb_spec (keyOf f) k) as [Hk|]; [|by apply elem_of_nil in Hhd].
        apply list_elem_of_singleton in Hhd as ->. exists f.
        rewrite Nat.sub_diag. done.
      * exists g. split; [lia|]. split; [|done].
        replace (i - o)%nat with (S (i - S o)) by lia. done.
    + intros (g & Hle & Hg & Hk). destruct (decide (i = o)) as [->|Hne].
      * left. rewrite Nat.sub_diag in Hg. injection Hg as ->.
        rewrite Hk, String.eqb_refl. by left.
      * right. exists g. split; [lia|]. split; [|done].
        replace (i - o)%nat with (S (i - S o)) in Hg by lia. done.
Qed.

Lemma elem_tail_positionsOf k o files i :
  i ∈ tail (positionsOf k o files) <->
  exists f g j, (o <= j < i)%nat /\
    files !! (i - o)%nat = Some f /\ keyOf f = k /\
    files !! (j - o)%nat = Some g /\ keyOf g = k.
Proof.
  revert o. induction files as [|f files IH]; intros o; simpl.
  - split; [intros H; by apply elem_of_nil in H | intros (f & g & j & _ & H & _); done].
  - destruct (String.eqb_spec (keyOf f) k) as [Hk|Hk]; simpl.
    + rewrite elem_positionsOf. split.
      * intros (g & Hle & Hg & Hkg). exists g, f, o. split; [lia|].
        replace (i - o)%nat with (S (i - S o)) by lia.
        rewrite Nat.sub_diag. done.
      * intros (f' & g & j & Hj & Hf' & Hkf' & _). exists f'. split; [lia|].
        replace (i - o)%nat with (S (i - S o)) in Hf' by lia. done.
    + rewrite IH. split.
      * intros (f' & g & j & Hj & Hf' & Hkf' & Hg & Hkg). exists f', g, j.
        split; [lia|].
        replace (i - o)%nat with (S (i - S o)) by lia.
        replace (j - o)%nat with (S (j - S o)) by lia. done.
      * intros (f' & g & j & Hj & Hf' & Hkf' & Hg & Hkg).
        destruct (decide (j = o)) as [->|Hne].
        { rewrite Nat.sub_diag in Hg. injection Hg as ->. done. }
        exists f', g, j. split; [lia|].
        replace (i - o)%nat with (S (i - S o)) in Hf' by lia.
        replace (j - o)%nat with (S (j - S o)) in Hg by lia. done.
Qed.

Lemma markGroup_markAll files g : markGroup files g = markAll files (tail g).
Proof.
  unfold markGroup. destruct (Nat.ltb_spec 1 (length g)); [done|].
  destruct g as [|x [|y g]]; simpl in *; [done|done|lia].
Qed.

Lemma markAll_app files l l' : markAll files (l ++ l') = markAll (markAll files l) l'.
Proof. unfold markAll. by rewrite foldl_app. Qed.

Lemma markDuplicates_markAll files :
  markDuplicates files = markAll files (markedPositions (buildDuplicateMap files 0 [])).
Proof.
  unfold markDuplicates. generalize (buildDuplicateMap files 0 []). intros m.
  revert files. induction m as [|[k g] m IH]; intros files; simpl; [done|].
  unfold markedPositions. simpl. rewrite markAll_app, <- markGroup_markAll. apply IH.
Qed.

Lemma setCategory_idem c f : setCategory c (setCategory c f) = setCategory c f.
Proof. reflexivity. Qed.

Lemma lookup_markAll files l i :
  markAll files l !! i =
    if bool_decide (i ∈ l) then setCategory duplicates <$> files !! i else files !! i.
Proof.
  revert files. induction l as [|j l IH]; intros files; simpl; [done|].
  unfold markAll in *. simpl. rewrite IH.
  destruct (decide (i = j)) as [->|Hne].
  - rewrite list_lookup_alter_eq.
    rewrite (bool_decide_true (j ∈ j :: l)) by (by left).
    case_bool_decide; [|done].
    destruct (files !! j); simpl; done.
  - rewrite list_lookup_alter_ne by done.
    destruct (decide (i ∈ l)) as [Hin|Hnin].
    + rewrite !bool_decide_true; [done|by right|done].
    + rewrite !bool_decide_false; [done| |done].
      intros [?|?]%elem_of_cons; done.
Qed.

Lemma hasEarlierCopy_iff files i f :
  files !! i = Some f ->
  hasEarlierCopy (take i files) f = true <->
  exists g j, (j < i)%nat /\ files !! j = Some g /\ keyOf g = keyOf f.
Proof.
  intros Hf. unfold hasEarlierCopy. rewrite existsb_exists. split.
  - intros (g & Hin & Hs). apply list_elem_of_In, list_elem_of_lookup in Hin as [j Hj].
    pose proof (lookup_lt_Some _ _ _ Hj) as Hlt. rewrite length_take in Hlt.
    rewrite lookup_take_lt in Hj by lia.
    exists g, j. split; [lia|]. split; [done|].
    unfold sameNameSize in Hs. apply andb_true_iff in Hs as [Hn Hs].
    apply String.eqb_eq in Hn. apply N.eqb_eq in Hs. by apply keyOf_inj.
  - intros (g & j & Hlt & Hg & Hk). exists g. split.
    + apply list_elem_of_In, list_elem_of_lookup. exists j.
      by rewrite lookup_take_lt.
    + apply keyOf_inj in Hk as [Hn Hs]. unfold sameNameSize.
      by rewrite Hn, Hs, String.eqb_refl, N.eqb_refl.
Qed.

(** C2. Deduplication keeps the sequence of files and their paths,
    names and sizes; the file at a position keeps its category when no
    earlier file has its name and size (it is the first of its group,
    or alone in it), and has the category duplicates afterwards when an
    earlier file has them, whatever its category was.  The key
    "name:size" is equal for two files exactly when their names and
    sizes are. *)
Theorem duplicates_all_but_first (files : list FileRecord) (i : nat) (f : FileRecord)
    (Hf : files !! i = Some f) :
  let earlierCopy :=
    exists j h, (j < i)%nat /\ files !! j = Some h /\ name h = name f /\ size h = size f in
  length (markDuplicates files) = length files /\
  (exists g,
     markDuplicates files !! i = Some g /\
     path g = path f /\ name g = name f /\ size g = size f /\
     (earlierCopy -> category g = Some duplicates) /\
     (~ earlierCopy -> g = f)) /\
  markDuplicates files !! i =
    Some (if hasEarlierCopy (take i files) f then setCategory duplicates f else f) /\
  (hasEarlierCopy (take i files) f = true <-> earlierCopy) /\
  (forall g h, keyOf g = keyOf h <-> name g = name h /\ size g = size h).
Proof.
  intros earlierCopy.
  assert (Hlook : markDuplicates files !! i =
    Some (if hasEarlierCopy (take i files) f then setCategory duplicates f else f)).
  { rewrite markDuplicates_markAll, lookup_markAll, Hf. simpl.
    assert (Hnd : NoDup (map fst (buildDuplicateMap files 0 []))).
    { apply keys_build_NoDup. constructor. }
    destruct (hasEarlierCopy (take i files) f) eqn:He.
    - rewrite bool_decide_true; [done|].
      apply hasEarlierCopy_iff in He as (g & j & Hlt & Hg & Hk); [|done].
      apply elem_markedPositions; [done|]. exists (keyOf f).
      rewrite lookupGroup_positions. simpl. apply elem_tail_positionsOf.
      exists f, g, j. rewrite !Nat.sub_0_r. split; [lia|]. done.
    - rewrite bool_decide_false; [done|].
      intros Hin. apply elem_markedPositions in Hin as [k Hin]; [|done].
      rewrite lookupGroup_positions in Hin. simpl in Hin.
      apply elem_tail_positionsOf in Hin as (f' & g & j & Hj & Hf' & Hkf' & Hg & Hkg).
      rewrite !Nat.sub_0_r in *. rewrite Hf in Hf'. injection Hf' as <-.
      assert (hasEarlierCopy (take i files) f = true); [|congruence].
      apply hasEarlierCopy_iff; [done|]. exists g, j. split; [lia|].
      split; [done|congruence]. }
  assert (Hiff : hasEarlierCopy (take i files) f = true <-> earlierCopy).
  { rewrite (hasEarlierCopy_iff files i f Hf). subst earlierCopy. cbv beta.
    split.
    - intros (g & j & Hlt & Hg & Hk). exists j, g. apply keyOf_inj in Hk. tauto.
    - intros (j & h & Hlt & Hh & Hn & Hs). exists h, j.
      split; [done|]. split; [done|]. by apply keyOf_inj. }
  split; [apply length_markDuplicates|]. split; [|split; [exact Hlook|split; [exact Hiff|]]].
  - rewrite Hlook. eexists. split; [reflexivity|].
    destruct (hasEarlierCopy (take i files) f) eqn:He.
    + cbn [setCategory path name size category]. repeat split; try done.
      intros Hn. exfalso. apply Hn, Hiff. done.
    + repeat split; try done. intros Hc. apply Hiff in Hc. congruence.
  - apply keyOf_inj.
Qed.

Lemma duplicates_all_but_first_witness :
  let a := {| path := "/r/c.mp4"; name := "c.mp4"; size := 7; category := Some media |} in
  let b := {| path := "/r/x/cache/c.mp4"; name := "c.mp4"; size := 7; category := Some cache |} in
  let c := {| path := "/r/y/c.mp4"; name := "c.mp4"; size := 8; category := Some media |} in
  exists g,
    markDuplicates [a; b; c] !! 1%nat = Some g /\
    path g = "/r/x/cache/c.mp4" /\ category g = Some duplicates.
Proof.
  intros a b c.
  destruct (duplicates_all_but_first [a; b; c] 1 b eq_refl)
    as (_ & (g & Hg & Hp & _ & _ & Hdup & _) & _).
  exists g. split; [exact Hg|]. split; [exact Hp|].
  apply Hdup. exists 0%nat, a. split; [lia|]. repeat split.
Defined.

(** ** The containment guard *)

Lemma append_assoc (a b c : string) : (a +:+ b) +:+ c = a +:+ (b +:+ c).
Proof.
  induction a as [|x a IH]; [done|]. rewrite !append_cons. by rewrite IH.
Qed.


Lemma Node_nested_ind (P : Server.Node -> Prop)
    (HF : forall sz st ok, P (Server.File sz st ok))
    (HO : P Server.Other)
    (HD : forall r es, Forall (fun e => P e.2) es -> P (Server.Dir r es)) :
  forall n, P n.
Proof.
  fix go 1. intros [sz st ok | r es |].
  - apply HF.
  - apply HD. induction es as [|[ename child] es IH]; constructor; [apply go | exact IH].
  - exact HO.
Qed.

Lemma hasFile_Dir t cur r es : hasFile t cur (Server.Dir r es) = hasFileIn t cur es.
Proof. reflexivity. Qed.

Lemma removeFile_Dir t cur r es :
  Server.removeFile t cur (Server.Dir r es) = Server.Dir r (removeEntries t cur es).
Proof. reflexivity. Qed.

Lemma hasFileIn_cons t cur ename child rest :
  hasFileIn t cur ((ename, child) :: rest) =
    (match child with
     | Server.File _ _ _ => String.eqb (PathOps.join cur ename) t
     | _ => hasFile t (PathOps.join cur ename) child
     end) || hasFileIn t cur rest.
Proof. destruct child; reflexivity. Qed.

Lemma removeEntries_cons t cur ename child rest :
  removeEntries t cur ((ename, child) :: rest) =
    match child with
    | Server.File sz st ok =>
        if ok && String.eqb (PathOps.join cur ename) t then removeEntries t cur rest
        else (ename, child) :: removeEntries t cur rest
    | _ => (ename, Server.removeFile t (PathOps.join cur ename) child)
             :: removeEntries t cur rest
    end.
Proof.
  destruct child as [sz st ok| |]; reflexivity.
Qed.

(** Unlinking one path leaves the files at all other paths. *)
Lemma hasFile_removeFile p t n :
  p <> t -> forall cur, hasFile p cur (Server.removeFile t cur n) = hasFile p cur n.
Proof.
  intros Hne. induction n as [sz st ok | | r es IH] using Node_nested_ind; intros cur;
    [done|done|].
  rewrite removeFile_Dir, !hasFile_Dir.
  induction IH as [|[ename child] es Hc _ IHes]; [done|].
  rewrite removeEntries_cons, hasFileIn_cons. cbn [snd] in Hc.
  destruct child as [sz st ok | r' es' |].
  - destruct (ok && String.eqb (PathOps.join cur ename) t) eqn:E.
    + apply andb_true_iff in E as [_ E]. apply String.eqb_eq in E.
      rewrite IHes. destruct (String.eqb_spec (PathOps.join cur ename) p); [congruence|done].
    + rewrite hasFileIn_cons, IHes. done.
  - rewrite removeFile_Dir, hasFileIn_cons, <- removeFile_Dir, Hc, IHes. done.
  - rewrite hasFileIn_cons, IHes. done.
Qed.


Lemma deleteLoopOn_insideRoot {FS} (unlinkOn : string -> FS -> option FS)
    cfg files fs bytes count :
  Server.deleteLoopOn unlinkOn cfg files fs bytes count =
    Server.deleteLoopOn unlinkOn cfg (insideRoot cfg files) fs bytes count.
Proof.
  revert fs bytes count. induction files as [|f files IH]; intros fs bytes count; [done|].
  unfold insideRoot. rewrite filter_cons. fold (insideRoot cfg files).
  cbn [Server.deleteLoopOn].
  destruct (Server.withinRoot cfg (path f)) eqn:E; cbn [negb].
  - rewrite decide_True by done. cbn [Server.deleteLoopOn]. rewrite E. cbn [negb].
    destruct (unlinkOn (path f) fs); apply IH.
  - rewrite decide_False by done. apply IH.
Qed.

Lemma deleteLoop_insideRoot cfg files fs bytes count :
  Server.deleteLoop cfg files fs bytes count =
    Server.deleteLoop cfg (insideRoot cfg files) fs bytes count.
Proof. apply deleteLoopOn_insideRoot. Qed.

Lemma deleteLoop_cons cfg f files fs bytes count :
  Server.deleteLoop cfg (f :: files) fs bytes count =
    if negb (Server.withinRoot cfg (path f)) then Server.deleteLoop cfg files fs bytes count
    else
      match Server.unlink cfg (path f) fs with
      | Some fs' => Server.deleteLoop cfg files fs' (bytes + size f)%N (count + 1)%N
      | None => Server.deleteLoop cfg files fs bytes count
      end.
Proof. reflexivity. Qed.








(** ** The end-to-end scenario *)

(** C7, as the code has it.  Whatever the order in which the root lists
    its four entries, the snapshot has logs 10 MB, media 100 MB (b.mp4
    and the first c.mp4), duplicates 50 MB, nothing in cache and
    downloads, and both totals are 160 MB. *)
Theorem scenario_snapshot (es : list (string * Server.Node))
    (Hes : es ≡ₚ scenarioEntries \/ es ≡ₚ scenarioFlatEntries) :
  scenarioAsScanned (Server.scanRoot scenarioConfig "" (Server.Dir true es)).
Proof.
  assert (Hall : forallb scansAs
                   (permutations scenarioEntries ++ permutations scenarioFlatEntries) = true)
    by (vm_compute; reflexivity).
  assert (Hin : es ∈ permutations scenarioEntries ++ permutations scenarioFlatEntries).
  { apply elem_of_app. destruct Hes as [H|H]; [left|right];
      apply permutations_Permutation; by symmetry. }
  rewrite forallb_forall in Hall. apply list_elem_of_In in Hin. specialize (Hall es Hin).
  unfold scansAs in Hall. apply bool_decide_eq_true in Hall. exact Hall.
Qed.

Lemma scenario_snapshot_witness :
  scenarioAsScanned (Server.scanRoot scenarioConfig "" (Server.Dir true scenarioEntries)).
Proof. apply scenario_snapshot. left. reflexivity. Defined.

(** C7 as stated fails: media is not 50 MB and the reclaimable total is
    not 110 MB, in either layout of the scenario. *)
Lemma scenario_not_as_specified :
  let snap := Server.scanRoot scenarioConfig "" (Server.Dir true scenarioEntries) in
  let flat := Server.scanRoot scenarioConfig "" (Server.Dir true scenarioFlatEntries) in
  ~ (sizeOf snap logs = [10] /\ sizeOf snap media = [50] /\ sizeOf snap duplicates = [50] /\
     110 <= Server.totalUsedMB snap /\ Server.totalReclaimableMB snap = 110) /\
  ~ (sizeOf flat logs = [10] /\ sizeOf flat media = [50] /\ sizeOf flat duplicates = [50] /\
     110 <= Server.totalUsedMB flat /\ Server.totalReclaimableMB flat = 110) /\
  sizeOf snap media = [100] /\ Server.totalReclaimableMB snap = 160.
Proof.
  intros snap flat. split; [|split; [|split]].
  - intros (_ & H & _). vm_compute in H. discriminate.
  - intros (_ & H & _). vm_compute in H. discriminate.
  - vm_compute. reflexivity.
  - vm_compute. reflexivity.
Qed.

(** ** [path.extname] *)

Lemma chars_app (a b : string) : Js.chars (a +:+ b) = Js.chars a ++ Js.chars b.
Proof.
  induction a as [|c a IH]; [done|]. rewrite append_cons. simpl. by rewrite IH.
Qed.

Lemma length_chars (s : string) : length (Js.chars s) = String.length s.
Proof. induction s as [|c s IH]; simpl; [done|]. by rewrite IH. Qed.

Lemma string_length_app (a b : string) :
  String.length (a +:+ b) = (String.length a + String.length b)%nat.
Proof. rewrite <- !length_chars, chars_app, length_app. done. Qed.

Lemma substring_all (b : string) : String.substring 0 (String.length b) b = b.
Proof. induction b as [|c b IH]; simpl; [done|]. by rewrite IH. Qed.

Lemma substring_app (a b : string) :
  String.substring (String.length a) (String.length b) (a +:+ b) = b.
Proof.
  induction a as [|c a IH]; [apply substring_all|].
  rewrite append_cons. simpl. apply IH.
Qed.

Lemma ext_scan_plain l rest i sp e :
  Forall (fun c => c <> Path.slash /\ c <> Path.dot) l -> e <> -1 ->
  Path.ext_scan (l ++ rest) i (Path.Build_ExtScan (-1) sp e false 0) =
  Path.ext_scan rest (i - Z.of_nat (length l)) (Path.Build_ExtScan (-1) sp e false 0).
Proof.
  intros Hl He. revert i. induction Hl as [|c l [Hs Hd] _ IH]; intros i.
  - simpl. f_equal. lia.
  - cbn [app Path.ext_scan].
    apply Ascii.eqb_neq in Hs, Hd. rewrite Hs, Hd. cbn.
    destruct (Z.eqb_spec e (-1)); [done|].
    rewrite IH. f_equal. lia.
Qed.

Lemma ext_scan_plain_init l rest i :
  Forall (fun c => c <> Path.slash /\ c <> Path.dot) l -> l <> [] -> 0 <= i ->
  Path.ext_scan (l ++ rest) i Path.ext_init =
  Path.ext_scan rest (i - Z.of_nat (length l)) (Path.Build_ExtScan (-1) 0 (i + 1) false 0).
Proof.
  intros Hl Hne Hi. destruct Hl as [|c l [Hs Hd] Hl]; [done|].
  cbn [app Path.ext_scan].
  apply Ascii.eqb_neq in Hs, Hd. rewrite Hs, Hd. cbn.
  rewrite ext_scan_plain by (done || lia). f_equal. lia.
Qed.

Lemma ext_scan_dot rest i sp e :
  e <> -1 ->
  Path.ext_scan (Path.dot :: rest) i (Path.Build_ExtScan (-1) sp e false 0) =
  Path.ext_scan rest (i - 1) (Path.Build_ExtScan i sp e false 0).
Proof.
  intros He. cbn. destruct (Z.eqb_spec e (-1)); done.
Qed.

Lemma ext_scan_stem l rest i d sp e pd :
  Forall (fun c => c <> Path.slash) l -> d <> -1 -> e <> -1 ->
  Path.ext_scan (l ++ rest) i (Path.Build_ExtScan d sp e false pd) =
  Path.ext_scan rest (i - Z.of_nat (length l))
    (Path.Build_ExtScan d sp e false (preDotAfter l pd)).
Proof.
  intros Hl Hd He. revert i pd. induction Hl as [|c l Hs _ IH]; intros i pd.
  - simpl. f_equal. lia.
  - cbn [app Path.ext_scan preDotAfter].
    apply Ascii.eqb_neq in Hs. rewrite Hs. cbn.
    destruct (Z.eqb_spec e (-1)); [done|]. cbn.
    destruct (Z.eqb_spec d (-1)); [done|]. cbn.
    destruct (Ascii.eqb c Path.dot).
    + destruct (Z.eqb_spec pd 1) as [->|]; cbn; rewrite IH; f_equal; lia.
    + rewrite IH. f_equal. lia.
Qed.

Lemma preDotAfter_keeps_nonzero l z : z <> 0 -> preDotAfter l z <> 0.
Proof.
  revert z. induction l as [|c l IH]; intros z Hz; cbn [preDotAfter]; [done|].
  apply IH. destruct (Ascii.eqb c Path.dot); lia.
Qed.

Lemma preDotAfter_nonzero l pd : l <> [] -> preDotAfter l pd <> 0.
Proof.
  intros Hl. destruct l as [|c l]; [done|]. cbn [preDotAfter].
  apply preDotAfter_keeps_nonzero. destruct (Ascii.eqb c Path.dot); lia.
Qed.

(** The scan of what precedes the last segment: nothing, or a
    separator that stops it. *)
Lemma ext_scan_segmentStart pre i d sp e pd :
  segmentStart pre ->
  exists sp',
    Path.ext_scan (rev (Js.chars pre)) i (Path.Build_ExtScan d sp e false pd) =
      Path.Build_ExtScan d sp' e false pd.
Proof.
  intros [-> | [dir ->]].
  - exists sp. reflexivity.
  - exists (i + 1). rewrite chars_app, rev_app_distr. reflexivity.
Qed.

Lemma chars_nonempty (s : string) : s <> "" -> Js.chars s <> [].
Proof. by destruct s. Qed.

Lemma rev_nonempty {A} (l : list A) : l <> [] -> rev l <> [].
Proof.
  intros Hl H. apply Hl. rewrite <- (rev_involutive l), H. done.
Qed.

(** A last segment [stem.e]: the extension is [.e]. *)
Lemma extname_stem_ext pre stem e :
  segmentStart pre -> noSlash stem -> stem <> "" -> plain e -> e <> "" ->
  Path.extname (pre +:+ stem +:+ "." +:+ e) = "." +:+ e.
Proof.
  intros Hpre Hstem Hsne He Hene. unfold Path.extname.
  set (p := pre +:+ stem +:+ "." +:+ e).
  set (n := String.length e). set (m := String.length stem). set (k := String.length pre).
  assert (Hlen : String.length p = (k + (m + (1 + n)))%nat).
  { subst p. rewrite !string_length_app. done. }
  assert (Hn : (0 < n)%nat). { subst n. destruct e; [done|simpl; lia]. }
  assert (Hchars : rev (Js.chars p) =
    rev (Js.chars e) ++ Path.dot :: (rev (Js.chars stem) ++ rev (Js.chars pre))).
  { subst p. rewrite !chars_app, !rev_app_distr. simpl. rewrite <- !app_assoc. done. }
  rewrite Hchars.
  rewrite ext_scan_plain_init; [|by apply Forall_rev|
    apply rev_nonempty; by apply chars_nonempty|lia].
  rewrite !length_rev, !length_chars. fold n.
  rewrite ext_scan_dot by lia.
  rewrite ext_scan_stem; [|by apply Forall_rev|lia|lia].
  rewrite !length_rev, !length_chars. fold m.
  match goal with |- context [Path.ext_scan _ ?i (Path.Build_ExtScan ?d ?sp ?en _ ?pd)] =>
    destruct (ext_scan_segmentStart pre i d sp en pd Hpre) as [sp' ->];
    assert (Hpd : pd <> 0)
      by (apply preDotAfter_nonzero, rev_nonempty; by apply chars_nonempty)
  end.
  cbn [Path.startDot Path.endPos Path.preDotState Path.startPart].
  rewrite Hlen in *.
  repeat match goal with |- context [Z.eqb ?a ?b] =>
    destruct (Z.eqb_spec a b); try lia end.
  all: cbn [orb andb].
  all: try (exfalso; lia).
  all: unfold Js.slice, Js.rel_index; rewrite Hlen.
  all: repeat match goal with |- context [Z.ltb ?a ?b] =>
    destruct (Z.ltb_spec a b); try lia end.
  all: replace (Z.to_nat _) with (String.length (pre +:+ stem))
         by (rewrite string_length_app; fold k m; lia).
  all: replace (Z.to_nat _) with (String.length ("." +:+ e))
         by (rewrite string_length_app; fold n; simpl; lia).
  all: subst p; rewrite <- (append_assoc pre stem); apply substring_app.
Qed.

(** A last segment without a dot has no extension. *)
Lemma extname_no_dot pre base :
  segmentStart pre -> plain base -> base <> "" ->
  Path.extname (pre +:+ base) = "".
Proof.
  intros Hpre Hb Hne. unfold Path.extname.
  rewrite chars_app, rev_app_distr.
  assert (Hlen : (0 < String.length (pre +:+ base))%nat).
  { rewrite string_length_app. destruct base; [done|simpl; lia]. }
  rewrite ext_scan_plain_init; [|by apply Forall_rev|
    apply rev_nonempty; by apply chars_nonempty|lia].
  match goal with |- context [Path.ext_scan _ ?i (Path.Build_ExtScan ?d ?sp ?en _ ?pd)] =>
    destruct (ext_scan_segmentStart pre i d sp en pd Hpre) as [sp' ->]
  end.
  reflexivity.
Qed.

(** A last segment whose only dot is its first character has no
    extension. *)
Lemma extname_dotfile pre base :
  segmentStart pre -> plain base -> base <> "" ->
  Path.extname (pre +:+ "." +:+ base) = "".
Proof.
  intros Hpre Hb Hne. unfold Path.extname.
  rewrite !chars_app, !rev_app_distr. cbn [Js.chars list_ascii_of_string rev app].
  rewrite <- app_assoc. cbn [app].
  assert (Hlen : String.length (pre +:+ "." +:+ base) =
                 (String.length pre + (1 + String.length base))%nat).
  { rewrite !string_length_app. done. }
  assert (Hn : (0 < String.length base)%nat) by (destruct base; [done|simpl; lia]).
  rewrite ext_scan_plain_init; [|by apply Forall_rev|
    apply rev_nonempty; by apply chars_nonempty|lia].
  rewrite ext_scan_dot by lia.
  match goal with |- context [Path.ext_scan _ ?i (Path.Build_ExtScan ?d ?sp ?en _ ?pd)] =>
    destruct (ext_scan_segmentStart pre i d sp en pd Hpre) as [sp' ->]
  end.
  cbn [Path.startDot Path.endPos Path.preDotState Path.startPart].
  change (0 =? 0) with true. by rewrite orb_true_r.
Qed.

(** ** The categorizer *)

Lemma lower_ascii_idem c : Js.lower_ascii (Js.lower_ascii c) = Js.lower_ascii c.
Proof. destruct c as [[] [] [] [] [] [] [] []]; reflexivity. Qed.

Lemma toLowerCase_idem s : Js.toLowerCase (Js.toLowerCase s) = Js.toLowerCase s.
Proof.
  induction s as [|c s IH]; [done|]. simpl. by rewrite lower_ascii_idem, IH.
Qed.

Lemma has_media_dot e : has MEDIA_EXTS ("." +:+ e) = has MEDIA_WORDS e.
Proof. reflexivity. Qed.

Lemma has_log_dot e : has LOG_EXTS ("." +:+ e) = String.eqb e "log".
Proof. unfold has, LOG_EXTS. cbn. by rewrite orb_false_r. Qed.

(** C6, as the code has it.  [categorizeFile] depends on the lower-cased
    path only.  A path with "/cache/" or "/tmp/" is cache; otherwise
    one with "/downloads/" is downloads; otherwise the extension
    decides, and the extension is that of the last path segment: for a
    segment [stem.e] it is [e] (media for the ten media extensions, logs
    for "log"), and a segment without a dot, or whose only dot is its
    first character, has none.  On the files of the scenario the server
    and the client categorizers agree. *)
Theorem categorizeFile_rules (p : string) :
  let lower := Js.toLowerCase p in
  let cacheOrTmp := Js.includes lower "/cache/" || Js.includes lower "/tmp/" in
  (forall q, Js.toLowerCase q = lower -> categorizeFile q = categorizeFile p) /\
  (cacheOrTmp = true -> categorizeFile p = Some cache) /\
  (cacheOrTmp = false -> Js.includes lower "/downloads/" = true ->
   categorizeFile p = Some downloads) /\
  (cacheOrTmp = false -> Js.includes lower "/downloads/" = false ->
   forall pre stem e,
     segmentStart pre -> noSlash stem -> stem <> "" -> plain e -> e <> "" ->
     lower = pre +:+ stem +:+ "." +:+ e ->
     categorizeFile p =
       if has MEDIA_WORDS e then Some media
       else if String.eqb e "log" then Some logs else None) /\
  (cacheOrTmp = false -> Js.includes lower "/downloads/" = false ->
   forall pre base,
     segmentStart pre -> plain base -> base <> "" ->
     lower = pre +:+ base \/ lower = pre +:+ "." +:+ base ->
     categorizeFile p = None) /\
  Forall (fun f => categorizeFile f.2 = categorizeName f.1 f.2) scenarioCorpus.
Proof.
  intros lower cacheOrTmp.
  assert (Hdef : categorizeFile p =
    if cacheOrTmp then Some cache
    else if Js.includes lower "/downloads/" then Some downloads
    else if has MEDIA_EXTS (Path.extname lower) then Some media
    else if has LOG_EXTS (Path.extname lower) then Some logs else None) by reflexivity.
  split; [|split; [|split; [|split; [|split]]]].
  - intros q Hq. unfold categorizeFile. fold lower. by rewrite Hq.
  - intros H. by rewrite Hdef, H.
  - intros H1 H2. by rewrite Hdef, H1, H2.
  - intros H1 H2 pre stem e Hpre Hstem Hsne He Hene Hl.
    rewrite Hdef, H1, H2, Hl, extname_stem_ext by done.
    by rewrite has_media_dot, has_log_dot.
  - intros H1 H2 pre base Hpre Hb Hne [Hl|Hl]; rewrite Hdef, H1, H2, Hl.
    + by rewrite extname_no_dot.
    + by rewrite extname_dotfile.
  - repeat constructor.
Qed.

Lemma categorizeFile_rules_witness :
  categorizeFile "/srv/Movies/Trip.2024.MP4" = Some media /\
  categorizeFile "/srv/notes/.log" = None.
Proof.
  destruct (categorizeFile_rules "/srv/Movies/Trip.2024.MP4") as (_ & _ & _ & H & _).
  destruct (categorizeFile_rules "/srv/notes/.log") as (_ & _ & _ & _ & H' & _).
  split.
  - apply (H eq_refl eq_refl "/srv/movies/" "trip.2024" "mp4"); try done.
    + right. by exists "/srv/movies".
    + unfold noSlash. repeat constructor; discriminate.
    + unfold plain. repeat constructor; discriminate.
  - apply (H' eq_refl eq_refl "/srv/notes/" "log"); try done.
    + right. by exists "/srv/notes".
    + unfold plain. repeat constructor; discriminate.
    + by right.
Defined.

(** C6 as stated fails on the server: for a file named ".log" the text
    after the last dot is "log", and [categorizeFile] gives no
    category, where the client gives logs. *)
Lemma categorizeFile_dotfile :
  categorize_as_worded "/srv/storage/.log" = Some logs /\
  categorizeFile "/srv/storage/.log" = None /\
  categorizeName ".log" "/srv/storage/.log" = Some logs.
Proof. repeat split. Qed.

(** ** Sample evaluations *)

Example categorizeFile_cache : categorizeFile "/srv/Cache/a.MP4" = Some cache.
Proof. reflexivity. Qed.

Example categorizeFile_downloads : categorizeFile "/srv/x/Downloads/a.log" = Some downloads.
Proof. reflexivity. Qed.

Example categorizeFile_media : categorizeFile "/srv/x/movie.tar.GZ" = Some media.
Proof. reflexivity. Qed.

Example categorizeFile_dotted_directory : categorizeFile "/srv/x.log/readme" = None.
Proof. reflexivity. Qed.

Example categorizeName_download_substring :
  categorizeName "mydownloadlist.txt" "content://t/mydownloadlist.txt" = Some downloads /\
  categorizeFile "/srv/mydownloadlist.txt" = None.
Proof. split; reflexivity. Qed.

Example extname_samples :
  Path.extname "a/b/.." = "" /\ Path.extname "a/b.c//" = ".c" /\
  Path.extname "a/b." = "." /\ Path.extname "..log" = ".log" /\
  Path.extname ".index" = "" /\ Path.extname ".index.md" = ".md" /\
  Path.extname "index.coffee.md" = ".md" /\ Path.extname "index" = "".
Proof. repeat split. Qed.

Example path_samples :
  PathOps.resolve "/srv" "/" = "/" /\
  PathOps.join "/" "a.log" = "/a.log" /\
  PathOps.join "./x//y/" "a.log" = "x/y/a.log" /\
  PathOps.resolve "/srv" "../a/./b/" = "/a/b" /\
  PathOps.normalize "../../a/.." = "../.." /\
  PathOps.join "/foo/bar" ".." = "/foo".
Proof. repeat split. Qed.

Example withinRoot_samples :
  Server.withinRoot scenarioConfig "/srv/storage/logs/a.log" = true /\
  Server.withinRoot scenarioConfig "/srv/storage2/a.log" = false /\
  Server.withinRoot scenarioConfig "/srv/storage/../storage2/a.log" = false /\
  Server.withinRoot scenarioConfig "/srv/storage" = false.
Proof. repeat split. Qed.

Example clean_selected_logs_simulated :
  let t := {| Server.scanTime := "t0"; Server.rescanTime := "t1"; Server.nowMs := 17;
              Server.entryTime := "t2" |} in
  let w := {| Server.fs := Server.Dir true scenarioEntries; Server.storeFile := Server.Absent |} in
  forall r w', Server.clean scenarioConfig t (Some (JObj [("categories", JArr [JStr "logs"])])) w
               = (Answer r, w') ->
    Server.r_cleanedMB r = 10 /\ Server.r_cleanedFiles r = 1%N /\ Server.r_simulated r = true.
Proof. intros t w r w'. vm_compute. intros [= <- <-]. repeat split. Qed.

Example clean_inherited_key_throws :
  let t := {| Server.scanTime := "t0"; Server.rescanTime := "t1"; Server.nowMs := 17;
              Server.entryTime := "t2" |} in
  let w := {| Server.fs := Server.Dir true scenarioEntries; Server.storeFile := Server.Absent |} in
  Server.clean scenarioConfig t (Some (JObj [("categories", JArr [JStr "constructor"])])) w
    = (TypeError, w).
Proof. reflexivity. Qed.

(** * Further properties *)

(** ** The order of the walk *)

Lemma emittedBy_Dir current es :
  emittedBy current (Server.Dir true es) =
    directFiles current es ++ emittedBelow current es.
Proof.
  cbn [emittedBy]. f_equal.
  induction es as [|[ename child] es IH]; [done|].
  cbn [emittedBelow]. by rewrite <- IH.
Qed.

Lemma emittedBelow_subdirs current es :
  emittedBelow current es = emittedByStack (rev (subdirs current es)).
Proof.
  unfold emittedByStack.
  induction es as [|[ename child] es IH]; [done|].
  cbn [emittedBelow subdirs]. rewrite IH.
  destruct child as [sz st ok | r es' |]; cbn [isDir andb]; rewrite ?app_nil_r; try done.
  destruct (has Server.IGNORED_DIRS ename); cbn [negb]; rewrite ?app_nil_r; [done|].
  cbn [rev]. rewrite flat_map_app. cbn [flat_map fst snd]. by rewrite app_nil_r.
Qed.

Lemma scanEntries_closed current es files stack :
  Server.scanEntries current es files stack =
    (files ++ directFiles current es, rev (subdirs current es) ++ stack).
Proof.
  revert files stack. induction es as [|[ename child] es IH]; intros files stack.
  - cbn. by rewrite app_nil_r.
  - cbn [Server.scanEntries directFiles subdirs].
    destruct child as [sz [|] ok | r es' |].
    + rewrite IH. unfold recordOf. by rewrite <- app_assoc.
    + apply IH.
    + destruct (has Server.IGNORED_DIRS ename); [apply IH|].
      rewrite IH. cbn [rev]. by rewrite <- app_assoc.
    + apply IH.
Qed.

Lemma walk_closed fuel stack files :
  (stackCount stack <= fuel)%nat ->
  Server.walk fuel stack files = Some (files ++ emittedByStack stack).
Proof.
  intros Hc.
  destruct (walk_total fuel stack files Hc) as [r Hr].
  rewrite Hr. f_equal. clear Hc.
  revert stack files r Hr. induction fuel as [|fuel IH]; intros stack files r Hr.
  - destruct stack as [|[c n] s]; [|discriminate].
    injection Hr as <-. unfold emittedByStack. cbn. by rewrite app_nil_r.
  - destruct stack as [|[c n] s].
    { injection Hr as <-. unfold emittedByStack. cbn. by rewrite app_nil_r. }
    cbn [Server.walk] in Hr. unfold emittedByStack. cbn [flat_map fst snd].
    fold (emittedByStack s).
    destruct n as [sz st ok | [|] es |]; cbn [Server.readdir] in Hr.
    + rewrite (IH _ _ _ Hr). done.
    + rewrite scanEntries_closed in Hr. rewrite (IH _ _ _ Hr).
      rewrite emittedBy_Dir, emittedBelow_subdirs.
      unfold emittedByStack. rewrite flat_map_app, <- !app_assoc. done.
    + rewrite (IH _ _ _ Hr). done.
    + rewrite (IH _ _ _ Hr). done.
Qed.

Lemma walkRoot_closed cfg fs :
  Server.walkRoot cfg fs = emittedBy (Server.STORAGE_ROOT cfg) fs.
Proof.
  apply (walkRoot_eq cfg fs (Server.nodeCount fs)).
  rewrite walk_closed.
  - unfold emittedByStack. cbn. by rewrite app_nil_r.
  - unfold stackCount. simpl. lia.
Qed.

(** X1. The walk of [scanRoot] returns, for a directory that can be
    listed, the records of its regular files in listing order and then
    the records of its subdirectories, the last listed first; a root
    that cannot be listed gives nothing. *)
Theorem walk_order (cfg : Server.Config) (fs : Server.Node) :
  Server.walkRoot cfg fs = emittedBy (Server.STORAGE_ROOT cfg) fs /\
  (forall current es,
     emittedBy current (Server.Dir true es) =
       directFiles current es ++ emittedByStack (rev (subdirs current es))) /\
  (forall current n, Server.readdir n = None -> emittedBy current n = []).
Proof.
  split; [apply walkRoot_closed|]. split.
  - intros current es. by rewrite emittedBy_Dir, emittedBelow_subdirs.
  - intros current [sz st ok | [|] es |]; try done.
Qed.

Lemma walk_order_witness :
  map path (Server.walkRoot scenarioConfig
    (Server.Dir true
       [("a", Server.Dir true [("1.log", Server.File 1 true true)]);
        ("2.log", Server.File 2 true true);
        ("b", Server.Dir true [("3.log", Server.File 3 true true)]);
        ("4.log", Server.File 4 true true)])) =
  ["/srv/storage/2.log"; "/srv/storage/4.log"; "/srv/storage/b/3.log";
   "/srv/storage/a/1.log"] /\
  emittedBy "/srv/storage" Server.Other = [].
Proof.
  split.
  - destruct (walk_order scenarioConfig
      (Server.Dir true
         [("a", Server.Dir true [("1.log", Server.File 1 true true)]);
          ("2.log", Server.File 2 true true);
          ("b", Server.Dir true [("3.log", Server.File 3 true true)]);
          ("4.log", Server.File 4 true true)])) as (H & _ & _).
    rewrite H. reflexivity.
  - destruct (walk_order scenarioConfig Server.Other) as (_ & _ & H).
    apply H. reflexivity.
Defined.

(** What deduplication does to one position (used below). *)
Lemma lookup_markDuplicates (files : list FileRecord) (i : nat) (f : FileRecord) :
  files !! i = Some f ->
  markDuplicates files !! i =
    Some (if hasEarlierCopy (take i files) f then setCategory duplicates f else f).
Proof.
  intros Hf.
  rewrite markDuplicates_markAll, lookup_markAll, Hf. simpl.
  assert (Hnd : NoDup (map fst (buildDuplicateMap files 0 []))).
  { apply keys_build_NoDup. constructor. }
  destruct (hasEarlierCopy (take i files) f) eqn:He.
  - rewrite bool_decide_true; [done|].
    apply hasEarlierCopy_iff in He as (g & j & Hlt & Hg & Hk); [|done].
    apply elem_markedPositions; [done|]. exists (keyOf f).
    rewrite lookupGroup_positions. simpl. apply elem_tail_positionsOf.
    exists f, g, j. rewrite !Nat.sub_0_r. split; [lia|]. done.
  - rewrite bool_decide_false; [done|].
    intros Hin. apply elem_markedPositions in Hin as [k Hin]; [|done].
    rewrite lookupGroup_positions in Hin. simpl in Hin.
    apply elem_tail_positionsOf in Hin as (f' & g & j & Hj & Hf' & Hkf' & Hg & Hkg).
    rewrite !Nat.sub_0_r in *. rewrite Hf in Hf'. injection Hf' as <-.
    assert (hasEarlierCopy (take i files) f = true); [|congruence].
    apply hasEarlierCopy_iff; [done|]. exists g, j. split; [lia|]. split; [done|congruence].
Qed.

Lemma directFiles_category current es :
  Forall (fun f => category f = categorizeFile (path f)) (directFiles current es).
Proof.
  induction es as [|[ename [sz [|] ok | r es' |]] es IH]; cbn [directFiles]; try done.
  constructor; [done|exact IH].
Qed.

Lemma emittedBy_category n :
  forall current,
    Forall (fun f => category f = categorizeFile (path f)) (emittedBy current n).
Proof.
  induction n as [sz st ok | | r es IH] using Node_nested_ind; intros current;
    [constructor|constructor|].
  destruct r; [|constructor].
  rewrite emittedBy_Dir. apply Forall_app. split; [apply directFiles_category|].
  induction IH as [|[ename child] es Hc _ IHes]; [constructor|].
  cbn [emittedBelow]. apply Forall_app. split; [exact IHes|].
  destruct (isDir child && negb (has Server.IGNORED_DIRS ename)); [apply Hc|constructor].
Qed.

(** X2. A regular file listed in the root itself is never displaced by
    a copy deeper in the tree: after deduplication it has the category
    that [categorizeFile] gives its path, unless an earlier file of the
    root listing has its name and size. *)
Theorem root_files_win (cfg : Server.Config) (es : list (string * Server.Node))
    (i : nat) (f : FileRecord)
    (Hf : directFiles (Server.STORAGE_ROOT cfg) es !! i = Some f) :
  markDuplicates (Server.walkRoot cfg (Server.Dir true es)) !! i =
    Some (if hasEarlierCopy (take i (directFiles (Server.STORAGE_ROOT cfg) es)) f
          then setCategory duplicates f else f) /\
  category f = categorizeFile (path f).
Proof.
  split.
  - rewrite walkRoot_closed, emittedBy_Dir.
    pose proof (lookup_lt_Some _ _ _ Hf) as Hlt.
    rewrite (lookup_markDuplicates _ i f) by (by rewrite lookup_app_l).
    by rewrite take_app_le by lia.
  - pose proof (directFiles_category (Server.STORAGE_ROOT cfg) es) as H.
    rewrite Forall_lookup in H. by apply (H i).
Qed.

Lemma root_files_win_witness :
  markDuplicates (Server.walkRoot scenarioConfig (Server.Dir true
    [("d", Server.Dir true [("c.mp4", Server.File fiftyMB true true)]);
     ("c.mp4", Server.File fiftyMB true true)])) !! 0%nat =
  Some {| path := "/srv/storage/c.mp4"; name := "c.mp4"; size := fiftyMB;
          category := Some media |}.
Proof.
  destruct (root_files_win scenarioConfig
    [("d", Server.Dir true [("c.mp4", Server.File fiftyMB true true)]);
     ("c.mp4", Server.File fiftyMB true true)] 0
    {| path := "/srv/storage/c.mp4"; name := "c.mp4"; size := fiftyMB;
       category := Some media |} eq_refl) as [H _].
  exact H.
Defined.

(** ** What a snapshot lists *)

Lemma categorizeFile_not_duplicates p : categorizeFile p <> Some duplicates.
Proof.
  unfold categorizeFile.
  repeat match goal with |- context [if ?b then _ else _] => destruct b end; discriminate.
Qed.

Lemma elem_cf_get (files : list FileRecord) c f :
  f ∈ cf_get (collectCategories files) c <-> f ∈ files /\ category f = Some c.
Proof.
  assert (H : hasCategory c f = true <-> category f = Some c).
  { unfold hasCategory. destruct (category f) as [c'|]; [|done].
    rewrite bool_decide_eq_true. split; congruence. }
  destruct c; cbn [cf_get collectCategories cf_cache cf_downloads cf_duplicates
                   cf_media cf_logs]; rewrite list_elem_of_filter; tauto.
Qed.

(** X3. In a server snapshot the file walked at a position is listed
    under duplicates exactly when an earlier walked file has its name
    and size, and under another category exactly when no earlier file
    has them and [categorizeFile] gives that category for its path;
    otherwise it is in no list. *)
Theorem snapshot_lists (cfg : Server.Config) (now : string) (fs : Server.Node)
    (i : nat) (f : FileRecord) (Hf : Server.walkRoot cfg fs !! i = Some f) :
  let snap := Server.scanRoot cfg now fs in
  let earlier := hasEarlierCopy (take i (Server.walkRoot cfg fs)) f in
  let f' := if earlier then setCategory duplicates f else f in
  markDuplicates (Server.walkRoot cfg fs) !! i = Some f' /\
  (f' ∈ cf_duplicates (Server.categoryFiles snap) <-> earlier = true) /\
  (forall c, c <> duplicates ->
     (f' ∈ cf_get (Server.categoryFiles snap) c <->
      earlier = false /\ categorizeFile (path f) = Some c)).
Proof.
  intros snap earlier f'.
  pose proof (lookup_markDuplicates _ i f Hf) as Hm. fold earlier f' in Hm.
  assert (Hin : f' ∈ markDuplicates (Server.walkRoot cfg fs)).
  { apply list_elem_of_lookup. by exists i. }
  assert (Hcat : category f = categorizeFile (path f)).
  { rewrite walkRoot_closed in Hf.
    pose proof (emittedBy_category fs (Server.STORAGE_ROOT cfg)) as H.
    rewrite Forall_lookup in H. by apply (H i). }
  split; [exact Hm|]. split.
  - change (cf_duplicates (Server.categoryFiles snap))
      with (cf_get (Server.categoryFiles snap) duplicates).
    subst snap. unfold Server.scanRoot, Server.summarize. cbn [Server.categoryFiles].
    rewrite elem_cf_get. subst f'. destruct earlier; cbn.
    + split; [done|]. intros _. split; [exact Hin|done].
    + split; [|done]. intros [_ H]. rewrite Hcat in H.
      by apply categorizeFile_not_duplicates in H.
  - intros c Hc. subst snap. unfold Server.scanRoot, Server.summarize.
    cbn [Server.categoryFiles]. rewrite elem_cf_get. subst f'. destruct earlier; cbn.
    + split; [intros [_ [= <-]]; done | intros [? _]; done].
    + rewrite <- Hcat. split; [intros [_ H]; done | intros [_ H]; done].
Qed.

Lemma snapshot_lists_witness :
  let walked := Server.walkRoot scenarioConfig (Server.Dir true scenarioEntries) in
  let f := {| path := "/srv/storage/d/c.mp4"; name := "c.mp4"; size := fiftyMB;
              category := Some media |} in
  setCategory duplicates f ∈
    cf_duplicates (Server.categoryFiles
      (Server.scanRoot scenarioConfig "" (Server.Dir true scenarioEntries))).
Proof.
  intros walked f.
  destruct (snapshot_lists scenarioConfig "" (Server.Dir true scenarioEntries) 2 f eq_refl)
    as (_ & H & _).
  apply H. reflexivity.
Defined.

(** ** Rounding *)

Lemma sumSizes_cons f files : sumSizes (f :: files) = (size f + sumSizes files)%N.
Proof. unfold sumSizes. cbn [foldl]. rewrite sumSizes_from. unfold sumSizes. lia. Qed.

Lemma toMB_window (b : Z) :
  0 <= b -> 2 * MB * Server.toMB b - MB <= 2 * b < 2 * MB * Server.toMB b + MB.
Proof.
  intros Hb. unfold Server.toMB, Js.round_div, MB.
  change (1024 * 1024) with 1048576.
  pose proof (Z.div_mod (2 * b + 1048576) (2 * 1048576) ltac:(lia)) as Hdm.
  pose proof (Z.mod_pos_bound (2 * b + 1048576) (2 * 1048576) ltac:(lia)) as Hm.
  assert (0 <= (2 * b + 1048576) / (2 * 1048576)) by (apply Z.div_pos; lia).
  lia.
Qed.

(** X4. [toMB] is never negative, is 0 for a negative byte count, does
    not decrease when the byte count grows, and for a non-negative byte
    count is within half a megabyte of it, a half rounding up. *)
Theorem toMB_rounds (b b' : Z) :
  0 <= Server.toMB b /\
  (b < 0 -> Server.toMB b = 0) /\
  (b <= b' -> Server.toMB b <= Server.toMB b') /\
  (0 <= b -> 2 * MB * Server.toMB b - MB <= 2 * b < 2 * MB * Server.toMB b + MB).
Proof.
  split; [unfold Server.toMB; lia|]. split; [|split; [|apply toMB_window]].
  - intros Hb. unfold Server.toMB, Js.round_div, MB. change (1024 * 1024) with 1048576.
    assert ((2 * b + 1048576) / (2 * 1048576) < 1); [|lia].
    apply Z.div_lt_upper_bound; lia.
  - intros Hle. unfold Server.toMB, Js.round_div, MB. change (1024 * 1024) with 1048576.
    apply Z.max_le_compat_l. apply Z.div_le_mono; lia.
Qed.

Lemma toMB_rounds_witness :
  Server.toMB 524288 = 1 /\ Server.toMB 524287 = 0 /\ Server.toMB (-3) = 0.
Proof.
  destruct (toMB_rounds (-3) 524288) as (_ & Hneg & _ & _).
  split; [reflexivity|]. split; [reflexivity|]. apply Hneg. lia.
Defined.

Lemma sumSizes_filter_cons c f files :
  sumSizes (filter (fun f => hasCategory c f = true) (f :: files)) =
    ((if hasCategory c f then size f else 0) +
     sumSizes (filter (fun f => hasCategory c f = true) files))%N.
Proof.
  rewrite filter_cons. case_decide as E; rewrite ?sumSizes_cons.
  - by rewrite E.
  - apply not_true_is_false in E. rewrite E. lia.
Qed.

Lemma reclaimableBytes_le (files : list FileRecord) :
  (reclaimableBytes (collectCategories files) <= sumSizes files)%N.
Proof.
  unfold reclaimableBytes, collectCategories.
  cbn [cf_cache cf_downloads cf_duplicates cf_media cf_logs].
  induction files as [|f files IH]; [done|].
  rewrite !sumSizes_filter_cons, sumSizes_cons.
  assert (((if hasCategory cache f then size f else 0) +
           (if hasCategory downloads f then size f else 0) +
           (if hasCategory duplicates f then size f else 0) +
           (if hasCategory media f then size f else 0) +
           (if hasCategory logs f then size f else 0) <= size f)%N).
  { unfold hasCategory. destruct (category f) as [[]|];
      repeat first [rewrite bool_decide_true by done | rewrite bool_decide_false by done];
      lia. }
  lia.
Qed.

Lemma drift_bound (a b c d e : Z) :
  0 <= a -> 0 <= b -> 0 <= c -> 0 <= d -> 0 <= e ->
  -2 <= Server.toMB a + Server.toMB b + Server.toMB c + Server.toMB d + Server.toMB e
        - Server.toMB (a + b + c + d + e) <= 2.
Proof.
  intros Ha Hb Hc Hd He.
  pose proof (toMB_window a Ha). pose proof (toMB_window b Hb).
  pose proof (toMB_window c Hc). pose proof (toMB_window d Hd).
  pose proof (toMB_window e He).
  pose proof (toMB_window (a + b + c + d + e) ltac:(lia)).
  unfold MB in *. change (1024 * 1024) with 1048576 in *. lia.
Qed.

(** X5. In every snapshot the reclaimable total, a sum of five rounded
    figures, is within 2 MB of the rounded byte total of the five
    lists; those bytes are at most the bytes of all files, so the
    reclaimable total exceeds the used total by at most 2 MB -- and it
    can exceed it. *)
Theorem reclaimable_drift (now : string) (walked : list FileRecord) :
  let snap := Server.summarize now walked in
  let bytes := reclaimableBytes (Server.categoryFiles snap) in
  -2 <= Server.totalReclaimableMB snap - Server.toMB (Z.of_N bytes) <= 2 /\
  (bytes <= sumSizes walked)%N /\
  Server.totalReclaimableMB snap <= Server.totalUsedMB snap + 2 /\
  Client.totalReclaimableMB (Client.buildCategories walked) <=
    Client.totalUsedMB (Client.buildCategories walked) + 2 /\
  (exists files, let s := Server.summarize now files in
     Server.totalReclaimableMB s = Server.totalUsedMB s + 2).
Proof.
  intros snap bytes.
  assert (Hle : (bytes <= sumSizes walked)%N).
  { subst bytes snap. unfold Server.summarize. cbn [Server.categoryFiles].
    rewrite <- (sumSizes_markDuplicates walked). apply reclaimableBytes_le. }
  assert (Hd : -2 <= Server.totalReclaimableMB snap - Server.toMB (Z.of_N bytes) <= 2).
  { subst bytes snap. unfold Server.summarize, reclaimableBytes.
    cbn [Server.totalReclaimableMB Server.categoryFiles Server.summaries foldl sizeMB].
    set (cf := collectCategories (markDuplicates walked)).
    pose proof (drift_bound (Z.of_N (sumSizes (cf_cache cf)))
      (Z.of_N (sumSizes (cf_downloads cf))) (Z.of_N (sumSizes (cf_duplicates cf)))
      (Z.of_N (sumSizes (cf_media cf))) (Z.of_N (sumSizes (cf_logs cf)))
      ltac:(lia) ltac:(lia) ltac:(lia) ltac:(lia) ltac:(lia)) as H.
    rewrite !N2Z.inj_add. lia. }
  assert (Hu : Server.totalReclaimableMB snap <= Server.totalUsedMB snap + 2).
  { assert (Server.toMB (Z.of_N bytes) <= Server.totalUsedMB snap); [|lia].
    subst snap. unfold Server.summarize. cbn [Server.totalUsedMB].
    rewrite sumSizes_markDuplicates.
    unfold Server.toMB. apply Z.max_le_compat_l. apply Z.div_le_mono; [done|lia]. }
  split; [exact Hd|]. split; [exact Hle|]. split; [exact Hu|]. split.
  - assert (Hc : Client.totalReclaimableMB (Client.buildCategories walked) =
                 Server.totalReclaimableMB snap).
    { subst snap. unfold Client.buildCategories, Server.summarize.
      cbn [Client.totalReclaimableMB Server.totalReclaimableMB Server.summaries foldl sizeMB
           Client.summarize cf_get].
      unfold Client.roundMB. rewrite <- !toMB_of_N. done. }
    assert (Hcu : Client.totalUsedMB (Client.buildCategories walked) =
                  Server.totalUsedMB snap).
    { subst snap. unfold Client.buildCategories, Server.summarize.
      cbn [Client.totalUsedMB Server.totalUsedMB]. unfold Client.roundMB.
      by rewrite <- toMB_of_N. }
    rewrite Hc, Hcu. exact Hu.
  - exists (map (fun c => {| path := "/r/f"; name := Js.num_to_string (N.of_nat c.1);
                            size := 524288; category := Some c.2 |})
              [(0%nat, cache); (1%nat, downloads); (2%nat, media); (3%nat, logs)] ++
            [ {| path := "/r/g"; name := "g"; size := 524288; category := None |};
              {| path := "/r/h"; name := "g"; size := 524288; category := None |} ]).
    vm_compute. reflexivity.
Qed.

(** ** Selections *)

Lemma collectTargets_closed cf ids acc :
  Server.collectTargets cf ids acc =
    if existsb throwsOn ids then TypeError
    else Answer (acc ++ flat_map (contribution cf) ids).
Proof.
  revert acc. induction ids as [|v ids IH]; intros acc.
  - cbn. by rewrite app_nil_r.
  - cbn [Server.collectTargets existsb flat_map]. unfold throwsOn at 1, contribution at 1.
    destruct (Server.propertyKey v) as [k|]; [|done].
    destruct (Server.categoryOfKey k) as [c|].
    + rewrite IH. cbn [orb]. destruct (existsb throwsOn ids); [done|].
      by rewrite app_assoc.
    + destruct (has Server.OBJECT_PROTOTYPE_KEYS k); [done|].
      rewrite IH. cbn [orb app]. done.
Qed.

Lemma newSet_seen items seen v : v ∈ seen -> v ∈ Server.newSet items seen.
Proof.
  revert seen. induction items as [|x items IH]; intros seen Hv; cbn [Server.newSet].
  - by rewrite list_elem_of_In, <- in_rev, <- list_elem_of_In.
  - destruct (existsb (Server.sameValueZero x) seen); apply IH; [done|by right].
Qed.

Lemma sameValueZero_JStr k x : Server.sameValueZero (JStr k) x = true -> x = JStr k.
Proof.
  destruct x; try discriminate. cbn. intros H%String.eqb_eq. by subst.
Qed.

Lemma newSet_keeps_string items seen k :
  JStr k ∈ items -> JStr k ∈ Server.newSet items seen.
Proof.
  revert seen. induction items as [|x items IH]; intros seen Hin; [by apply elem_of_nil in Hin|].
  cbn [Server.newSet]. apply elem_of_cons in Hin as [<-|Hin].
  - destruct (existsb (Server.sameValueZero (JStr k)) seen) eqn:E.
    + apply existsb_exists in E as (s & Hs & E). apply sameValueZero_JStr in E. subst s.
      apply newSet_seen. by apply list_elem_of_In.
    + apply newSet_seen. by left.
  - destruct (existsb (Server.sameValueZero x) seen); by apply IH.
Qed.

(** X6. A selection that names a property every object inherits, such
    as "constructor" or "toString", makes the handler throw before it
    deletes or records anything, whatever else is selected and whatever
    the mode. *)
Theorem inherited_name_aborts
    (cfg : Server.Config) (t : Server.Times) (w : Server.World)
    (items : list Json) (k : string)
    (Hk : has Server.OBJECT_PROTOTYPE_KEYS k = true) (Hin : JStr k ∈ items) :
  Server.clean cfg t (selecting items) w = (TypeError, w) /\
  Runs.recorded cfg t (selecting items) w = [].
Proof.
  assert (Hc : Server.clean cfg t (selecting items) w = (TypeError, w)).
  { unfold Server.clean. rewrite collectTargets_closed.
    assert (Hex : existsb throwsOn (Server.targetIds (selecting items)) = true).
    { apply existsb_exists. exists (JStr k). split.
      - apply list_elem_of_In. cbn. apply newSet_keeps_string, Hin.
      - unfold throwsOn. cbn [Server.propertyKey].
        destruct (Server.categoryOfKey k) eqn:E; [|done].
        exfalso. unfold Server.categoryOfKey in E.
        repeat match type of E with
               | (if String.eqb ?a ?b then _ else _) = _ =>
                   destruct (String.eqb_spec a b) as [->|]; [discriminate Hk|]
               end.
        discriminate. }
    by rewrite Hex. }
  split; [exact Hc|]. unfold Runs.recorded. by rewrite Hc.
Qed.

Lemma inherited_name_aborts_witness :
  let cfg := {| Server.STORAGE_ROOT := "/srv/storage"; Server.ALLOW_DELETE := true;
                Server.cwd := "/srv" |} in
  let t := {| Server.scanTime := "t0"; Server.rescanTime := "t1"; Server.nowMs := 17;
              Server.entryTime := "t2" |} in
  let w := {| Server.fs := Server.Dir true scenarioEntries; Server.storeFile := Server.Absent |} in
  Server.clean cfg t (selecting [JStr "logs"; JStr "toString"]) w = (TypeError, w).
Proof.
  intros cfg t w.
  assert (Hin : JStr "toString" ∈ [JStr "logs"; JStr "toString"]) by (right; left).
  destruct (inherited_name_aborts cfg t w [JStr "logs"; JStr "toString"] "toString"
              eq_refl Hin) as [H _].
  exact H.
Defined.

Lemma contribution_unknown cf ids :
  Forall (fun v => forall k, Server.propertyKey v = Some k ->
                     Server.categoryOfKey k = None) ids ->
  flat_map (contribution cf) ids = [].
Proof.
  induction 1 as [|v ids Hv _ IH]; [done|]. cbn [flat_map]. rewrite IH, app_nil_r.
  unfold contribution. destruct (Server.propertyKey v) as [k|]; [|done].
  by rewrite (Hv k eq_refl).
Qed.

(** X7. When no selected id throws, the candidates are the lists of the
    selected ids in order, an id that is not one of the five names
    contributing nothing; so a selection of unknown names only is
    answered as a clean of nothing, with the tree unchanged. *)
Theorem unknown_ids_contribute_nothing
    (cfg : Server.Config) (t : Server.Times) (body : option Json) (w : Server.World)
    (Hok : existsb throwsOn (Server.targetIds body) = false) :
  let cf := Server.categoryFiles (Server.scanRoot cfg (Server.scanTime t) (Server.fs w)) in
  let d := Server.deletePhase cfg (flat_map (contribution cf) (Server.targetIds body))
             (Server.fs w) in
  exists r w',
    Server.clean cfg t body w = (Answer r, w') /\
    Server.fs w' = Server.fsAfter d /\
    Server.r_cleanedFiles r = Server.cleanedFiles d /\
    Server.r_cleanedMB r = Server.toMB (Z.of_N (Server.cleanedBytes d)) /\
    (Forall (fun v => forall k, Server.propertyKey v = Some k ->
                        Server.categoryOfKey k = None) (Server.targetIds body) ->
     Server.fs w' = Server.fs w /\ Server.r_cleanedFiles r = 0%N /\
     Server.r_cleanedMB r = 0).
Proof.
  intros cf d.
  assert (Hct : Server.collectTargets cf (Server.targetIds body) [] =
                Answer (flat_map (contribution cf) (Server.targetIds body))).
  { rewrite collectTargets_closed, Hok. done. }
  rewrite (clean_of_targets _ _ _ _ _ Hct). fold d.
  eexists _, _. split; [reflexivity|]. cbn.
  split; [done|]. split; [done|]. split; [done|].
  intros Hall.
  pose proof (contribution_unknown cf _ Hall) as Hnil.
  subst d. rewrite Hnil. unfold Server.deletePhase.
  destruct (Server.ALLOW_DELETE cfg); cbn; done.
Qed.

Lemma unknown_ids_contribute_nothing_witness :
  let cfg := {| Server.STORAGE_ROOT := "/srv/storage"; Server.ALLOW_DELETE := true;
                Server.cwd := "/srv" |} in
  let t := {| Server.scanTime := "t0"; Server.rescanTime := "t1"; Server.nowMs := 17;
              Server.entryTime := "t2" |} in
  let w := {| Server.fs := Server.Dir true scenarioEntries; Server.storeFile := Server.Absent |} in
  exists r w',
    Server.clean cfg t (selecting [JStr "videos"; JNum 3; JNull]) w = (Answer r, w') /\
    Server.fs w' = Server.fs w /\ Server.r_cleanedFiles r = 0%N.
Proof.
  intros cfg t w.
  destruct (unknown_ids_contribute_nothing cfg t
              (selecting [JStr "videos"; JNum 3; JNull]) w eq_refl)
    as (r & w' & Hc & _ & _ & _ & H).
  exists r, w'. split; [exact Hc|].
  assert (Hall : Forall (fun v => forall k, Server.propertyKey v = Some k ->
                           Server.categoryOfKey k = None)
                   (Server.targetIds (selecting [JStr "videos"; JNum 3; JNull])))
    by (repeat constructor; intros k [= <-]; reflexivity).
  destruct (H Hall) as (H1 & H2 & _).
  split; [exact H1 | exact H2].
Defined.

Lemma categoryOfKey_keyName c : Server.categoryOfKey (keyName c) = Some c.
Proof. by destruct c. Qed.

Lemma targetIds_repeated c :
  Server.targetIds (selecting [JStr (keyName c); JStr (keyName c)]) = [JStr (keyName c)].
Proof. by destruct c. Qed.

Lemma targetIds_aliased c :
  Server.targetIds (selecting [JStr (keyName c); JArr [JStr (keyName c)]]) =
    [JStr (keyName c); JArr [JStr (keyName c)]].
Proof. by destruct c. Qed.

Lemma sumSizes_app (a b : list FileRecord) :
  sumSizes (a ++ b) = (sumSizes a + sumSizes b)%N.
Proof.
  induction a as [|f a IH]; [simpl; unfold sumSizes at 2; simpl; lia|].
  cbn [app]. rewrite !sumSizes_cons, IH. lia.
Qed.

(** X8. With deletion disabled, naming a category twice counts its
    files once, because the ids go through a [Set]; naming it once as a
    string and once as a one-element array counts them twice, because
    the array is another [Set] element with the same property key. *)
Theorem aliased_ids_count_twice
    (cfg : Server.Config) (t : Server.Times) (w : Server.World) (c : CategoryId)
    (Hoff : Server.ALLOW_DELETE cfg = false) :
  let files :=
    cf_get (Server.categoryFiles (Server.scanRoot cfg (Server.scanTime t) (Server.fs w))) c in
  (exists r w',
     Server.clean cfg t (selecting [JStr (keyName c); JStr (keyName c)]) w = (Answer r, w') /\
     Server.r_cleanedFiles r = N.of_nat (length files) /\
     Server.r_cleanedMB r = Server.toMB (Z.of_N (sumSizes files))) /\
  (exists r w',
     Server.clean cfg t (selecting [JStr (keyName c); JArr [JStr (keyName c)]]) w
       = (Answer r, w') /\
     Server.r_cleanedFiles r = (2 * N.of_nat (length files))%N /\
     Server.r_cleanedMB r = Server.toMB (Z.of_N (2 * sumSizes files))).
Proof.
  intros files. split.
  - assert (Hct : Server.collectTargets
        (Server.categoryFiles (Server.scanRoot cfg (Server.scanTime t) (Server.fs w)))
        (Server.targetIds (selecting [JStr (keyName c); JStr (keyName c)])) [] = Answer files).
    { rewrite targetIds_repeated. cbn [Server.collectTargets Server.propertyKey].
      rewrite categoryOfKey_keyName. done. }
    rewrite (clean_of_targets _ _ _ _ _ Hct). eexists _, _. split; [reflexivity|].
    unfold Server.deletePhase. rewrite Hoff. cbn. done.
  - assert (Hkey : Server.propertyKey (JArr [JStr (keyName c)]) = Some (keyName c))
      by (by destruct c).
    assert (Hct : Server.collectTargets
        (Server.categoryFiles (Server.scanRoot cfg (Server.scanTime t) (Server.fs w)))
        (Server.targetIds (selecting [JStr (keyName c); JArr [JStr (keyName c)]])) []
        = Answer (files ++ files)).
    { rewrite targetIds_aliased. cbn [Server.collectTargets]. rewrite Hkey.
      cbn [Server.propertyKey]. rewrite categoryOfKey_keyName. done. }
    rewrite (clean_of_targets _ _ _ _ _ Hct). eexists _, _. split; [reflexivity|].
    unfold Server.deletePhase. rewrite Hoff. cbn.
    rewrite length_app, sumSizes_app. split; [lia|]. f_equal. lia.
Qed.

Lemma aliased_ids_count_twice_witness :
  let t := {| Server.scanTime := "t0"; Server.rescanTime := "t1"; Server.nowMs := 17;
              Server.entryTime := "t2" |} in
  let w := {| Server.fs := Server.Dir true scenarioEntries; Server.storeFile := Server.Absent |} in
  exists r w',
    Server.clean scenarioConfig t (selecting [JStr "logs"; JArr [JStr "logs"]]) w
      = (Answer r, w') /\
    Server.r_cleanedFiles r = 2%N /\ Server.r_cleanedMB r = 20.
Proof.
  intros t w.
  destruct (aliased_ids_count_twice scenarioConfig t w logs eq_refl)
    as (_ & r & w' & Hc & Hn & Hmb).
  exists r, w'. split; [exact Hc|]. split; [exact Hn | exact Hmb].
Defined.

Lemma client_collectTargets_unknown cf ids acc k :
  k ∈ ids -> Server.categoryOfKey k = None ->
  Client.collectTargets cf ids acc = TypeError.
Proof.
  intros Hin Hk. revert acc. induction ids as [|x ids IH]; intros acc.
  - by apply elem_of_nil in Hin.
  - cbn [Client.collectTargets]. apply elem_of_cons in Hin as [<-|Hin].
    + by rewrite Hk.
    + destruct (Server.categoryOfKey x); [by apply IH|done].
Qed.

(** X9. A device clean whose selection holds an id that is not one of
    the five category names fails as a whole: the exception is caught
    before the deletion loop, so no file is deleted and no history
    entry is stored, even for the valid ids selected with it. *)
Theorem device_clean_unknown_id
    (decode : string -> option string) (uri : string) (ids : list string)
    (now : Z) (time : string) (writable : bool) (dev : Client.Device) (k : string)
    (Hin : k ∈ ids) (Hk : Server.categoryOfKey k = None) :
  Client.runDeviceClean decode uri ids now time writable dev = (TypeError, dev).
Proof.
  unfold Client.runDeviceClean.
  by rewrite (client_collectTargets_unknown _ ids [] k Hin Hk).
Qed.

Lemma device_clean_unknown_id_witness :
  let dev := {| Client.root := safIgnoredTree; Client.item := Client.NoItem |} in
  Client.runDeviceClean decodeId "content://documents/tree/proj" ["logs"; "videos"]
    17 "t" true dev = (TypeError, dev).
Proof.
  intros dev.
  assert (Hin : "videos" ∈ ["logs"; "videos"]) by (right; left).
  exact (device_clean_unknown_id decodeId "content://documents/tree/proj"
           ["logs"; "videos"] 17 "t" true dev "videos" Hin eq_refl).
Defined.

(** ** What deletion touches *)

Lemma canUnlink_Dir t cur r es :
  Server.canUnlink t cur (Server.Dir r es) = canUnlinkIn t cur es.
Proof. reflexivity. Qed.

Lemma canUnlinkIn_cons t cur ename child rest :
  canUnlinkIn t cur ((ename, child) :: rest) =
    (match child with
     | Server.File _ _ ok => ok && String.eqb (PathOps.join cur ename) t
     | _ => Server.canUnlink t (PathOps.join cur ename) child
     end) || canUnlinkIn t cur rest.
Proof. destruct child; reflexivity. Qed.

Lemma withoutFiles_Dir r es :
  withoutFiles (Server.Dir r es) = Server.Dir r (withoutFilesIn es).
Proof. reflexivity. Qed.

Lemma withoutFilesIn_cons ename child rest :
  withoutFilesIn ((ename, child) :: rest) =
    match child with
    | Server.File _ _ _ => withoutFilesIn rest
    | _ => (ename, withoutFiles child) :: withoutFilesIn rest
    end.
Proof. destruct child; reflexivity. Qed.

Lemma allDeletable_Dir r es : allDeletable (Server.Dir r es) = allDeletableIn es.
Proof. reflexivity. Qed.

Lemma allDeletableIn_cons ename child rest :
  allDeletableIn ((ename, child) :: rest) = allDeletable child && allDeletableIn rest.
Proof. reflexivity. Qed.

(** Unlinking a path at which nothing can be unlinked changes nothing. *)
Lemma removeFile_none t n :
  forall cur, Server.canUnlink t cur n = false -> Server.removeFile t cur n = n.
Proof.
  induction n as [sz st ok | | r es IH] using Node_nested_ind; intros cur; [done|done|].
  rewrite canUnlink_Dir, removeFile_Dir. intros H. f_equal.
  induction IH as [|[ename child] es Hc _ IHes]; [done|].
  rewrite canUnlinkIn_cons in H. apply orb_false_iff in H as [H1 H2].
  rewrite removeEntries_cons. cbn [snd] in Hc.
  destruct child as [sz st ok | r' es' |].
  - rewrite H1. by rewrite IHes.
  - by rewrite (Hc _ H1), IHes.
  - by rewrite IHes.
Qed.

Lemma hasFile_removeFile_mono p t n :
  forall cur, hasFile p cur (Server.removeFile t cur n) = true -> hasFile p cur n = true.
Proof.
  induction n as [sz st ok | | r es IH] using Node_nested_ind; intros cur; [done|done|].
  rewrite removeFile_Dir, !hasFile_Dir.
  induction IH as [|[ename child] es Hc _ IHes]; [done|].
  rewrite removeEntries_cons, hasFileIn_cons. cbn [snd] in Hc.
  destruct child as [sz st ok | r' es' |].
  - destruct (ok && String.eqb (PathOps.join cur ename) t).
    + intros H. rewrite (IHes H). apply orb_true_r.
    + rewrite hasFileIn_cons. intros [H|H]%orb_true_iff; [by rewrite H|].
      rewrite (IHes H). apply orb_true_r.
  - rewrite hasFileIn_cons. intros [H|H]%orb_true_iff.
    + by rewrite (Hc _ H).
    + rewrite (IHes H). apply orb_true_r.
  - rewrite hasFileIn_cons. intros [H|H]%orb_true_iff; [done|].
    rewrite (IHes H). apply orb_true_r.
Qed.

Lemma withoutFiles_removeFile t n :
  forall cur, withoutFiles (Server.removeFile t cur n) = withoutFiles n.
Proof.
  induction n as [sz st ok | | r es IH] using Node_nested_ind; intros cur; [done|done|].
  rewrite removeFile_Dir, !withoutFiles_Dir. f_equal.
  induction IH as [|[ename child] es Hc _ IHes]; [done|].
  rewrite removeEntries_cons, withoutFilesIn_cons. cbn [snd] in Hc.
  destruct child as [sz st ok | r' es' |].
  - destruct (ok && String.eqb (PathOps.join cur ename) t); [done|].
    by rewrite withoutFilesIn_cons.
  - rewrite removeFile_Dir, withoutFilesIn_cons, <- removeFile_Dir, Hc, IHes. done.
  - by rewrite withoutFilesIn_cons, IHes.
Qed.

Lemma removeAll_cons cfg f files fs :
  removeAll cfg (f :: files) fs =
    removeAll cfg files (Server.removeFile (path f) (Server.STORAGE_ROOT cfg) fs).
Proof. reflexivity. Qed.

(** The deletion loop leaves the tree that unlinking the candidates
    inside the root one after the other leaves. *)
Lemma deleteLoop_removeAll cfg files fs bytes count :
  (Server.deleteLoop cfg files fs bytes count).1.1 = removeAll cfg (insideRoot cfg files) fs.
Proof.
  rewrite deleteLoop_insideRoot.
  assert (Hin : Forall (fun f => Server.withinRoot cfg (path f) = true) (insideRoot cfg files)).
  { apply Forall_forall. intros f Hf. unfold insideRoot in Hf.
    by apply list_elem_of_filter in Hf as [? _]. }
  revert fs bytes count. induction Hin as [|f l Hf _ IH]; intros fs bytes count; [done|].
  rewrite deleteLoop_cons, Hf. cbn [negb]. rewrite removeAll_cons.
  unfold Server.unlink, Server.unlinkAt.
  destruct (Server.canUnlink (path f) (Server.STORAGE_ROOT cfg) fs) eqn:E.
  - apply IH.
  - rewrite (removeFile_none _ _ _ E). apply IH.
Qed.

Lemma removeAll_frame cfg p files fs :
  p ∉ map path files ->
  hasFile p (Server.STORAGE_ROOT cfg) (removeAll cfg files fs) =
    hasFile p (Server.STORAGE_ROOT cfg) fs.
Proof.
  revert fs. induction files as [|f files IH]; intros fs Hp; [done|].
  rewrite removeAll_cons.
  cbn [map] in Hp. apply not_elem_of_cons in Hp as [Hne Hp].
  rewrite IH by done. by apply hasFile_removeFile.
Qed.

Lemma removeAll_mono cfg p files fs :
  hasFile p (Server.STORAGE_ROOT cfg) (removeAll cfg files fs) = true ->
  hasFile p (Server.STORAGE_ROOT cfg) fs = true.
Proof.
  revert fs. induction files as [|f files IH]; intros fs; [done|].
  rewrite removeAll_cons.
  intros H. apply IH in H. by apply hasFile_removeFile_mono in H.
Qed.

Lemma removeAll_withoutFiles cfg files fs :
  withoutFiles (removeAll cfg files fs) = withoutFiles fs.
Proof.
  revert fs. induction files as [|f files IH]; intros fs; [done|].
  rewrite removeAll_cons.
  by rewrite IH, withoutFiles_removeFile.
Qed.

Lemma fsAfter_deletePhase cfg files fs :
  Server.fsAfter (Server.deletePhase cfg files fs) =
    if Server.ALLOW_DELETE cfg then removeAll cfg (insideRoot cfg files) fs else fs.
Proof.
  unfold Server.deletePhase. destruct (Server.ALLOW_DELETE cfg); [|done].
  pose proof (deleteLoop_removeAll cfg files fs 0 0) as H.
  by destruct (Server.deleteLoop cfg files fs 0 0) as [[fs' b] c].
Qed.

(** X10. A clean removes regular files only: no regular file appears
    that was not there, directories and entries of other kinds are
    left as they were, even a directory the clean has emptied; and a
    file whose path is not the path of a candidate inside the root is
    there afterwards exactly if it was before. *)
Theorem clean_removes_files_only
    (cfg : Server.Config) (t : Server.Times) (body : option Json) (w : Server.World) :
  let w' := (Server.clean cfg t body w).2 in
  withoutFiles (Server.fs w') = withoutFiles (Server.fs w) /\
  (forall p, hasFile p (Server.STORAGE_ROOT cfg) (Server.fs w') = true ->
             hasFile p (Server.STORAGE_ROOT cfg) (Server.fs w) = true) /\
  (forall files fs p,
     p ∉ map path (insideRoot cfg files) ->
     hasFile p (Server.STORAGE_ROOT cfg) (Server.fsAfter (Server.deletePhase cfg files fs)) =
       hasFile p (Server.STORAGE_ROOT cfg) fs).
Proof.
  intros w'. subst w'. unfold Server.clean.
  destruct (Server.collectTargets _ _ _) as [files|]; cbn [snd Server.fs].
  - rewrite fsAfter_deletePhase. split; [|split].
    + destruct (Server.ALLOW_DELETE cfg); [apply removeAll_withoutFiles|done].
    + intros p. destruct (Server.ALLOW_DELETE cfg); [apply removeAll_mono|done].
    + intros files' fs p Hp. rewrite fsAfter_deletePhase.
      destruct (Server.ALLOW_DELETE cfg); [by apply removeAll_frame|done].
  - split; [done|]. split; [done|].
    intros files' fs p Hp. rewrite fsAfter_deletePhase.
    destruct (Server.ALLOW_DELETE cfg); [by apply removeAll_frame|done].
Qed.

Lemma clean_removes_files_only_witness :
  let cfg := {| Server.STORAGE_ROOT := "/srv/storage"; Server.ALLOW_DELETE := true;
                Server.cwd := "/srv" |} in
  let t := {| Server.scanTime := "t0"; Server.rescanTime := "t1"; Server.nowMs := 17;
              Server.entryTime := "t2" |} in
  let w := {| Server.fs := Server.Dir true scenarioEntries; Server.storeFile := Server.Absent |} in
  Server.fs (Server.clean cfg t (selecting [JStr "logs"]) w).2 =
    Server.Dir true
      [("logs", Server.Dir true []);
       ("b.mp4", Server.File fiftyMB true true);
       ("c.mp4", Server.File fiftyMB true true);
       ("d", Server.Dir true [("c.mp4", Server.File fiftyMB true true)])] /\
  withoutFiles (Server.fs (Server.clean cfg t (selecting [JStr "logs"]) w).2) =
    Server.Dir true [("logs", Server.Dir true []); ("d", Server.Dir true [])].
Proof.
  intros cfg t w. split; [vm_compute; reflexivity|].
  destruct (clean_removes_files_only cfg t (selecting [JStr "logs"]) w) as (H & _).
  rewrite H. reflexivity.
Defined.

(** ** Deletion when everything can be deleted *)

Lemma canUnlink_removeFile p t n :
  p <> t ->
  forall cur, Server.canUnlink p cur (Server.removeFile t cur n) = Server.canUnlink p cur n.
Proof.
  intros Hne. induction n as [sz st ok | | r es IH] using Node_nested_ind; intros cur;
    [done|done|].
  rewrite removeFile_Dir, !canUnlink_Dir.
  induction IH as [|[ename child] es Hc _ IHes]; [done|].
  rewrite removeEntries_cons, canUnlinkIn_cons. cbn [snd] in Hc.
  destruct child as [sz st ok | r' es' |].
  - destruct (ok && String.eqb (PathOps.join cur ename) t) eqn:E.
    + apply andb_true_iff in E as [_ E]. apply String.eqb_eq in E.
      rewrite IHes. destruct (String.eqb_spec (PathOps.join cur ename) p); [congruence|].
      by rewrite andb_false_r.
    + rewrite canUnlinkIn_cons, IHes. done.
  - rewrite removeFile_Dir, canUnlinkIn_cons, <- removeFile_Dir, Hc, IHes. done.
  - rewrite canUnlinkIn_cons, IHes. done.
Qed.

Lemma allDeletable_removeFile t n :
  forall cur, allDeletable n = true -> allDeletable (Server.removeFile t cur n) = true.
Proof.
  induction n as [sz st ok | | r es IH] using Node_nested_ind; intros cur; [done|done|].
  rewrite removeFile_Dir, !allDeletable_Dir.
  induction IH as [|[ename child] es Hc _ IHes]; [done|].
  rewrite removeEntries_cons, allDeletableIn_cons. cbn [snd] in Hc.
  intros [H1 H2]%andb_true_iff.
  destruct child as [sz st ok | r' es' |].
  - destruct (ok && String.eqb (PathOps.join cur ename) t); [by apply IHes|].
    rewrite allDeletableIn_cons, H1. by apply IHes.
  - rewrite allDeletableIn_cons, (Hc _ H1). by apply IHes.
  - rewrite allDeletableIn_cons. by apply IHes.
Qed.

Lemma directFiles_removeEntries t cur es :
  allDeletableIn es = true ->
  directFiles cur (removeEntries t cur es) =
    filter (fun r => path r <> t) (directFiles cur es).
Proof.
  induction es as [|[ename child] es IH]; [done|].
  rewrite allDeletableIn_cons, removeEntries_cons. intros [H1 H2]%andb_true_iff.
  destruct child as [sz st ok | r' es' |]; cbn [directFiles].
  - cbn [allDeletable] in H1. subst ok. cbn [andb].
    destruct (String.eqb_spec (PathOps.join cur ename) t) as [E|E].
    + rewrite IH by done. destruct st; [|done].
      rewrite filter_cons, decide_False; [done|]. cbn. by intros H; apply H.
    + cbn [directFiles]. destruct st; [|by apply IH].
      rewrite filter_cons, decide_True by done. by rewrite IH.
  - by apply IH.
  - by apply IH.
Qed.

Lemma isDir_removeFile t cur n : isDir (Server.removeFile t cur n) = isDir n.
Proof. by destruct n. Qed.

Lemma emittedBy_removeFile t n :
  forall cur, allDeletable n = true ->
    emittedBy cur (Server.removeFile t cur n) =
      filter (fun r => path r <> t) (emittedBy cur n).
Proof.
  induction n as [sz st ok | | r es IH] using Node_nested_ind; intros cur; [done|done|].
  rewrite removeFile_Dir, allDeletable_Dir. intros Hall.
  destruct r; [|done].
  rewrite !emittedBy_Dir, filter_app, directFiles_removeEntries by done. f_equal.
  clear -IH Hall.
  induction IH as [|[ename child] es Hc _ IHes]; [done|].
  rewrite allDeletableIn_cons in Hall. apply andb_true_iff in Hall as [H1 H2].
  rewrite removeEntries_cons. cbn [snd] in Hc. cbn [emittedBelow].
  rewrite filter_app, <- (IHes H2).
  destruct child as [sz st ok | r' es' |]; cbn [isDir andb].
  - destruct (ok && String.eqb (PathOps.join cur ename) t); [by rewrite app_nil_r|].
    cbn [emittedBelow isDir andb]. done.
  - cbn [emittedBelow]. rewrite isDir_removeFile. cbn [isDir andb].
    destruct (negb (has Server.IGNORED_DIRS ename)); [|done].
    by rewrite (Hc _ H1).
  - cbn [emittedBelow isDir andb]. done.
Qed.

Lemma canUnlink_emitted p n :
  forall cur, allDeletable n = true -> p ∈ map path (emittedBy cur n) ->
    Server.canUnlink p cur n = true.
Proof.
  induction n as [sz st ok | | r es IH] using Node_nested_ind; intros cur;
    [intros _ H; by apply elem_of_nil in H|intros _ H; by apply elem_of_nil in H|].
  rewrite allDeletable_Dir, canUnlink_Dir. intros Hall Hin.
  destruct r; [|by apply elem_of_nil in Hin].
  rewrite emittedBy_Dir, map_app in Hin. apply elem_of_app in Hin.
  induction IH as [|[ename child] es Hc _ IHes].
  { destruct Hin as [H|H]; by apply elem_of_nil in H. }
  rewrite allDeletableIn_cons in Hall. apply andb_true_iff in Hall as [H1 H2].
  rewrite canUnlinkIn_cons. cbn [snd] in Hc. apply orb_true_iff.
  destruct Hin as [Hin|Hin].
  - destruct child as [sz st ok | r' es' |]; cbn [directFiles] in Hin.
    + destruct st.
      * cbn [map] in Hin. apply elem_of_cons in Hin as [->|Hin].
        -- left. cbn [allDeletable] in H1. subst ok. cbn. apply String.eqb_refl.
        -- right. apply IHes; [done|by left].
      * right. apply IHes; [done|by left].
    + right. apply IHes; [done|by left].
    + right. apply IHes; [done|by left].
  - cbn [emittedBelow] in Hin. rewrite map_app in Hin.
    apply elem_of_app in Hin as [Hin|Hin].
    + right. apply IHes; [done|by right].
    + destruct child as [sz st ok | r' es' |]; cbn [isDir andb] in Hin;
        try (by apply elem_of_nil in Hin).
      destruct (negb (has Server.IGNORED_DIRS ename)); [|by apply elem_of_nil in Hin].
      left. by apply Hc.
Qed.

Lemma deleteLoop_all cfg files fs bytes count :
  allDeletable fs = true ->
  NoDup (map path files) ->
  Forall (fun f => Server.withinRoot cfg (path f) = true /\
                   Server.canUnlink (path f) (Server.STORAGE_ROOT cfg) fs = true) files ->
  Server.deleteLoop cfg files fs bytes count =
    (removeAll cfg files fs, (bytes + sumSizes files)%N,
     (count + N.of_nat (length files))%N).
Proof.
  revert fs bytes count. induction files as [|f files IH]; intros fs bytes count Hall Hnd Hfs.
  - cbn. unfold sumSizes. cbn. f_equal; [f_equal|]; lia.
  - cbn [map] in Hnd. apply NoDup_cons in Hnd as [Hnotin Hnd].
    apply Forall_cons in Hfs as [[Hw Hc] Hfs].
    rewrite deleteLoop_cons, Hw. cbn [negb]. unfold Server.unlink, Server.unlinkAt. rewrite Hc.
    rewrite IH.
    + rewrite removeAll_cons, sumSizes_cons. cbn [length]. f_equal; [f_equal|]; lia.
    + by apply allDeletable_removeFile.
    + done.
    + apply Forall_forall. intros g Hg. rewrite Forall_forall in Hfs.
      destruct (Hfs g Hg) as [Hwg Hcg]. split; [done|].
      rewrite canUnlink_removeFile; [done|].
      intros E. apply Hnotin. rewrite <- E. by apply list_elem_of_fmap_2.
Qed.

Lemma walkRoot_removeAll cfg files fs :
  allDeletable fs = true ->
  Server.walkRoot cfg (removeAll cfg files fs) =
    filter (fun r => path r ∉ map path files) (Server.walkRoot cfg fs).
Proof.
  revert fs. induction files as [|f files IH]; intros fs Hall.
  - unfold removeAll. cbn [foldl map]. generalize (Server.walkRoot cfg fs). intros l.
    induction l as [|r l IHl]; [done|].
    rewrite filter_cons_True; [by rewrite <- IHl|]. intros H. by apply elem_of_nil in H.
  - rewrite removeAll_cons, IH by (by apply allDeletable_removeFile).
    rewrite !walkRoot_closed, emittedBy_removeFile by done.
    rewrite list_filter_filter. apply list_filter_iff. intros r. cbn [map].
    rewrite not_elem_of_cons. tauto.
Qed.

(** X11. With deletion enabled, when every regular file of the tree
    can be unlinked and the candidates are walked files with distinct
    paths that pass the containment check, every candidate is deleted
    and counted, and the scan made after the deletion walks the files
    walked before except those with a candidate's path. *)
Theorem apply_mode_deletes_candidates
    (cfg : Server.Config) (t : Server.Times) (body : option Json) (w : Server.World)
    (files : list FileRecord)
    (Hon : Server.ALLOW_DELETE cfg = true)
    (Hall : allDeletable (Server.fs w) = true)
    (Hct : Server.collectTargets
             (Server.categoryFiles (Server.scanRoot cfg (Server.scanTime t) (Server.fs w)))
             (Server.targetIds body) [] = Answer files)
    (Hnd : NoDup (map path files))
    (Hfiles : Forall (fun f => Server.withinRoot cfg (path f) = true /\
                               path f ∈ map path (Server.walkRoot cfg (Server.fs w))) files) :
  exists r w',
    Server.clean cfg t body w = (Answer r, w') /\
    Server.r_cleanedFiles r = N.of_nat (length files) /\
    Server.r_cleanedMB r = Server.toMB (Z.of_N (sumSizes files)) /\
    Server.r_simulated r = false /\
    Server.walkRoot cfg (Server.fs w') =
      filter (fun r => path r ∉ map path files) (Server.walkRoot cfg (Server.fs w)) /\
    Server.updatedScan r =
      Server.summarize (Server.rescanTime t)
        (filter (fun r => path r ∉ map path files) (Server.walkRoot cfg (Server.fs w))).
Proof.
  rewrite (clean_of_targets _ _ _ _ _ Hct).
  assert (Hd : Server.deletePhase cfg files (Server.fs w) =
    {| Server.fsAfter := removeAll cfg files (Server.fs w);
       Server.cleanedBytes := sumSizes files;
       Server.cleanedFiles := N.of_nat (length files);
       Server.simulated := false |}).
  { unfold Server.deletePhase. rewrite Hon, deleteLoop_all; [done|done|done|].
    eapply Forall_impl; [exact Hfiles|]. intros f [Hw Hin]. split; [done|].
    apply canUnlink_emitted; [done|]. by rewrite <- walkRoot_closed. }
  rewrite Hd. cbn [Server.fsAfter Server.cleanedBytes Server.cleanedFiles Server.simulated].
  eexists _, _. split; [reflexivity|].
  cbn [Server.r_cleanedFiles Server.r_cleanedMB Server.r_simulated Server.updatedScan
       Server.fs].
  split; [done|]. split; [done|]. split; [done|].
  rewrite walkRoot_removeAll by done. split; [done|].
  unfold Server.scanRoot. by rewrite walkRoot_removeAll.
Qed.

Lemma apply_mode_deletes_candidates_witness :
  let cfg := {| Server.STORAGE_ROOT := "/srv/storage"; Server.ALLOW_DELETE := true;
                Server.cwd := "/srv" |} in
  let t := {| Server.scanTime := "t0"; Server.rescanTime := "t1"; Server.nowMs := 17;
              Server.entryTime := "t2" |} in
  let w := {| Server.fs := Server.Dir true scenarioEntries; Server.storeFile := Server.Absent |} in
  exists r w',
    Server.clean cfg t (selecting [JStr "logs"; JStr "duplicates"]) w = (Answer r, w') /\
    Server.r_cleanedFiles r = 2%N /\ Server.r_cleanedMB r = 60 /\
    map path (Server.walkRoot cfg (Server.fs w')) =
      ["/srv/storage/b.mp4"; "/srv/storage/c.mp4"].
Proof.
  intros cfg t w.
  set (files := [ {| path := "/srv/storage/logs/a.log"; name := "a.log"; size := tenMB;
                     category := Some logs |};
                  {| path := "/srv/storage/d/c.mp4"; name := "c.mp4"; size := fiftyMB;
                     category := Some duplicates |} ]).
  assert (Hct : Server.collectTargets
             (Server.categoryFiles (Server.scanRoot cfg (Server.scanTime t) (Server.fs w)))
             (Server.targetIds (selecting [JStr "logs"; JStr "duplicates"])) [] = Answer files)
    by (vm_compute; reflexivity).
  assert (Hnd : NoDup (map path files)).
  { apply NoDup_cons. split; [|apply NoDup_singleton].
    intros H. apply list_elem_of_singleton in H. discriminate H. }
  assert (Hfiles : Forall (fun f => Server.withinRoot cfg (path f) = true /\
                     path f ∈ map path (Server.walkRoot cfg (Server.fs w))) files).
  { repeat constructor; apply list_elem_of_In; vm_compute; tauto. }
  destruct (apply_mode_deletes_candidates cfg t _ w files eq_refl eq_refl Hct Hnd Hfiles)
    as (r & w' & Hc & Hn & Hmb & _ & Hwalk & _).
  exists r, w'. split; [exact Hc|]. split; [exact Hn|]. split; [exact Hmb|].
  rewrite Hwalk. vm_compute. reflexivity.
Defined.

(** ** Deduplication again *)

Lemma keyOf_setCategory c f : keyOf (setCategory c f) = keyOf f.
Proof. reflexivity. Qed.

Lemma hasEarlierCopy_markDuplicates files i f f' :
  files !! i = Some f -> keyOf f' = keyOf f ->
  hasEarlierCopy (take i (markDuplicates files)) f' = hasEarlierCopy (take i files) f.
Proof.
  intros Hf Hk.
  assert (Hm : exists g, markDuplicates files !! i = Some g /\ keyOf g = keyOf f).
  { rewrite (lookup_markDuplicates _ _ _ Hf). eexists. split; [done|].
    by destruct (hasEarlierCopy _ _). }
  destruct Hm as (g0 & Hg0 & Hkg0).
  apply eq_true_iff_eq.
  assert (Hiff : forall f1 f2, keyOf f1 = keyOf f2 ->
            forall l, hasEarlierCopy l f1 = hasEarlierCopy l f2).
  { intros f1 f2 E l. unfold hasEarlierCopy. f_equal.
    apply keyOf_inj in E as [E1 E2]. unfold sameNameSize.
    by rewrite E1, E2. }
  rewrite (Hiff f' g0) by congruence.
  rewrite (hasEarlierCopy_iff _ _ _ Hg0), (hasEarlierCopy_iff _ _ _ Hf).
  split; intros (g & j & Hlt & Hg & Hkg).
  - destruct (lookup_lt_is_Some_2 files j) as [g' Hg'].
    { apply lookup_lt_Some in Hg. rewrite length_markDuplicates in Hg. done. }
    exists g', j. split; [done|]. split; [done|].
    rewrite (lookup_markDuplicates _ _ _ Hg') in Hg. injection Hg as <-.
    rewrite <- Hkg0, <- Hkg. by destruct (hasEarlierCopy _ _).
  - eexists _, j. split; [done|]. split; [apply (lookup_markDuplicates _ _ _ Hg)|].
    rewrite Hkg0, <- Hkg. by destruct (hasEarlierCopy _ _).
Qed.

(** X13. Deduplicating an already deduplicated list changes nothing:
    the positions marked depend on names and sizes only, which the
    marking leaves alone. *)
Theorem markDuplicates_idempotent (files : list FileRecord) :
  markDuplicates (markDuplicates files) = markDuplicates files.
Proof.
  apply list_eq. intros i.
  destruct (files !! i) as [f|] eqn:Hf.
  - pose proof (lookup_markDuplicates _ _ _ Hf) as Hm.
    rewrite (lookup_markDuplicates _ _ _ Hm), Hm.
    rewrite (hasEarlierCopy_markDuplicates files i f); [|done|by destruct (hasEarlierCopy _ _)].
    by destruct (hasEarlierCopy (take i files) f).
  - apply lookup_ge_None in Hf.
    rewrite !(proj2 (lookup_ge_None _ _)); [done|..];
      rewrite ?length_markDuplicates; lia.
Qed.

(** ** The client categorizer *)

Lemma lower_ascii_is_dot c : Ascii.eqb (Js.lower_ascii c) Path.dot = Ascii.eqb c Path.dot.
Proof. destruct c as [[] [] [] [] [] [] [] []]; reflexivity. Qed.

Lemma lower_ascii_is_slash c : Ascii.eqb (Js.lower_ascii c) Path.slash = Ascii.eqb c Path.slash.
Proof. destruct c as [[] [] [] [] [] [] [] []]; reflexivity. Qed.

Lemma toLowerCase_app a b : Js.toLowerCase (a +:+ b) = Js.toLowerCase a +:+ Js.toLowerCase b.
Proof.
  induction a as [|c a IH]; [done|]. rewrite append_cons. cbn [Js.toLowerCase].
  by rewrite IH, append_cons.
Qed.

Lemma lastIndexOf_from_lower s i found :
  Js.lastIndexOf_from Path.dot (Js.toLowerCase s) i found =
    Js.lastIndexOf_from Path.dot s i found.
Proof.
  revert i found. induction s as [|c s IH]; intros i found; [done|].
  cbn [Js.toLowerCase Js.lastIndexOf_from]. by rewrite lower_ascii_is_dot, IH.
Qed.

Lemma startsWith_prefix_needle h n1 n2 :
  Js.startsWith h (n1 +:+ n2) = true -> Js.startsWith h n1 = true.
Proof.
  rewrite !startsWith_iff. intros [rest ->]. exists (n2 +:+ rest). apply append_assoc.
Qed.

Lemma includes_cons c h n :
  Js.includes (String c h) n = Js.startsWith (String c h) n || Js.includes h n.
Proof. reflexivity. Qed.

Lemma includes_prefix_needle h n1 n2 :
  Js.includes h (n1 +:+ n2) = true -> Js.includes h n1 = true.
Proof.
  induction h as [|c h IH].
  - cbn [Js.includes]. rewrite !orb_false_r. apply startsWith_prefix_needle.
  - rewrite !includes_cons. intros [H|H]%orb_true_iff.
    + by rewrite (startsWith_prefix_needle _ _ _ H).
    + rewrite (IH H). apply orb_true_r.
Qed.

Lemma includes_startsWith h n : Js.startsWith h n = true -> Js.includes h n = true.
Proof. intros H. destruct h; cbn [Js.includes]; by rewrite H. Qed.

Lemma includes_tail_needle h c n :
  Js.includes h (String c n) = true -> Js.includes h n = true.
Proof.
  induction h as [|d h IH].
  - cbn [Js.includes]. rewrite orb_false_r. intros H%startsWith_iff.
    destruct H as [rest H]. discriminate H.
  - rewrite !includes_cons. intros [H|H]%orb_true_iff.
    + apply startsWith_iff in H as [rest H]. rewrite append_cons in H. injection H as -> ->.
      apply orb_true_iff. right. apply includes_startsWith, startsWith_iff. by exists rest.
    + rewrite (IH H). apply orb_true_r.
Qed.

Lemma includes_app_r a b n : Js.includes b n = true -> Js.includes (a +:+ b) n = true.
Proof.
  intros H. induction a as [|c a IH]; [done|].
  rewrite append_cons, includes_cons, IH. apply orb_true_r.
Qed.

Lemma includes_app_l a b n : Js.includes a n = true -> Js.includes (a +:+ b) n = true.
Proof.
  induction a as [|c a IH].
  - cbn [Js.includes]. rewrite orb_false_r. intros H%startsWith_iff.
    destruct H as [rest H]. destruct n; [|discriminate H].
    apply includes_startsWith. by apply startsWith_iff; exists b.
  - rewrite append_cons, !includes_cons. intros [H|H]%orb_true_iff.
    + apply startsWith_iff in H as [rest H]. apply orb_true_iff. left.
      apply startsWith_iff. exists (rest +:+ b).
      rewrite <- append_cons, H. apply append_assoc.
    + rewrite (IH H). apply orb_true_r.
Qed.

Lemma downloads_needs_download h :
  Js.includes h "downloads" = true -> Js.includes h "download" = true.
Proof. apply (includes_prefix_needle h "download" "s"). Qed.

(** X14. For a name and a URI of ASCII characters, [categorizeName]
    depends on the lower-cased name and URI only.  Its test for
    downloads is that the text "name uri", lower-cased, contains
    "download": the test for "downloads" adds nothing.  So a file whose
    name or URI contains "download" in any letter case is never media
    or logs. *)
Theorem categorizeName_rules (name uri : string)
    (Hname : Js.isAscii name = true) (Huri : Js.isAscii uri = true) :
  let lower := Js.toLowerCase (name +:+ " " +:+ uri) in
  let ext := Js.slice_from (Js.toLowerCase name) (Js.lastIndexOf name Path.dot) in
  categorizeName (Js.toLowerCase name) (Js.toLowerCase uri) = categorizeName name uri /\
  categorizeName name uri =
    (if Js.includes lower "/cache/" || Js.includes lower "/tmp/" then Some cache
     else if Js.includes lower "download" then Some downloads
     else if has MEDIA_EXTS ext then Some media
     else if has LOG_EXTS ext then Some logs else None) /\
  (Js.includes (Js.toLowerCase name) "download" = true \/
   Js.includes (Js.toLowerCase uri) "download" = true ->
   categorizeName name uri = Some cache \/ categorizeName name uri = Some downloads).
Proof.
  intros lower ext.
  assert (Hform : categorizeName name uri =
    (if Js.includes lower "/cache/" || Js.includes lower "/tmp/" then Some cache
     else if Js.includes lower "download" then Some downloads
     else if has MEDIA_EXTS ext then Some media
     else if has LOG_EXTS ext then Some logs else None)).
  { unfold categorizeName. fold lower ext.
    destruct (Js.includes lower "/cache/" || Js.includes lower "/tmp/"); [done|].
    destruct (Js.includes lower "downloads") eqn:E.
    - by rewrite (downloads_needs_download _ E).
    - done. }
  split; [|split; [exact Hform|]].
  - unfold categorizeName.
    rewrite !toLowerCase_app, !toLowerCase_idem. unfold Js.lastIndexOf.
    by rewrite lastIndexOf_from_lower.
  - intros H. rewrite Hform.
    assert (Hd : Js.includes lower "download" = true).
    { subst lower. rewrite !toLowerCase_app. destruct H as [H|H].
      - by apply includes_app_l.
      - by apply includes_app_r, includes_app_r. }
    rewrite Hd. destruct (Js.includes lower "/cache/" || Js.includes lower "/tmp/"); auto.
Qed.

Lemma categorizeName_rules_witness :
  categorizeName "holiday.MP4"
    "content://com.android.externalstorage.documents/tree/primary%3ADownload/document/primary%3ADownload%2Fholiday.MP4"
  = Some downloads.
Proof.
  destruct (categorizeName_rules "holiday.MP4"
    "content://com.android.externalstorage.documents/tree/primary%3ADownload/document/primary%3ADownload%2Fholiday.MP4"
    eq_refl eq_refl)
    as (_ & _ & H).
  destruct H as [H|H]; [right; reflexivity| |exact H].
  vm_compute in H. discriminate H.
Defined.

(** ** Where the two categorizers agree *)

Lemma chars_lower s : Js.chars (Js.toLowerCase s) = map Js.lower_ascii (Js.chars s).
Proof.
  induction s as [|c s IH]; [done|].
  cbn [Js.toLowerCase]. unfold Js.chars in *. cbn [list_ascii_of_string map]. by rewrite IH.
Qed.

Lemma noSlash_lower s : noSlash s -> noSlash (Js.toLowerCase s).
Proof.
  unfold noSlash. rewrite chars_lower. intros H. apply Forall_map.
  eapply Forall_impl; [exact H|]. intros c Hc E. apply Hc.
  apply Ascii.eqb_eq. rewrite <- lower_ascii_is_slash. by apply Ascii.eqb_eq.
Qed.

Lemma plain_lower s : plain s -> plain (Js.toLowerCase s).
Proof.
  unfold plain. rewrite chars_lower. intros H. apply Forall_map.
  eapply Forall_impl; [exact H|]. intros c [Hs Hd]. split; intros E.
  - apply Hs. apply Ascii.eqb_eq. rewrite <- lower_ascii_is_slash. by apply Ascii.eqb_eq.
  - apply Hd. apply Ascii.eqb_eq. rewrite <- lower_ascii_is_dot. by apply Ascii.eqb_eq.
Qed.

Lemma lower_nonempty s : s <> "" -> Js.toLowerCase s <> "".
Proof. by destruct s. Qed.

Lemma length_lower s : String.length (Js.toLowerCase s) = String.length s.
Proof. induction s as [|c s IH]; [done|]. cbn. by rewrite IH. Qed.

Lemma segmentStart_lower pre : segmentStart pre -> segmentStart (Js.toLowerCase pre).
Proof.
  intros [->|[dir ->]]; [by left|]. right. exists (Js.toLowerCase dir).
  by rewrite toLowerCase_app.
Qed.

(** Where the last occurrence of a character is. *)
Lemma lastIndexOf_from_spec c s i found :
  (Forall (fun d => d <> c) (Js.chars s) /\ Js.lastIndexOf_from c s i found = found) \/
  (exists stem e,
     s = stem +:+ String c e /\
     Js.lastIndexOf_from c s i found = i + Z.of_nat (String.length stem) /\
     Forall (fun d => d <> c) (Js.chars e)).
Proof.
  revert i found. induction s as [|d s IH]; intros i found.
  - left. split; [constructor|done].
  - cbn [Js.lastIndexOf_from].
    destruct (IH (i + 1) (if Ascii.eqb d c then i else found))
      as [[Hno Hr]|(stem & e & -> & Hr & He)].
    + rewrite Hr. destruct (Ascii.eqb_spec d c) as [->|Hne].
      * right. exists "", s. split; [done|]. split; [cbn; lia|done].
      * left. split; [|done]. cbn. by constructor.
    + right. exists (String d stem), e. split; [done|]. split; [|done].
      rewrite Hr. cbn [String.length]. lia.
Qed.

Lemma substring_length_le n m s : (String.length (String.substring n m s) <= m)%nat.
Proof.
  revert n m. induction s as [|c s IH]; intros [|n] [|m]; cbn; try lia.
  - specialize (IH 0%nat m). lia.
  - apply IH.
  - apply IH.
Qed.

Lemma has_exts_short s :
  (String.length s <= 1)%nat -> has MEDIA_EXTS s = false /\ has LOG_EXTS s = false.
Proof.
  destruct s as [|c [|c' s]]; cbn [String.length]; [| |lia]; intros _.
  - done.
  - unfold has, MEDIA_EXTS, LOG_EXTS. cbn. by destruct (Ascii.eqb c ".").
Qed.

Lemma slice_from_app a b :
  Js.slice_from (a +:+ b) (Z.of_nat (String.length a)) = b.
Proof.
  unfold Js.slice_from, Js.slice, Js.rel_index. rewrite string_length_app.
  destruct (Z.ltb_spec (Z.of_nat (String.length a)) 0); [lia|].
  destruct (Z.ltb_spec (Z.of_nat (String.length a + String.length b)) 0); [lia|].
  rewrite Z.min_l, Z.min_id by lia.
  replace (Z.to_nat (Z.of_nat (String.length a))) with (String.length a) by lia.
  replace (Z.to_nat _) with (String.length b) by lia.
  apply substring_app.
Qed.

Lemma ext_scan_dot_init rest i :
  0 <= i ->
  Path.ext_scan (Path.dot :: rest) i Path.ext_init =
  Path.ext_scan rest (i - 1) (Path.Build_ExtScan i 0 (i + 1) false 0).
Proof. intros Hi. reflexivity. Qed.

(** A last segment that ends with its last dot gives "" or ".". *)
Lemma extname_trailing_dot pre stem :
  segmentStart pre -> noSlash stem ->
  Path.extname (pre +:+ stem +:+ ".") = "" \/ Path.extname (pre +:+ stem +:+ ".") = ".".
Proof.
  intros Hpre Hstem. unfold Path.extname.
  set (p := pre +:+ stem +:+ ".").
  assert (Hlen : String.length p = (String.length pre + (String.length stem + 1))%nat).
  { subst p. rewrite !string_length_app. done. }
  assert (Hchars : rev (Js.chars p) = Path.dot :: (rev (Js.chars stem) ++ rev (Js.chars pre))).
  { subst p. rewrite !chars_app, !rev_app_distr. cbn. done. }
  rewrite Hchars, ext_scan_dot_init by lia.
  rewrite ext_scan_stem; [|by apply Forall_rev|lia|lia].
  match goal with |- context [Path.ext_scan _ ?i (Path.Build_ExtScan ?d ?sp ?en _ ?pd)] =>
    destruct (ext_scan_segmentStart pre i d sp en pd Hpre) as [sp' ->]
  end.
  cbn [Path.startDot Path.endPos Path.preDotState Path.startPart].
  match goal with |- context [if ?b then _ else _] => destruct b end; [by left|].
  right. subst p. rewrite <- (append_assoc pre stem).
  replace (Z.of_nat (String.length ((pre +:+ stem) +:+ ".")) - 1)
    with (Z.of_nat (String.length (pre +:+ stem)))
    by (rewrite (string_length_app (pre +:+ stem)); cbn; lia).
  replace (Z.of_nat (String.length (pre +:+ stem)) + 1)
    with (Z.of_nat (String.length ((pre +:+ stem) +:+ ".")))
    by (rewrite (string_length_app (pre +:+ stem)); cbn; lia).
  apply (slice_from_app (pre +:+ stem) ".").
Qed.

(** Below a name without separators, a needle that starts with one can
    only be found in what follows the name. *)
Lemma includes_after_name a b needle :
  noSlash a ->
  Js.includes (a +:+ " " +:+ b) (String Path.slash needle) =
    Js.includes b (String Path.slash needle).
Proof.
  unfold noSlash. induction a as [|d a IH]; intros Ha.
  - rewrite append_nil, append_cons, append_nil, includes_cons.
    assert (Js.startsWith (String " " b) (String Path.slash needle) = false) as ->
      by reflexivity.
    done.
  - cbn in Ha. apply Forall_cons in Ha as [Hd Ha].
    rewrite append_cons, includes_cons, (IH Ha).
    assert (Js.startsWith (String d (a +:+ " " +:+ b)) (String Path.slash needle) = false)
      as ->; [|done].
    unfold Js.startsWith. cbn [String.prefix].
    destruct (ascii_dec Path.slash d) as [E|E]; [by destruct Hd|done].
Qed.

Lemma slice_from_last_short s :
  (String.length (Js.slice_from s (-1)) <= 1)%nat.
Proof.
  unfold Js.slice_from, Js.slice, Js.rel_index.
  destruct (Z.ltb_spec (-1) 0); [|lia].
  destruct (Z.ltb_spec (Z.of_nat (String.length s)) 0); [lia|].
  etransitivity; [apply substring_length_le|]. lia.
Qed.

Lemma exts_agree pre name :
  segmentStart pre -> noSlash name -> name <> "" -> Js.lastIndexOf name Path.dot <> 0 ->
  let server := Path.extname (Js.toLowerCase (pre +:+ name)) in
  let client := Js.slice_from (Js.toLowerCase name) (Js.lastIndexOf name Path.dot) in
  has MEDIA_EXTS server = has MEDIA_EXTS client /\ has LOG_EXTS server = has LOG_EXTS client.
Proof.
  intros Hpre Hname Hne Hdot server client. subst server client.
  rewrite toLowerCase_app. unfold Js.lastIndexOf in *.
  destruct (lastIndexOf_from_spec Path.dot name 0 (-1))
    as [[Hno Hr]|(stem & e & -> & Hr & He)].
  - rewrite Hr.
    destruct (has_exts_short _ (slice_from_last_short (Js.toLowerCase name))) as [-> ->].
    rewrite extname_no_dot; [done|by apply segmentStart_lower| |by apply lower_nonempty].
    apply plain_lower. unfold plain, noSlash in *.
    rewrite Forall_forall in Hname, Hno. apply Forall_forall. intros c Hc. split; auto.
  - rewrite Hr in *. clear Hr.
    assert (Hstem : stem <> "") by (intros ->; cbn in Hdot; lia).
    unfold noSlash in Hname. rewrite chars_app in Hname.
    apply Forall_app in Hname as [Hs He'].
    change (Js.chars (String Path.dot e)) with (Path.dot :: Js.chars e) in He'.
    apply Forall_cons in He' as [_ He'].
    rewrite toLowerCase_app.
    change (Js.toLowerCase (String Path.dot e)) with ("." +:+ Js.toLowerCase e).
    replace (0 + Z.of_nat (String.length stem))
      with (Z.of_nat (String.length (Js.toLowerCase stem)))
      by (rewrite length_lower; lia).
    rewrite slice_from_app.
    destruct (decide (e = "")) as [->|Hene].
    + cbn [Js.toLowerCase].
      destruct (extname_trailing_dot (Js.toLowerCase pre) (Js.toLowerCase stem)) as [E|E];
        [by apply segmentStart_lower|by apply noSlash_lower| |];
        change ("." +:+ "") with "."; rewrite E; done.
    + rewrite extname_stem_ext; [done|by apply segmentStart_lower|by apply noSlash_lower|
        by apply lower_nonempty| |by apply lower_nonempty].
      apply plain_lower. unfold plain.
      rewrite Forall_forall in He, He'. apply Forall_forall. intros c Hc. split; auto.
Qed.

(** X15. For a file named [name] at the path [pre ++ name], both of
    ASCII characters, the server's [categorizeFile] and the client's
    [categorizeName], given the path as URI, return the same category
    when neither name nor path contains "download" in any letter case
    and the last dot of the name is not its first character. *)
Theorem categorizers_agree (pre name : string)
    (Hapre : Js.isAscii pre = true) (Haname : Js.isAscii name = true)
    (Hpre : segmentStart pre) (Hname : noSlash name) (Hne : name <> "")
    (Hdl : Js.includes (Js.toLowerCase (name +:+ " " +:+ pre +:+ name)) "download" = false)
    (Hdot : Js.lastIndexOf name Path.dot <> 0) :
  categorizeFile (pre +:+ name) = categorizeName name (pre +:+ name).
Proof.
  destruct (exts_agree pre name Hpre Hname Hne Hdot) as [Hm Hl].
  unfold categorizeFile, categorizeName, Path.sep.
  change ("/" +:+ "cache" +:+ "/") with (String Path.slash "cache/").
  change ("/" +:+ "tmp" +:+ "/") with (String Path.slash "tmp/").
  change ("/" +:+ "downloads" +:+ "/") with (String Path.slash "downloads/").
  change "/cache/" with (String Path.slash "cache/").
  change "/tmp/" with (String Path.slash "tmp/").
  rewrite (toLowerCase_app name), (toLowerCase_app " ") in *.
  change (Js.toLowerCase " ") with " " in *.
  rewrite !includes_after_name by (by apply noSlash_lower).
  destruct (Js.includes (Js.toLowerCase (pre +:+ name)) (String Path.slash "cache/")
            || Js.includes (Js.toLowerCase (pre +:+ name)) (String Path.slash "tmp/"));
    [done|].
  assert (Hd1 : Js.includes (Js.toLowerCase (pre +:+ name))
                  (String Path.slash "downloads/") = false).
  { apply not_true_is_false. intros H. apply includes_tail_needle in H.
    apply (includes_prefix_needle _ "download" "s/") in H.
    apply (includes_app_r (Js.toLowerCase name +:+ " ")) in H.
    rewrite append_assoc in H. congruence. }
  assert (Hd2 : Js.includes (Js.toLowerCase name +:+ " " +:+ Js.toLowerCase (pre +:+ name))
                  "downloads" = false).
  { apply not_true_is_false. intros H. apply downloads_needs_download in H. congruence. }
  rewrite Hd1, Hd2, Hdl. cbn [orb].
  cbv zeta in Hm, Hl. rewrite Hm, Hl. done.
Qed.

Lemma categorizers_agree_witness :
  categorizeFile "/srv/storage/logs/a.LOG" = categorizeName "a.LOG" "/srv/storage/logs/a.LOG".
Proof.
  apply (categorizers_agree "/srv/storage/logs/" "a.LOG").
  - reflexivity.
  - reflexivity.
  - right. by exists "/srv/storage/logs".
  - unfold noSlash. repeat constructor; discriminate.
  - discriminate.
  - reflexivity.
  - vm_compute. discriminate.
Defined.

(** ** Names from URIs *)

Lemma str_chars s : Js.str (Js.chars s) = s.
Proof. apply string_of_list_ascii_of_string. Qed.

Lemma split_acc_no_sep seg cur :
  noSlash seg ->
  Js.split_acc Path.slash seg cur = [Js.str (rev cur ++ Js.chars seg)].
Proof.
  unfold noSlash. revert cur. induction seg as [|c seg IH]; intros cur Hs.
  - cbn. by rewrite app_nil_r.
  - cbn in Hs. apply Forall_cons in Hs as [Hc Hs].
    cbn [Js.split_acc]. apply Ascii.eqb_neq in Hc. rewrite Hc.
    rewrite IH by done. cbn [rev]. by rewrite <- app_assoc.
Qed.

Lemma split_acc_nonempty sep s cur : Js.split_acc sep s cur <> [].
Proof.
  revert cur. induction s as [|c s IH]; intros cur; cbn [Js.split_acc]; [done|].
  destruct (Ascii.eqb c sep); [done|apply IH].
Qed.

Lemma last_split_after_slash dir seg cur :
  noSlash seg ->
  last (Js.split_acc Path.slash (dir +:+ "/" +:+ seg) cur) = Some seg.
Proof.
  intros Hs. revert cur. induction dir as [|c dir IH]; intros cur.
  - rewrite append_nil, append_cons, append_nil. cbn [Js.split_acc].
    change (Ascii.eqb "/" Path.slash) with true. cbn iota.
    rewrite split_acc_no_sep by done. cbn. by rewrite str_chars.
  - rewrite append_cons. cbn [Js.split_acc].
    destruct (Ascii.eqb c Path.slash); [|apply IH].
    pose proof (split_acc_nonempty Path.slash (dir +:+ "/" +:+ seg) []) as Hne.
    specialize (IH []).
    destruct (Js.split_acc Path.slash (dir +:+ "/" +:+ seg) []); [by destruct Hne|exact IH].
Qed.

Lemma last_split_segment pre seg :
  segmentStart pre -> noSlash seg ->
  last (Js.split (pre +:+ seg) Path.slash) = Some seg.
Proof.
  intros [->|[dir ->]] Hs; unfold Js.split.
  - rewrite append_nil, split_acc_no_sep by done. cbn. by rewrite str_chars.
  - rewrite append_assoc. by apply last_split_after_slash.
Qed.

(** X16. [guessNameFromUri] decodes the text after the last "/" of the
    URI; when that text is empty (the URI is empty or ends with "/") it
    decodes the whole URI instead; and when decoding throws it returns
    the undecoded text. *)
Theorem guessNameFromUri_cases
    (decode : string -> option string) (pre seg : string)
    (Hpre : segmentStart pre) (Hseg : noSlash seg) :
  let orRaw s := match decode s with Some d => d | None => s end in
  (seg <> "" -> Client.guessNameFromUri decode (pre +:+ seg) = orRaw seg) /\
  (seg = "" -> Client.guessNameFromUri decode (pre +:+ seg) = orRaw pre).
Proof.
  intros orRaw. subst orRaw. cbv beta. unfold Client.guessNameFromUri.
  rewrite (last_split_segment pre seg Hpre Hseg). cbn [default from_option]. unfold Datatypes.id.
  split.
  - intros Hne. destruct (String.eqb_spec seg "") as [E|E]; [done|]. reflexivity.
  - intros ->. change (negb ("" =? "")%string) with false. cbv iota.
    assert (Hp : pre +:+ "" = pre).
    { clear. induction pre as [|c pre IH]; [done|]. by rewrite append_cons, IH. }
    by rewrite Hp.
Qed.

Lemma guessNameFromUri_cases_witness :
  Client.guessNameFromUri decodeId "content://docs/tree/a/document/holiday.mp4" = "holiday.mp4" /\
  Client.guessNameFromUri (fun _ => None) "content://docs/tree/a/" = "content://docs/tree/a/".
Proof.
  assert (Hs : noSlash "holiday.mp4") by (unfold noSlash; repeat constructor; discriminate).
  assert (He : noSlash "") by constructor.
  split.
  - destruct (guessNameFromUri_cases decodeId "content://docs/tree/a/document/" "holiday.mp4")
      as [H _]; [right; by exists "content://docs/tree/a/document" | exact Hs |].
    apply H. discriminate.
  - destruct (guessNameFromUri_cases (fun _ => None) "content://docs/tree/a/" "")
      as [_ H]; [right; by exists "content://docs/tree/a" | exact He |].
    apply H. reflexivity.
Defined.

(** ** The selection on screen *)

Lemma get_setKey c v sel c' :
  App.get (App.setKey c v sel) c' = if bool_decide (c = c') then v else App.get sel c'.
Proof.
  induction sel as [|[k w] sel IH]; cbn [App.setKey App.get].
  - done.
  - destruct (bool_decide_reflect (k = c)) as [->|Hk]; cbn [App.get].
    + by destruct (bool_decide (c = c')).
    + rewrite IH. destruct (bool_decide_reflect (k = c')) as [->|Hk']; [|done].
      by rewrite bool_decide_false.
Qed.

Lemma keys_setKey c v sel :
  map fst (App.setKey c v sel) =
    if bool_decide (c ∈ map fst sel) then map fst sel else map fst sel ++ [c].
Proof.
  induction sel as [|[k w] sel IH]; cbn [App.setKey map fst].
  - by rewrite bool_decide_false by apply not_elem_of_nil.
  - destruct (bool_decide_reflect (k = c)) as [->|Hk]; cbn [map fst].
    + by rewrite bool_decide_true by left.
    + rewrite IH. destruct (bool_decide_reflect (c ∈ map fst sel)) as [Hin|Hin].
      * by rewrite bool_decide_true by (by right).
      * rewrite bool_decide_false; [done|].
        intros [E|E]%elem_of_cons; [by subst|done].
Qed.

Lemma NoDup_setKey c v sel : NoDup (map fst sel) -> NoDup (map fst (App.setKey c v sel)).
Proof.
  intros Hnd. rewrite keys_setKey.
  destruct (bool_decide_reflect (c ∈ map fst sel)) as [Hin|Hin]; [done|].
  apply NoDup_app. split; [done|]. split; [|apply NoDup_singleton].
  intros x Hx ->%list_elem_of_singleton. done.
Qed.

Lemma elem_keys_setKey c v sel k :
  k ∈ map fst (App.setKey c v sel) <-> k = c \/ k ∈ map fst sel.
Proof.
  rewrite keys_setKey.
  destruct (bool_decide_reflect (c ∈ map fst sel)) as [Hin|Hin].
  - split; [by right|]. by intros [->|H].
  - rewrite elem_of_app, list_elem_of_singleton. tauto.
Qed.

Lemma values_setKey c v sel :
  Forall (fun kv => snd kv = v) sel -> Forall (fun kv => snd kv = v) (App.setKey c v sel).
Proof.
  induction 1 as [|[k w] sel Hk Hs IH]; cbn [App.setKey].
  - by constructor.
  - destruct (bool_decide (k = c)); constructor; done.
Qed.

Lemma setEach_from (cats : list CategorySummary) v acc :
  let sel := foldl (fun next c => App.setKey (id c) v next) acc cats in
  (NoDup (map fst acc) -> NoDup (map fst sel)) /\
  (Forall (fun kv => snd kv = v) acc -> Forall (fun kv => snd kv = v) sel) /\
  (forall k, k ∈ map fst sel <-> k ∈ map id cats \/ k ∈ map fst acc) /\
  (forall k, App.get sel k = if bool_decide (k ∈ map id cats) then v else App.get acc k).
Proof.
  revert acc. induction cats as [|c cats IH]; intros acc; cbn [foldl map].
  - split; [done|]. split; [done|]. split.
    + intros k. split; [by right|]. intros [H|H]; [by apply elem_of_nil in H|done].
    + intros k. by rewrite bool_decide_false by apply not_elem_of_nil.
  - destruct (IH (App.setKey (id c) v acc)) as (Hnd & Hval & Hkeys & Hget).
    split; [|split; [|split]].
    + intros H. by apply Hnd, NoDup_setKey.
    + intros H. by apply Hval, values_setKey.
    + intros k. split.
      * intros H. apply Hkeys in H as [H|H]; [left; by right|].
        apply elem_keys_setKey in H as [->|H]; [left; by left|by right].
      * intros [[->|H]%elem_of_cons|H]; apply Hkeys;
          [right; apply elem_keys_setKey; by left|by left
          |right; apply elem_keys_setKey; by right].
    + intros k. rewrite Hget, get_setKey.
      destruct (bool_decide_reflect (k ∈ map id cats)) as [Hin|Hin].
      * by rewrite bool_decide_true by (by right).
      * destruct (bool_decide_reflect (id c = k)) as [<-|E].
        -- by rewrite bool_decide_true by left.
        -- rewrite bool_decide_false; [done|].
           intros [E'|E']%elem_of_cons; [by subst|done].
Qed.

Lemma setEach_spec (cats : list CategorySummary) v :
  NoDup (map fst (App.setEach cats v)) /\
  Forall (fun kv => snd kv = v) (App.setEach cats v) /\
  (forall k, k ∈ map fst (App.setEach cats v) <-> k ∈ map id cats) /\
  (forall k, App.get (App.setEach cats v) k = if bool_decide (k ∈ map id cats) then v else false).
Proof.
  destruct (setEach_from cats v []) as (Hnd & Hval & Hkeys & Hget).
  split; [|split; [|split]].
  - apply Hnd. constructor.
  - apply Hval. constructor.
  - intros k. rewrite Hkeys. split; [|by left].
    intros [H|H]; [done|by apply elem_of_nil in H].
  - exact Hget.
Qed.

Lemma selectedKeys_all (sel : App.Selected) :
  Forall (fun kv => snd kv = true) sel -> App.selectedKeys sel = map fst sel.
Proof.
  unfold App.selectedKeys. induction 1 as [|kv sel Hk _ IH]; [done|].
  rewrite filter_cons_True by done. cbn [map]. by rewrite IH.
Qed.

Lemma selectedKeys_none (sel : App.Selected) :
  Forall (fun kv => snd kv = false) sel -> App.selectedKeys sel = [].
Proof.
  unfold App.selectedKeys. induction 1 as [|kv sel Hk _ IH]; [done|].
  rewrite filter_cons_False; [done|]. rewrite Hk. discriminate.
Qed.

Lemma keyName_inj c c' : keyName c = keyName c' -> c = c'.
Proof. by destruct c, c'. Qed.

Lemma NoDup_selectedKeys sel : NoDup (map fst sel) -> NoDup (App.selectedKeys sel).
Proof.
  unfold App.selectedKeys. induction sel as [|kv sel IH]; [done|].
  cbn [map]. intros [Hk Hnd]%NoDup_cons.
  destruct (decide (snd kv = true)) as [E|E].
  - rewrite filter_cons_True by done. cbn [map]. apply NoDup_cons. split; [|by apply IH].
    intros Hin. apply Hk. apply list_elem_of_fmap in Hin as (x & -> & Hx).
    apply list_elem_of_filter in Hx as [_ Hx]. apply list_elem_of_fmap. by exists x.
  - rewrite filter_cons_False by done. by apply IH.
Qed.

Lemma NoDup_selectedIds sel : NoDup (map fst sel) -> NoDup (App.selectedIds sel).
Proof.
  intros H. unfold App.selectedIds.
  assert (Hinj : Inj (=) (=) keyName) by (intros x y; apply keyName_inj).
  apply (NoDup_fmap_2 keyName). by apply NoDup_selectedKeys.
Qed.

Lemma sumMB_from (cats : list CategorySummary) a :
  foldl (fun sum c => sum + sizeMB c) a cats = a + App.sumMB cats.
Proof.
  unfold App.sumMB. revert a. induction cats as [|c cats IH]; intros a; cbn [foldl].
  - lia.
  - rewrite IH, (IH (0 + sizeMB c)). lia.
Qed.

Lemma sumMB_cons c cats : App.sumMB (c :: cats) = sizeMB c + App.sumMB cats.
Proof. unfold App.sumMB at 1. cbn [foldl]. rewrite sumMB_from. lia. Qed.

Lemma filter_all_true {A} (P : A -> Prop) `{forall x, Decision (P x)} (l : list A) :
  Forall P l -> filter P l = l.
Proof.
  induction 1 as [|x l Hx _ IH]; [done|]. by rewrite filter_cons_True, IH.
Qed.

Lemma filter_all_false {A} (P : A -> Prop) `{forall x, Decision (P x)} (l : list A) :
  Forall (fun x => ~ P x) l -> filter P l = [].
Proof.
  induction 1 as [|x l Hx _ IH]; [done|]. by rewrite filter_cons_False.
Qed.

(** X17. The select-all button leaves every category on screen selected,
    unless all of them were selected already, in which case it leaves
    none selected and the clean button disabled.  After selecting all,
    the selected figure is the sum of all category sizes and the ids to
    send are the ids on screen, each once.  Keys of categories no
    longer on screen are forgotten either way. *)
Theorem toggleAll_all_or_none (d : Client.Data) (sel : App.Selected) :
  let cats := Client.d_categories d in
  let sel' := App.toggleAll (Some d) sel in
  (forallb (fun c => App.get sel (id c)) cats = true ->
     App.selectedIds sel' = [] /\ App.selectedMB (Some d) sel' = 0) /\
  (forallb (fun c => App.get sel (id c)) cats = false ->
     NoDup (App.selectedIds sel') /\
     (forall c, keyName c ∈ App.selectedIds sel' <-> c ∈ map id cats) /\
     App.selectedMB (Some d) sel' = App.sumMB cats) /\
  (forall c, c ∉ map id cats -> App.get sel' c = false).
Proof.
  intros cats sel'. subst sel'. unfold App.toggleAll. fold cats.
  split; [|split].
  - intros ->. cbn [negb].
    destruct (setEach_spec cats false) as (_ & Hval & _ & Hget).
    split.
    + unfold App.selectedIds. by rewrite selectedKeys_none.
    + unfold App.selectedMB. fold cats. rewrite filter_all_false; [done|].
      apply Forall_forall. intros c _. rewrite Hget.
      by destruct (bool_decide (id c ∈ map id cats)).
  - intros ->. cbn [negb].
    destruct (setEach_spec cats true) as (Hnd & Hval & Hkeys & Hget).
    split; [by apply NoDup_selectedIds|]. split.
    + intros c. unfold App.selectedIds. rewrite selectedKeys_all by done.
      rewrite <- Hkeys. split.
      * intros (c' & E%keyName_inj & Hc')%list_elem_of_fmap. by subst.
      * intros Hc. apply list_elem_of_fmap. by exists c.
    + unfold App.selectedMB. fold cats. rewrite filter_all_true; [done|].
      apply Forall_forall. intros c Hc. rewrite Hget.
      rewrite bool_decide_true; [done|]. apply list_elem_of_fmap. by exists c.
  - intros c Hc.
    destruct (setEach_spec cats (negb (forallb (fun c => App.get sel (id c)) cats)))
      as (_ & _ & _ & Hget).
    rewrite Hget. by rewrite bool_decide_false.
Qed.

Lemma toggleAll_all_or_none_witness :
  App.selectedIds
    (App.toggleAll (Some fallbackData)
       (App.setEach (Client.d_categories fallbackData) true)) = [] /\
  App.selectedMB (Some fallbackData) (App.toggleAll (Some fallbackData) []) = 4460.
Proof.
  split.
  - destruct (toggleAll_all_or_none fallbackData
                (App.setEach (Client.d_categories fallbackData) true)) as (H & _ & _).
    destruct H as [H _]; [reflexivity|]. exact H.
  - destruct (toggleAll_all_or_none fallbackData []) as (_ & H & _).
    destruct H as (_ & _ & H); [reflexivity|]. exact H.
Defined.

Lemma sumMB_simulated (sel : App.Selected) (cats : list CategorySummary) :
  let zeroed :=
    map (fun c => if App.get sel (id c)
                  then {| id := id c; sname := sname c; description := description c;
                          sizeMB := 0 |}
                  else c) cats in
  App.sumMB zeroed =
    App.sumMB cats - App.sumMB (filter (fun c => App.get sel (id c) = true) cats) /\
  App.sumMB (filter (fun c => App.get sel (id c) = true) zeroed) = 0 /\
  map id zeroed = map id cats.
Proof.
  induction cats as [|c cats IH]; [done|].
  cbn zeta in *. destruct IH as (IH1 & IH2 & IH3). cbn [map].
  destruct (App.get sel (id c)) eqn:E.
  - rewrite filter_cons_True by done. rewrite filter_cons_True by done.
    rewrite !sumMB_cons, IH1, IH2, IH3. cbn [sizeMB id]. split; [lia|done].
  - rewrite filter_cons_False by (rewrite E; discriminate).
    rewrite filter_cons_False by (rewrite E; discriminate).
    rewrite !sumMB_cons, IH1, IH2, IH3. split; [lia|done].
Qed.

(** X18. When the server clean fails, the screen is updated locally:
    every selected category drops to 0 MB, nothing is selected any more
    in megabytes, and the reclaimable total becomes the sum of the
    category sizes before minus the selected figure.  The used total and
    the history stay as they were, and no category is removed. *)
Theorem local_simulation (d : Client.Data) (sel : App.Selected) :
  exists d',
    App.simulateLocally sel (Some d) = Some d' /\
    Client.d_totalUsedMB d' = Client.d_totalUsedMB d /\
    Client.d_history d' = Client.d_history d /\
    map id (Client.d_categories d') = map id (Client.d_categories d) /\
    Client.d_totalReclaimableMB d' =
      App.sumMB (Client.d_categories d) - App.selectedMB (Some d) sel /\
    App.selectedMB (Some d') sel = 0.
Proof.
  destruct (sumMB_simulated sel (Client.d_categories d)) as (H1 & H2 & H3).
  eexists. split; [reflexivity|]. cbn [Client.d_totalUsedMB Client.d_history
    Client.d_categories Client.d_totalReclaimableMB App.selectedMB].
  repeat split; done.
Qed.

Lemma step_keeps_keys_distinct (st : App.State) (e : App.Event) :
  NoDup (map fst (App.selected st)) -> NoDup (map fst (App.selected (App.step st e))).
Proof.
  intros Hnd. destruct e as [d|d| | |row value]; cbn [App.step App.selected]; try done.
  - apply setEach_spec.
  - unfold App.toggleAll. destruct (App.data st) as [d|]; [apply setEach_spec|done].
  - destruct (App.data st) as [d|]; [|done].
    destruct (Client.d_categories d !! row) as [cat|]; [|done].
    cbn [App.selected]. by apply NoDup_setKey.
Qed.

Lemma run_keeps_keys_distinct (events : list App.Event) :
  NoDup (map fst (App.selected (App.run events))).
Proof.
  unfold App.run.
  assert (H : forall st, NoDup (map fst (App.selected st)) ->
                         NoDup (map fst (App.selected (foldl App.step st events)))).
  { induction events as [|e events IH]; intros st Hst; [done|].
    cbn [foldl]. by apply IH, step_keeps_keys_distinct. }
  apply H. constructor.
Qed.

Lemma newSet_distinct_strings (ids : list string) (seen : list Json) :
  NoDup ids -> (forall k, k ∈ ids -> JStr k ∉ seen) ->
  Server.newSet (map JStr ids) seen = rev seen ++ map JStr ids.
Proof.
  revert seen. induction ids as [|k ids IH]; intros seen Hnd Hseen; cbn [map Server.newSet].
  - by rewrite app_nil_r.
  - apply NoDup_cons in Hnd as [Hk Hnd].
    destruct (existsb (Server.sameValueZero (JStr k)) seen) eqn:E.
    + apply existsb_exists in E as (s & Hs & E). apply sameValueZero_JStr in E. subst s.
      exfalso. apply (Hseen k); [by left|]. by apply list_elem_of_In.
    + rewrite IH; [|done|].
      * cbn [rev]. by rewrite <- app_assoc.
      * intros k' Hk' [E'|Hin]%elem_of_cons.
        -- injection E' as ->. done.
        -- apply (Hseen k'); [by right|done].
Qed.

Lemma targetIds_selecting (items : list Json) :
  Server.targetIds (selecting items) = Server.newSet items [].
Proof. reflexivity. Qed.

Lemma server_collects_keys (cf : CategoryFiles) (keys : list CategoryId) acc :
  Server.collectTargets cf (map JStr (map keyName keys)) acc =
    Answer (acc ++ flat_map (cf_get cf) keys).
Proof.
  revert acc. induction keys as [|c keys IH]; intros acc;
    cbn [map Server.collectTargets flat_map Server.propertyKey].
  - by rewrite app_nil_r.
  - rewrite categoryOfKey_keyName, IH. by rewrite app_assoc.
Qed.

Lemma client_collects_keys (cf : CategoryFiles) (keys : list CategoryId) acc :
  Client.collectTargets cf (map keyName keys) acc =
    Answer (acc ++ flat_map (cf_get cf) keys).
Proof.
  revert acc. induction keys as [|c keys IH]; intros acc;
    cbn [map Client.collectTargets flat_map].
  - by rewrite app_nil_r.
  - rewrite categoryOfKey_keyName, IH. by rewrite app_assoc.
Qed.

(** X19. For data whose category ids are the five names: whatever has
    happened on the screen (loads, scans, cleans, failed cleans,
    select-all, single switches), the keys of [selected] are distinct,
    so the ids the clean button sends have no repeats.  The [Set] of
    the server therefore keeps them as they are and in order, and the
    candidates are the lists of the selected categories in the order
    of the selection, each list once; the device clean collects the
    same lists. *)
Theorem screen_selection_is_clean
    (events : list App.Event) (cfg : Server.Config) (t : Server.Times) (w : Server.World)
    (cf' : CategoryFiles) :
  let sel := App.selected (App.run events) in
  let ids := App.selectedIds sel in
  let cf := Server.categoryFiles (Server.scanRoot cfg (Server.scanTime t) (Server.fs w)) in
  let d := Server.deletePhase cfg (flat_map (cf_get cf) (App.selectedKeys sel)) (Server.fs w) in
  NoDup ids /\
  Server.targetIds (selecting (map JStr ids)) = map JStr ids /\
  (exists r w',
     Server.clean cfg t (selecting (map JStr ids)) w = (Answer r, w') /\
     Server.fs w' = Server.fsAfter d /\
     Server.r_cleanedFiles r = Server.cleanedFiles d /\
     Server.r_cleanedMB r = Server.toMB (Z.of_N (Server.cleanedBytes d))) /\
  Client.collectTargets cf' ids [] = Answer (flat_map (cf_get cf') (App.selectedKeys sel)).
Proof.
  intros sel ids cf d.
  assert (Hnd : NoDup ids).
  { apply NoDup_selectedIds, run_keeps_keys_distinct. }
  assert (Hids : Server.targetIds (selecting (map JStr ids)) = map JStr ids).
  { rewrite targetIds_selecting, newSet_distinct_strings; [done|done|].
    intros k _ H. by apply elem_of_nil in H. }
  split; [done|]. split; [done|]. split.
  - unfold Server.clean. rewrite Hids. fold cf.
    unfold ids at 1, App.selectedIds. rewrite server_collects_keys. cbn [app]. fold d.
    by eexists _, _.
  - unfold ids, App.selectedIds. by rewrite client_collects_keys.
Qed.

(** ** Paths of walked files *)

Lemma entryName_spec s :
  entryName s = true -> s <> "" /\ s <> "." /\ s <> ".." /\ noSlash s.
Proof.
  unfold entryName. rewrite !andb_true_iff, !negb_true_iff, !String.eqb_neq.
  intros [[[H1 H2] H3] H4]. repeat split; try done.
  unfold noSlash. apply Forall_forall. intros c Hc.
  rewrite forallb_forall in H4. specialize (H4 c). rewrite <- list_elem_of_In in H4.
  specialize (H4 Hc). apply negb_true_iff, Ascii.eqb_neq in H4. done.
Qed.

Lemma properNames_Dir r es : properNames (Server.Dir r es) = properNamesIn es.
Proof.
  cbn [properNames]. unfold properNamesIn.
  induction es as [|[ename child] es IH]; [done|]. cbn [forallb fst snd]. by rewrite IH.
Qed.

Lemma absPath_app a b : absPath (a ++ b) = absPath a +:+ absPath b.
Proof.
  induction a as [|s a IH]; [done|]. cbn [app absPath foldr]. fold (absPath (a ++ b)).
  fold (absPath a). rewrite IH. rewrite !append_cons, append_nil.
  by rewrite !append_assoc.
Qed.

Lemma absPath_cons s a : absPath (s :: a) = String Path.slash (s +:+ absPath a).
Proof. reflexivity. Qed.

Lemma split_acc_segment s t cur :
  noSlash s ->
  Js.split_acc Path.slash (s +:+ t) cur = Js.split_acc Path.slash t (rev (Js.chars s) ++ cur).
Proof.
  unfold noSlash. revert cur. induction s as [|c s IH]; intros cur Hs; [done|].
  cbn in Hs. apply Forall_cons in Hs as [Hc Hs].
  rewrite append_cons. cbn [Js.split_acc].
  apply Ascii.eqb_neq in Hc. rewrite Hc. rewrite IH by done.
  cbn [Js.chars list_ascii_of_string rev]. unfold Js.chars. by rewrite <- app_assoc.
Qed.

Lemma split_absPath segs t cur :
  Forall noSlash segs ->
  Js.split_acc Path.slash (absPath segs +:+ String Path.slash t) cur =
    Js.str (rev cur) :: segs ++ Js.split_acc Path.slash t [].
Proof.
  intros Hs. revert cur. induction Hs as [|s segs Hs _ IH]; intros cur.
  - cbn [absPath foldr]. rewrite append_nil. cbn [Js.split_acc].
    by rewrite Ascii.eqb_refl.
  - rewrite absPath_cons, append_cons. cbn [Js.split_acc]. rewrite Ascii.eqb_refl.
    rewrite append_assoc, split_acc_segment by done. rewrite IH.
    rewrite app_nil_r, rev_involutive, str_chars. done.
Qed.

Lemma normalizeSegs_names b names rest res :
  Forall (fun s => s <> "" /\ s <> "." /\ s <> "..") names ->
  PathOps.normalizeSegs b (names ++ rest) res =
    PathOps.normalizeSegs b rest (rev names ++ res).
Proof.
  intros Hn. revert res. induction Hn as [|s names (H1 & H2 & H3) _ IH]; intros res; [done|].
  cbn [app PathOps.normalizeSegs].
  apply String.eqb_neq in H1, H2, H3. rewrite H1, H2, H3. cbn [orb].
  rewrite IH. cbn [rev]. by rewrite <- app_assoc.
Qed.

Lemma entryNames_noSlash names :
  forallb entryName names = true -> Forall noSlash names.
Proof.
  intros H. apply Forall_forall. intros s Hs.
  rewrite forallb_forall in H. apply list_elem_of_In, H in Hs.
  by apply entryName_spec in Hs as (_ & _ & _ & Hs).
Qed.

Lemma entryNames_kept names :
  forallb entryName names = true ->
  Forall (fun s => s <> "" /\ s <> "." /\ s <> "..") names.
Proof.
  intros H. apply Forall_forall. intros s Hs.
  rewrite forallb_forall in H. apply list_elem_of_In, H in Hs.
  apply entryName_spec in Hs. tauto.
Qed.

Lemma append_empty_r s : s +:+ "" = s.
Proof. induction s as [|c s IH]; [done|]. by rewrite append_cons, IH. Qed.

Lemma concat_absPath s segs : "/" +:+ String.concat "/" (s :: segs) = absPath (s :: segs).
Proof.
  revert s. induction segs as [|s' segs IH]; intros s.
  - cbn [String.concat absPath foldr]. by rewrite append_empty_r.
  - cbn [String.concat]. rewrite absPath_cons. rewrite <- IH.
    rewrite !append_cons, append_nil. done.
Qed.

(** [normalizeString] of an absolute path with proper segments, with
    or without one more separator, gives the segments back. *)
Lemma normalizeString_absPath segs t :
  forallb entryName segs = true -> t = "" \/ entryName t = true ->
  PathOps.normalizeString (absPath segs +:+ String Path.slash t) false =
    Js.join (segs ++ (if String.eqb t "" then [] else [t])) "/".
Proof.
  intros Hs Ht. unfold PathOps.normalizeString, Js.split.
  rewrite split_absPath by by apply entryNames_noSlash.
  cbn [rev Js.str string_of_list_ascii PathOps.normalizeSegs String.eqb orb].
  rewrite normalizeSegs_names by by apply entryNames_kept.
  rewrite app_nil_r. destruct Ht as [->|Ht].
  - cbn. by rewrite app_nil_r, rev_involutive.
  - destruct (entryName_spec t Ht) as (H1 & H2 & H3 & H4).
    rewrite split_acc_no_sep by done. cbn [rev app]. rewrite str_chars.
    cbn [PathOps.normalizeSegs].
    apply String.eqb_neq in H1, H2, H3. rewrite H1, H2, H3. cbn [orb].
    cbn [rev]. by rewrite rev_involutive.
Qed.

Lemma is_empty_cons c s : PathOps.is_empty (String c s) = false.
Proof. reflexivity. Qed.

Lemma isAbsolute_slash s : PathOps.isAbsolute (String Path.slash s) = true.
Proof.
  unfold PathOps.isAbsolute, Js.startsWith. cbn [String.prefix].
  destruct (ascii_dec "/" Path.slash) as [_|H]; [by destruct s|done].
Qed.

Lemma join_nonempty segs t : t <> "" -> Js.join (segs ++ [t]) "/" <> "".
Proof.
  intros Ht. unfold Js.join. induction segs as [|s segs IH]; [done|].
  cbn [app String.concat]. destruct (segs ++ [t]) eqn:E.
  - by destruct segs.
  - destruct s; [|done]. rewrite append_nil. done.
Qed.

Lemma endsWithSlash_name a t :
  t <> "" -> noSlash t -> PathOps.endsWithSlash (a +:+ t) = false.
Proof.
  intros Ht Hs. unfold PathOps.endsWithSlash. rewrite chars_app, rev_app_distr.
  unfold noSlash in Hs. apply Forall_rev in Hs.
  destruct (rev (Js.chars t)) as [|c l] eqn:E.
  - exfalso. apply (rev_nonempty (Js.chars t)); [by apply chars_nonempty|done].
  - cbn [app]. apply Forall_cons in Hs as [Hc _]. by apply Ascii.eqb_neq.
Qed.

(** [path.join] of an absolute directory path and an entry name. *)
Lemma join_absPath s segs ename :
  forallb entryName (s :: segs) = true -> entryName ename = true ->
  PathOps.join (absPath (s :: segs)) ename = absPath (s :: segs ++ [ename]).
Proof.
  intros Hs He. destruct (entryName_spec ename He) as (H1 & H2 & H3 & H4).
  unfold PathOps.join.
  assert (Hp : PathOps.is_empty (absPath (s :: segs)) = false) by done.
  assert (Hn : PathOps.is_empty ename = false) by (by apply String.eqb_neq).
  rewrite Hp, Hn. unfold PathOps.normalize.
  assert (Hq : PathOps.is_empty (absPath (s :: segs) +:+ "/" +:+ ename) = false)
    by (by rewrite absPath_cons, append_cons).
  assert (Ha : PathOps.isAbsolute (absPath (s :: segs) +:+ "/" +:+ ename) = true)
    by (rewrite absPath_cons, append_cons; apply isAbsolute_slash).
  rewrite Hq, Ha. cbn [negb].
  rewrite <- append_assoc, endsWithSlash_name by done. rewrite append_assoc.
  change ("/" +:+ ename) with (String Path.slash ename).
  rewrite normalizeString_absPath by (done || by right).
  apply String.eqb_neq in H1 as H1'. rewrite H1'.
  assert (Hj : PathOps.is_empty (Js.join ((s :: segs) ++ [ename]) "/") = false).
  { apply String.eqb_neq. by apply join_nonempty. }
  rewrite Hj. cbn [app]. unfold Js.join. apply concat_absPath.
Qed.

(** [path.join] of the root directory and an entry name. *)
Lemma join_slash ename :
  entryName ename = true -> PathOps.join "/" ename = absPath [ename].
Proof.
  intros He. destruct (entryName_spec ename He) as (H1 & H2 & H3 & H4).
  unfold PathOps.join.
  assert (Hn : PathOps.is_empty ename = false) by (by apply String.eqb_neq).
  rewrite Hn. cbn [PathOps.is_empty String.eqb]. unfold PathOps.normalize.
  assert (Hq : PathOps.is_empty ("/" +:+ "/" +:+ ename) = false) by (by rewrite append_cons).
  assert (Ha : PathOps.isAbsolute ("/" +:+ "/" +:+ ename) = true)
    by (rewrite append_cons; apply isAbsolute_slash).
  rewrite Hq, Ha. cbn [negb].
  rewrite <- (append_assoc "/" "/" ename), (endsWithSlash_name ("/" +:+ "/") ename) by done.
  rewrite append_assoc.
  change ("/" +:+ ename) with (absPath [] +:+ String Path.slash ename).
  change ("/" +:+ (absPath [] +:+ String Path.slash ename))
    with (absPath [""] +:+ String Path.slash ename).
  unfold PathOps.normalizeString, Js.split.
  rewrite split_absPath by (repeat constructor).
  rewrite split_acc_no_sep by done. cbn [rev app Js.str string_of_list_ascii].
  rewrite str_chars.
  cbn [PathOps.normalizeSegs String.eqb orb].
  apply String.eqb_neq in H1, H2, H3. rewrite H1, H2, H3. cbn [orb rev app].
  unfold Js.join. cbn [String.concat]. unfold PathOps.is_empty. rewrite H1.
  cbn [absPath foldr]. by rewrite append_empty_r.
Qed.

(** [path.resolve] of an absolute path: the working directory is not
    consulted. *)
Lemma resolve_absolute cwd p :
  PathOps.resolve cwd (String Path.slash p) =
    "/" +:+ PathOps.normalizeString (String Path.slash p +:+ "/" +:+ "") false.
Proof.
  unfold PathOps.resolve. cbv beta zeta. rewrite is_empty_cons, isAbsolute_slash.
  cbv iota beta. done.
Qed.

Lemma resolve_absPath cwd s segs :
  forallb entryName (s :: segs) = true ->
  PathOps.resolve cwd (absPath (s :: segs)) = absPath (s :: segs).
Proof.
  intros Hs. rewrite absPath_cons at 1. rewrite resolve_absolute.
  rewrite <- absPath_cons.
  change ("/" +:+ "") with (String Path.slash "").
  rewrite normalizeString_absPath by (done || by left).
  cbn [String.eqb]. rewrite app_nil_r. apply concat_absPath.
Qed.

Lemma resolve_slash cwd : PathOps.resolve cwd "/" = "/".
Proof. by rewrite resolve_absolute. Qed.

Lemma prefix_append a b : String.prefix a (a +:+ b) = true.
Proof.
  induction a as [|c a IH]; [by destruct b|].
  rewrite append_cons. cbn [String.prefix]. by destruct (ascii_dec c c).
Qed.

Lemma withinRoot_below cfg s segs names :
  Server.STORAGE_ROOT cfg = absPath (s :: segs) ->
  forallb entryName (s :: segs) = true -> forallb entryName names = true -> names <> [] ->
  Server.withinRoot cfg (absPath ((s :: segs) ++ names)) = true.
Proof.
  intros Hroot Hs Hn Hne. unfold Server.withinRoot. rewrite Hroot.
  rewrite resolve_absPath by done.
  change ((s :: segs) ++ names) with (s :: (segs ++ names)).
  rewrite resolve_absPath.
  2:{ change (s :: segs ++ names) with ((s :: segs) ++ names).
      rewrite forallb_app. by rewrite Hs, Hn. }
  change (s :: segs ++ names) with ((s :: segs) ++ names). rewrite absPath_app.
  destruct names as [|n names]; [done|]. rewrite (absPath_cons n).
  unfold Js.startsWith, Path.sep.
  change (String Path.slash (n +:+ absPath names)) with ("/" +:+ (n +:+ absPath names)).
  rewrite <- append_assoc. apply prefix_append.
Qed.

Lemma withinRoot_slash cfg names :
  Server.STORAGE_ROOT cfg = "/" -> forallb entryName names = true -> names <> [] ->
  Server.withinRoot cfg (absPath names) = false.
Proof.
  intros Hroot Hn Hne. unfold Server.withinRoot. rewrite Hroot, resolve_slash.
  destruct names as [|n names]; [done|].
  rewrite resolve_absPath by done.
  apply andb_true_iff in Hn as [Hn _]. apply entryName_spec in Hn as (H1 & _ & _ & H4).
  rewrite absPath_cons. unfold Js.startsWith, Path.sep.
  destruct n as [|c n]; [done|]. rewrite append_cons.
  unfold noSlash in H4. cbn in H4. apply Forall_cons in H4 as [Hc _].
  cbn [String.append String.prefix].
  destruct (ascii_dec "/" Path.slash); [|done].
  rewrite append_nil, append_cons. cbn [String.prefix].
  destruct (ascii_dec "/" c) as [E|E]; [by subst c|done].
Qed.

Lemma join_dirPath segs ename :
  forallb entryName segs = true -> entryName ename = true ->
  PathOps.join (dirPath segs) ename = dirPath (segs ++ [ename]).
Proof.
  intros Hs He. destruct segs as [|s segs].
  - by apply join_slash.
  - cbn [dirPath app]. rewrite join_absPath by done. by destruct segs.
Qed.

Lemma dirPath_snoc segs ename : dirPath (segs ++ [ename]) = absPath (segs ++ [ename]).
Proof. by destruct segs. Qed.

Lemma liesBelow_deeper segs ename p :
  entryName ename = true -> liesBelow (segs ++ [ename]) p -> liesBelow segs p.
Proof.
  intros He (names & Hne & Hn & ->). exists (ename :: names).
  split; [done|]. split; [cbn [forallb]; by rewrite He, Hn|].
  by rewrite <- app_assoc.
Qed.

Lemma directFiles_below segs es :
  forallb entryName segs = true -> properNamesIn es = true ->
  Forall (fun f => liesBelow segs (path f)) (directFiles (dirPath segs) es).
Proof.
  intros Hs. induction es as [|[ename child] es IH]; [constructor|].
  unfold properNamesIn. cbn [forallb fst snd].
  intros [[He Hc]%andb_true_iff Hes]%andb_true_iff.
  destruct child as [sz [|] ok | r es' |]; cbn [directFiles]; try by apply IH.
  constructor; [|by apply IH].
  cbn [recordOf path]. rewrite join_dirPath, dirPath_snoc by done.
  exists [ename]. split; [done|]. split; [cbn [forallb]; by rewrite He|done].
Qed.

Lemma emittedBy_below n :
  forall segs,
    forallb entryName segs = true -> properNames n = true ->
    Forall (fun f => liesBelow segs (path f)) (emittedBy (dirPath segs) n).
Proof.
  induction n as [sz st ok | | r es IH] using Node_nested_ind; intros segs Hs Hn;
    [constructor|constructor|].
  destruct r; [|constructor].
  rewrite properNames_Dir in Hn.
  rewrite emittedBy_Dir. apply Forall_app. split; [by apply directFiles_below|].
  clear -IH Hs Hn.
  induction IH as [|[ename child] es Hc _ IHes]; [constructor|].
  unfold properNamesIn in Hn. cbn [forallb fst snd] in Hn.
  apply andb_true_iff in Hn as [[He Hch]%andb_true_iff Hes].
  cbn [emittedBelow]. apply Forall_app. split; [by apply IHes|].
  destruct (isDir child && negb (has Server.IGNORED_DIRS ename)); [|constructor].
  rewrite join_dirPath by done. cbn [snd] in Hc.
  eapply Forall_impl; [apply Hc; [|done]|].
  - rewrite forallb_app. cbn [forallb]. by rewrite Hs, He.
  - intros f Hf. by apply (liesBelow_deeper segs ename).
Qed.

Lemma walked_in_lists cfg now fs c f :
  f ∈ cf_get (Server.categoryFiles (Server.scanRoot cfg now fs)) c ->
  path f ∈ map path (Server.walkRoot cfg fs).
Proof.
  unfold Server.scanRoot, Server.summarize. cbn [Server.categoryFiles].
  intros [Hf _]%elem_cf_get.
  rewrite <- (markDuplicates_proj path) by done.
  apply list_elem_of_fmap. by exists f.
Qed.

Lemma contribution_walked cfg now fs ids f :
  f ∈ flat_map (contribution (Server.categoryFiles (Server.scanRoot cfg now fs))) ids ->
  path f ∈ map path (Server.walkRoot cfg fs).
Proof.
  intros Hf. apply list_elem_of_In, in_flat_map in Hf as (v & _ & Hf).
  apply list_elem_of_In in Hf. unfold contribution in Hf.
  destruct (Server.propertyKey v) as [k|]; [|by apply elem_of_nil in Hf].
  destruct (Server.categoryOfKey k) as [c|]; [|by apply elem_of_nil in Hf].
  by apply (walked_in_lists cfg now fs c).
Qed.

Lemma insideRoot_all cfg files :
  Forall (fun f => Server.withinRoot cfg (path f) = true) files ->
  insideRoot cfg files = files.
Proof. intros H. unfold insideRoot. by apply filter_all_true. Qed.

Lemma insideRoot_none cfg files :
  Forall (fun f => Server.withinRoot cfg (path f) = false) files ->
  insideRoot cfg files = [].
Proof.
  intros H. unfold insideRoot. apply filter_all_false.
  eapply Forall_impl; [exact H|]. intros f Hf. cbn beta. by rewrite Hf.
Qed.

(** X20. When the root is an absolute path of ordinary segments (such
    as "/srv/storage") and the tree has the entry names a file system
    gives, every file the walk reports lies under the root by name and
    passes the root check, so the check removes nothing from the five
    category lists, nor from the candidates of any clean that is
    answered. *)
Theorem walked_files_pass_guard
    (cfg : Server.Config) (fs : Server.Node) (s : string) (segs : list string)
    (Hroot : Server.STORAGE_ROOT cfg = absPath (s :: segs))
    (Hsegs : forallb entryName (s :: segs) = true)
    (Hfs : properNames fs = true) :
  Forall (fun f => liesBelow (s :: segs) (path f) /\ Server.withinRoot cfg (path f) = true)
         (Server.walkRoot cfg fs) /\
  (forall now c,
     let files := cf_get (Server.categoryFiles (Server.scanRoot cfg now fs)) c in
     insideRoot cfg files = files) /\
  (forall now ids files,
     Server.collectTargets (Server.categoryFiles (Server.scanRoot cfg now fs)) ids []
       = Answer files ->
     insideRoot cfg files = files).
Proof.
  assert (Hw : Forall (fun f => liesBelow (s :: segs) (path f) /\
                                Server.withinRoot cfg (path f) = true)
                      (Server.walkRoot cfg fs)).
  { rewrite walkRoot_closed, Hroot. change (absPath (s :: segs)) with (dirPath (s :: segs)).
    eapply Forall_impl; [by apply emittedBy_below|].
    intros f Hf. split; [done|]. destruct Hf as (names & Hne & Hn & ->).
    by apply withinRoot_below. }
  assert (Hp : forall p, p ∈ map path (Server.walkRoot cfg fs) ->
                         Server.withinRoot cfg p = true).
  { intros p (f & -> & Hf)%list_elem_of_fmap.
    rewrite Forall_forall in Hw. by apply Hw. }
  split; [exact Hw|]. split.
  - intros now c files. apply insideRoot_all, Forall_forall. intros f Hf.
    by apply Hp, (walked_in_lists cfg now fs c).
  - intros now ids files Hct. rewrite collectTargets_closed in Hct.
    destruct (existsb throwsOn ids); [done|]. injection Hct as <-. cbn [app].
    apply insideRoot_all, Forall_forall. intros f Hf.
    by apply Hp, (contribution_walked cfg now fs ids).
Qed.

Lemma walked_files_pass_guard_witness :
  Forall (fun f => liesBelow ["srv"; "storage"] (path f) /\
                   Server.withinRoot scenarioConfig (path f) = true)
         (Server.walkRoot scenarioConfig (Server.Dir true scenarioEntries)).
Proof.
  apply (walked_files_pass_guard scenarioConfig (Server.Dir true scenarioEntries)
           "srv" ["storage"]); reflexivity.
Defined.

(** X21. When the root is "/", no file the walk reports passes the root
    check, because the prefix that is compared is "//".  In apply mode
    the deletion loop then unlinks none of the candidates of a
    selection, and a clean that is answered reports nothing cleaned. *)
Theorem root_slash_deletes_nothing
    (cfg : Server.Config) (t : Server.Times) (body : option Json) (w : Server.World)
    (Hroot : Server.STORAGE_ROOT cfg = "/")
    (Hon : Server.ALLOW_DELETE cfg = true)
    (Hfs : properNames (Server.fs w) = true) :
  let cf := Server.categoryFiles (Server.scanRoot cfg (Server.scanTime t) (Server.fs w)) in
  Forall (fun f => Server.withinRoot cfg (path f) = false)
         (Server.walkRoot cfg (Server.fs w)) /\
  (forall ids filesToClean,
     Server.collectTargets cf ids [] = Answer filesToClean ->
     insideRoot cfg filesToClean = [] /\
     Server.deletePhase cfg filesToClean (Server.fs w) =
       {| Server.fsAfter := Server.fs w; Server.cleanedBytes := 0; Server.cleanedFiles := 0;
          Server.simulated := false |}) /\
  (Server.clean cfg t body w = (TypeError, w) \/
   exists r w',
     Server.clean cfg t body w = (Answer r, w') /\
     Server.r_cleanedFiles r = 0%N /\
     Server.r_cleanedMB r = 0 /\
     Server.r_simulated r = false).
Proof.
  intros cf.
  assert (Hw : Forall (fun f => Server.withinRoot cfg (path f) = false)
                      (Server.walkRoot cfg (Server.fs w))).
  { rewrite walkRoot_closed, Hroot. change "/" with (dirPath []).
    eapply Forall_impl; [by apply emittedBy_below|].
    intros f (names & Hne & Hn & ->). by apply withinRoot_slash. }
  assert (Hnone : forall ids, insideRoot cfg (flat_map (contribution cf) ids) = []).
  { intros ids. apply insideRoot_none, Forall_forall. intros f Hf.
    apply contribution_walked, list_elem_of_fmap in Hf as (g & -> & Hg).
    rewrite Forall_forall in Hw. by apply Hw. }
  assert (Hphase : forall ids,
    Server.deletePhase cfg (flat_map (contribution cf) ids) (Server.fs w) =
      {| Server.fsAfter := Server.fs w; Server.cleanedBytes := 0; Server.cleanedFiles := 0;
         Server.simulated := false |}).
  { intros ids. unfold Server.deletePhase. by rewrite Hon, deleteLoop_insideRoot, Hnone. }
  split; [exact Hw|]. split.
  - intros ids files Hct. rewrite collectTargets_closed in Hct.
    destruct (existsb throwsOn ids); [done|]. injection Hct as <-. cbn [app].
    split; [apply Hnone|apply Hphase].
  - unfold Server.clean. fold cf. rewrite collectTargets_closed.
    destruct (existsb throwsOn (Server.targetIds body)); [by left|]. right.
    cbn [app]. rewrite Hphase. eexists _, _. split; [reflexivity|]. done.
Qed.

Lemma root_slash_deletes_nothing_witness :
  let cfg := {| Server.STORAGE_ROOT := "/"; Server.ALLOW_DELETE := true;
                Server.cwd := "/srv" |} in
  Forall (fun f => Server.withinRoot cfg (path f) = false)
         (Server.walkRoot cfg (Server.Dir true scenarioEntries)).
Proof.
  intros cfg.
  apply (root_slash_deletes_nothing cfg
           {| Server.scanTime := "t0"; Server.rescanTime := "t1"; Server.nowMs := 1;
              Server.entryTime := "t2" |}
           (selecting [JStr "media"])
           {| Server.fs := Server.Dir true scenarioEntries;
              Server.storeFile := Server.saveStore [] |}); reflexivity.
Defined.

(** ** What a device clean leaves alone *)

Lemma present_SafDir target uri cs :
  Client.present target uri (Client.SafDir (Some cs)) = presentIn target cs.
Proof.
  cbn [Client.present]. unfold presentIn.
  induction cs as [|[child cnode] cs IH]; [done|]. cbn [existsb fst snd]. by rewrite IH.
Qed.

Lemma removeUri_SafDir target uri cs :
  Client.removeUri target uri (Client.SafDir (Some cs)) =
    Client.SafDir (Some (removeUriIn target cs)).
Proof.
  cbn [Client.removeUri]. unfold removeUriIn. do 2 f_equal.
  induction cs as [|[child cnode] cs IH]; [done|]. cbn [map fst snd]. by rewrite IH.
Qed.

Lemma present_removeUri p target n :
  p <> target ->
  forall uri, Client.present p uri (Client.removeUri target uri n) = Client.present p uri n.
Proof.
  intros Hp.
  induction n as [| sz ok | | cs IH] using SafNode_nested_ind; intros uri; try done.
  - cbn [Client.removeUri]. destruct ok; cbn [andb]; [|done].
    destruct (String.eqb_spec uri target) as [->|Hu]; [|done].
    cbn [Client.present]. symmetry. by apply String.eqb_neq.
  - rewrite removeUri_SafDir, !present_SafDir. unfold presentIn, removeUriIn.
    induction IH as [|[child cnode] cs Hc _ IHcs]; [done|].
    cbn [map existsb fst snd]. cbn [snd] in Hc. by rewrite Hc, IHcs.
Qed.

Lemma client_deleteLoop_keeps rootUri p files :
  p ∉ map path files ->
  forall root bytes count,
    Client.present p rootUri (Client.deleteLoop rootUri files root bytes count).1.1 =
      Client.present p rootUri root.
Proof.
  induction files as [|f files IH]; intros Hp root bytes count; [done|].
  cbn [map] in Hp. apply not_elem_of_cons in Hp as [Hpf Hp].
  cbn [Client.deleteLoop]. unfold Client.deleteAsync.
  destruct (Client.canDelete (path f) rootUri root).
  - rewrite IH by done. by apply present_removeUri.
  - destruct (Client.present (path f) rootUri root); by rewrite IH.
Qed.

(** X22. A device clean of chosen categories always answers, and a URI
    that is not the URI of a file in one of the chosen category lists
    names a file afterwards exactly if it did before: nothing outside
    the selection is deleted. *)
Theorem device_clean_spares_the_rest
    (decode : string -> option string) (uri : string) (keys : list CategoryId)
    (now : Z) (time : string) (writable : bool) (dev : Client.Device) :
  let cf := Client.categories
              (Client.buildCategories (Client.scanSafTree decode uri (Client.root dev) [])) in
  exists d dev',
    Client.runDeviceClean decode uri (map keyName keys) now time writable dev
      = (Answer d, dev') /\
    forall p,
      (forall c f, c ∈ keys -> f ∈ cf_get cf c -> path f <> p) ->
      Client.present p uri (Client.root dev') = Client.present p uri (Client.root dev).
Proof.
  intros cf. unfold Client.runDeviceClean. fold cf.
  rewrite client_collects_keys. cbn [app].
  destruct (Client.deleteLoop uri (flat_map (cf_get cf) keys) (Client.root dev) 0 0)
    as [[root' bytes] count] eqn:E.
  eexists _, _. split; [reflexivity|]. cbn [Client.root].
  intros p Hp.
  change root' with (root', bytes, count).1.1. rewrite <- E.
  apply client_deleteLoop_keeps.
  intros (f & -> & Hf)%list_elem_of_fmap.
  apply list_elem_of_In, in_flat_map in Hf as (c & Hc & Hf).
  apply (Hp c f); [by apply list_elem_of_In|by apply list_elem_of_In|done].
Qed.

Lemma device_clean_spares_the_rest_witness :
  let dev := {| Client.root := safIgnoredTree; Client.item := Client.NoItem |} in
  exists d dev',
    Client.runDeviceClean decodeId "content://documents/tree/proj" [keyName media]
      17 "t" true dev = (Answer d, dev') /\
    Client.present "content://documents/tree/proj/document/proj%2Fnode_modules%2Fx.log"
      "content://documents/tree/proj" (Client.root dev') = true.
Proof.
  intros dev.
  destruct (device_clean_spares_the_rest decodeId "content://documents/tree/proj" [media]
              17 "t" true dev) as (d & dev' & Hrun & Hkeep).
  exists d, dev'. split; [exact Hrun|].
  rewrite Hkeep; [reflexivity|].
  intros c f Hc Hf. apply list_elem_of_singleton in Hc. subst c.
  vm_compute in Hf. by apply elem_of_nil in Hf.
Defined.
